(** * GazeboRosVideo: video playback onto a texture

    A shallow embedding of [gazebo_plugins/src/gazebo_ros_video.cpp]: the
    frame slot shared between the ROS callbacks, the playback thread and the
    render callback, the playback loop body with its streaming and buffering
    branches, and the two mutexes that guard them. *)

From Stdlib Require Import ZArith NArith Bool String List Lia.
From Stdlib Require Import Strings.Byte.
From Stdlib Require Import Floats.SpecFloat.
Import ListNotations.
Open Scope Z_scope.

(** ** IEEE binary64 values

    [video_seek_position_] and the seek products are C++ [double]s.  They are
    modelled by the specification floats of the standard library at
    precision 53, so that products are rounded to nearest-even exactly as
    the hardware does. *)
Module Double.
Definition prec : Z := 53.
Definition emax : Z := 1024.
Definition double := spec_float.

(** A well-formed binary64 datum (canonical mantissa, bounded exponent). *)
Definition valid (x : double) : bool := valid_binary prec emax x.

Definition mul (x y : double) : double := SFmul prec emax x y.

(** [x <= y]; false as soon as one side is NaN. *)
Definition leb (x y : double) : bool := SFleb x y.

(** Integer to double conversion (round to nearest even). *)
Definition of_Z (n : Z) : double := binary_normalize prec emax n 0 false.

Definition zero : double := S754_zero false.
Definition one : double := S754_finite false 4503599627370496 (-52).
Definition minus_one : double := S754_finite true 4503599627370496 (-52).

(** The dyadic [m * 2^e], rounded into the format. *)
Definition dyadic (m e : Z) : double := binary_normalize prec emax m e false.

(** Double to integer conversion: the fractional part is discarded
    (truncation toward zero).  [Z.shiftl] by a negative amount is the
    right shift.  NaN and the infinities have no defined conversion in
    C++; no call site below reaches them, and they map to 0 here. *)
Definition to_Z (x : double) : Z :=
  match x with
  | S754_finite s m e => cond_Zopp s (Z.shiftl (Z.pos m) e)
  | _ => 0
  end.

(** Conversion to an unsigned index. *)
Definition to_N (x : double) : N := Z.to_N (to_Z x).

(** Rounding to the nearest integer, halves away from zero, of a
    non-negative double: what the word "round" of the playback
    description denotes.  Used only to compare against [to_Z]. *)
Definition round_half_up (x : double) : Z :=
  match x with
  | S754_finite false m e =>
      match e with
      | Zneg p => (Z.pos m + 2 ^ (Z.pos p - 1)) / 2 ^ Z.pos p
      | _ => Z.pos m * 2 ^ e
      end
  | _ => 0
  end.

(** Sizes below [2^53] convert to [double] without rounding. *)
Definition max_exact : Z := 2 ^ prec.

(** [0 <= x && x <= 1], the guard of both seek branches. *)
Definition in_unit (x : double) : bool := leb zero x && leb x one.
End Double.
Import Double.

(** ** Images *)
Module cv.
(** An 8-bit BGR pixel (CV_8UC3) and an 8-bit BGRA pixel (CV_8UC4). *)
Definition bgr : Type := byte * byte * byte.
Definition bgra : Type := byte * byte * byte * byte.

(** [cv::Mat] restricted to the two pixel formats the plugin handles:
    decoded video frames and files read with CV_LOAD_IMAGE_COLOR are
    [Mat bgr], the frame slot and the texture source are [Mat bgra]. *)
Record Mat (px : Type) : Type := mkMat
  { rows : Z; cols : Z; data : list px }.
Arguments mkMat {px} _ _ _.
Arguments rows {px} _.
Arguments cols {px} _.
Arguments data {px} _.

(** [cv::Mat::empty()]: no data or no element. *)
Definition empty {px} (m : Mat px) : bool :=
  (rows m * cols m =? 0) || match data m with [] => true | _ => false end.

(** The default-constructed [cv::Mat]. *)
Definition Mat0 {px} : Mat px := mkMat 0 0 [].

(** [cv::Mat::zeros(rows, cols, CV_8UC4)]. *)
Definition zeros (r c : Z) : Mat bgra :=
  mkMat r c (repeat (x00, x00, x00, x00) (Z.to_nat (r * c))).

Definition add_alpha (p : bgr) : bgra :=
  let '(b, g, r) := p in (b, g, r, xff).

(** [cv::cvtColor(src, dst, CV_BGR2BGRA, 4)] on a 3-channel source. *)
Definition cvtColor_BGR2BGRA (src : Mat bgr) : Mat bgra :=
  mkMat (rows src) (cols src) (map add_alpha (data src)).

Definition bytes_of (p : bgra) : list byte :=
  let '(b, g, r, a) := p in [b; g; r; a].

(** [cv::VideoCapture] over an already known sequence of decoded frames. *)
Record VideoCapture : Type := mkCap
  { isOpened : bool; stream : list (Mat bgr); pos_frames : nat }.

Definition closed : VideoCapture := mkCap false [] 0.

(** [cap.read(frame)]: the next frame and the advanced capture, or no
    frame at the end of the stream or on a capture that is not open. *)
Definition read (c : VideoCapture) : option (Mat bgr) * VideoCapture :=
  if isOpened c then
    match nth_error (stream c) (pos_frames c) with
    | Some f => (Some f, mkCap true (stream c) (S (pos_frames c)))
    | None => (None, c)
    end
  else (None, c).

(** [cap.get(CV_CAP_PROP_FRAME_COUNT)]. *)
Definition frame_count (c : VideoCapture) : double :=
  of_Z (Z.of_nat (List.length (stream c))).

(** Modelled from the spec: [FrameSource.seekFraction] "maps to absolute
    frame index = floor(total_frames x f)"; the decoder behind
    [cap.set(CV_CAP_PROP_POS_FRAMES, x)] is not part of the sources. *)
Definition set_pos_frames (c : VideoCapture) (x : double) : VideoCapture :=
  mkCap (isOpened c) (stream c) (N.to_nat (to_N x)).
End cv.
Import cv.

(** ** External collaborators

    The file system as the decoders see it, and OpenCV's interpolation. *)
Class World : Type :=
  { (** frames [cv::VideoCapture::open] finds behind a path; [None] when the
        file cannot be opened *)
    video_file : string -> option (list (Mat bgr));
    (** [cv::imread(path, CV_LOAD_IMAGE_COLOR)]; an empty matrix on failure *)
    imread : string -> Mat bgr;
    (** [common::SystemPaths::FindFileURI] *)
    FindFileURI : string -> string;
    (** pixel data [cv::resize] computes for a target width and height *)
    interpolate_bgr : Mat bgr -> Z -> Z -> list bgr;
    interpolate_bgra : Mat bgra -> Z -> Z -> list bgra }.

(** ** VideoVisual *)
Record VideoVisual : Type := mkVisual
  { height_ : Z; width_ : Z; texture : list byte }.

(** ** The plugin object

    The members of [GazeboRosVideo] that the callbacks and the playback
    thread use; [cap] is the capture local to [VideoThread].  The cursor
    [current_buffered_frame_] is declared in the header, which is not among
    the sources; it is compared with [size()] and used as a vector index,
    hence an unsigned number here.  [image_ = None] is the null pointer. *)
Record GazeboRosVideo : Type := mkPlugin
  { video_visual_ : VideoVisual;
    image_ : option (Mat bgra);
    new_image_available_ : bool;
    video_path_ : string;
    stop_video_ : bool;
    new_video_available_ : bool;
    video_paused_ : bool;
    loop_video_ : bool;
    buffer_all_frames_for_fast_seek_ : bool;
    video_seek_position_ : double;
    video_frames_ : list (Mat bgr);
    current_buffered_frame_ : N;
    cap : VideoCapture }.

Definition set_video_visual_ (v : VideoVisual) (s : GazeboRosVideo)
  : GazeboRosVideo :=
  mkPlugin v (image_ s) (new_image_available_ s) (video_path_ s) (stop_video_
    s) (new_video_available_ s) (video_paused_ s) (loop_video_ s)
    (buffer_all_frames_for_fast_seek_ s) (video_seek_position_ s)
    (video_frames_ s) (current_buffered_frame_ s) (cap s).

Definition set_image_ (v : option (Mat bgra)) (s : GazeboRosVideo)
  : GazeboRosVideo :=
  mkPlugin (video_visual_ s) v (new_image_available_ s) (video_path_ s)
    (stop_video_ s) (new_video_available_ s) (video_paused_ s) (loop_video_ s)
    (buffer_all_frames_for_fast_seek_ s) (video_seek_position_ s)
    (video_frames_ s) (current_buffered_frame_ s) (cap s).

Definition set_new_image_available_ (v : bool) (s : GazeboRosVideo)
  : GazeboRosVideo :=
  mkPlugin (video_visual_ s) (image_ s) v (video_path_ s) (stop_video_ s)
    (new_video_available_ s) (video_paused_ s) (loop_video_ s)
    (buffer_all_frames_for_fast_seek_ s) (video_seek_position_ s)
    (video_frames_ s) (current_buffered_frame_ s) (cap s).

Definition set_video_path_ (v : string) (s : GazeboRosVideo)
  : GazeboRosVideo :=
  mkPlugin (video_visual_ s) (image_ s) (new_image_available_ s) v
    (stop_video_ s) (new_video_available_ s) (video_paused_ s) (loop_video_ s)
    (buffer_all_frames_for_fast_seek_ s) (video_seek_position_ s)
    (video_frames_ s) (current_buffered_frame_ s) (cap s).

Definition set_stop_video_ (v : bool) (s : GazeboRosVideo)
  : GazeboRosVideo :=
  mkPlugin (video_visual_ s) (image_ s) (new_image_available_ s) (video_path_
    s) v (new_video_available_ s) (video_paused_ s) (loop_video_ s)
    (buffer_all_frames_for_fast_seek_ s) (video_seek_position_ s)
    (video_frames_ s) (current_buffered_frame_ s) (cap s).

Definition set_new_video_available_ (v : bool) (s : GazeboRosVideo)
  : GazeboRosVideo :=
  mkPlugin (video_visual_ s) (image_ s) (new_image_available_ s) (video_path_
    s) (stop_video_ s) v (video_paused_ s) (loop_video_ s)
    (buffer_all_frames_for_fast_seek_ s) (video_seek_position_ s)
    (video_frames_ s) (current_buffered_frame_ s) (cap s).

Definition set_video_paused_ (v : bool) (s : GazeboRosVideo)
  : GazeboRosVideo :=
  mkPlugin (video_visual_ s) (image_ s) (new_image_available_ s) (video_path_
    s) (stop_video_ s) (new_video_available_ s) v (loop_video_ s)
    (buffer_all_frames_for_fast_seek_ s) (video_seek_position_ s)
    (video_frames_ s) (current_buffered_frame_ s) (cap s).

Definition set_loop_video_ (v : bool) (s : GazeboRosVideo)
  : GazeboRosVideo :=
  mkPlugin (video_visual_ s) (image_ s) (new_image_available_ s) (video_path_
    s) (stop_video_ s) (new_video_available_ s) (video_paused_ s) v
    (buffer_all_frames_for_fast_seek_ s) (video_seek_position_ s)
    (video_frames_ s) (current_buffered_frame_ s) (cap s).

Definition set_buffer_all_frames_for_fast_seek_ (v : bool) (s : GazeboRosVideo)
  : GazeboRosVideo :=
  mkPlugin (video_visual_ s) (image_ s) (new_image_available_ s) (video_path_
    s) (stop_video_ s) (new_video_available_ s) (video_paused_ s) (loop_video_
    s) v (video_seek_position_ s) (video_frames_ s) (current_buffered_frame_
    s) (cap s).

Definition set_video_seek_position_ (v : double) (s : GazeboRosVideo)
  : GazeboRosVideo :=
  mkPlugin (video_visual_ s) (image_ s) (new_image_available_ s) (video_path_
    s) (stop_video_ s) (new_video_available_ s) (video_paused_ s) (loop_video_
    s) (buffer_all_frames_for_fast_seek_ s) v (video_frames_ s)
    (current_buffered_frame_ s) (cap s).

Definition set_video_frames_ (v : list (Mat bgr)) (s : GazeboRosVideo)
  : GazeboRosVideo :=
  mkPlugin (video_visual_ s) (image_ s) (new_image_available_ s) (video_path_
    s) (stop_video_ s) (new_video_available_ s) (video_paused_ s) (loop_video_
    s) (buffer_all_frames_for_fast_seek_ s) (video_seek_position_ s) v
    (current_buffered_frame_ s) (cap s).

Definition set_current_buffered_frame_ (v : N) (s : GazeboRosVideo)
  : GazeboRosVideo :=
  mkPlugin (video_visual_ s) (image_ s) (new_image_available_ s) (video_path_
    s) (stop_video_ s) (new_video_available_ s) (video_paused_ s) (loop_video_
    s) (buffer_all_frames_for_fast_seek_ s) (video_seek_position_ s)
    (video_frames_ s) v (cap s).

Definition set_cap (v : VideoCapture) (s : GazeboRosVideo)
  : GazeboRosVideo :=
  mkPlugin (video_visual_ s) (image_ s) (new_image_available_ s) (video_path_
    s) (stop_video_ s) (new_video_available_ s) (video_paused_ s) (loop_video_
    s) (buffer_all_frames_for_fast_seek_ s) (video_seek_position_ s)
    (video_frames_ s) (current_buffered_frame_ s) v.

(** ** Programs

    A member function is a sequence of mutex operations, reads and updates
    of the plugin object.  The same program is run sequentially ([exec]),
    inspected for the locks it holds ([lock_events]) and interleaved with
    other threads ([sched_step]). *)
Inductive mutex : Type := m_image_ | m_video_.

Inductive fault : Type :=
| vector_out_of_range (index : N) (size : nat)
| null_pointer.

Inductive prog (A : Type) : Type :=
| Ret (a : A)
| Lock (m : mutex) (k : prog A)
| Unlock (m : mutex) (k : prog A)
| Read (k : GazeboRosVideo -> prog A)
| Write (f : GazeboRosVideo -> GazeboRosVideo) (k : prog A)
| Abort (e : fault).
Arguments Ret {A} _.
Arguments Lock {A} _ _.
Arguments Unlock {A} _ _.
Arguments Read {A} _.
Arguments Write {A} _ _.
Arguments Abort {A} _.

Fixpoint bind {A B} (p : prog A) (f : A -> prog B) : prog B :=
  match p with
  | Ret a => f a
  | Lock m k => Lock m (bind k f)
  | Unlock m k => Unlock m (bind k f)
  | Read k => Read (fun s => bind (k s) f)
  | Write g k => Write g (bind k f)
  | Abort e => Abort e
  end.

Definition ret {A} (a : A) : prog A := Ret a.
Definition lock (m : mutex) : prog unit := Lock m (Ret tt).
Definition unlock (m : mutex) : prog unit := Unlock m (Ret tt).
Definition get : prog GazeboRosVideo := Read (fun s => Ret s).
Definition write (f : GazeboRosVideo -> GazeboRosVideo) : prog unit :=
  Write f (Ret tt).
Definition abort {A} (e : fault) : prog A := Abort e.

Declare Scope prog_scope.
Delimit Scope prog_scope with prog.
Notation "x <- c ;; k" := (bind c (fun x => k))
  (at level 61, c at next level, right associativity) : prog_scope.
Notation "c ;; k" := (bind c (fun _ => k))
  (at level 61, right associativity) : prog_scope.
Open Scope prog_scope.

Inductive outcome (A : Type) : Type :=
| Done (a : A) (s : GazeboRosVideo)
| Faulted (e : fault).
Arguments Done {A} _ _.
Arguments Faulted {A} _.

(** Sequential execution: the caller is the only thread, so every mutex is
    free when it is requested. *)
Fixpoint exec {A} (p : prog A) (s : GazeboRosVideo) : outcome A :=
  match p with
  | Ret a => Done a s
  | Lock _ k => exec k s
  | Unlock _ k => exec k s
  | Read k => exec (k s) s
  | Write f k => exec k (f s)
  | Abort e => Faulted e
  end.

(** ** The plugin against its collaborators *)
Section Plugin.
Context {W : World}.

(** [cap.open(path)] *)
Definition cap_open (path : string) : VideoCapture :=
  match video_file path with
  | Some frames => mkCap true frames 0
  | None => closed
  end.

(** [cv::resize(src, dst, cv::Size(width, height))] *)
Definition resize_bgr (src : Mat bgr) (width height : Z) : Mat bgr :=
  mkMat height width (interpolate_bgr src width height).

Definition resize_bgra (src : Mat bgra) (width height : Z) : Mat bgra :=
  mkMat height width (interpolate_bgra src width height).

(** The image [VideoVisual::render] copies from: the argument, resized
    when its size is not the texture's. *)
Definition render_source (v : VideoVisual) (image : Mat bgra) : Mat bgra :=
  if negb (rows image =? height_ v) || negb (cols image =? width_ v)
  then resize_bgra image (width_ v) (height_ v)
  else image.

(** [memcpy(pDest, image_ptr->data, height_ * width_ * 4)] *)
Definition memcpy_pixels (n : Z) (src : Mat bgra) : list byte :=
  flat_map bytes_of (firstn (Z.to_nat n) (data src)).

Definition VideoVisual_render (v : VideoVisual) (image : Mat bgra) : VideoVisual :=
  mkVisual (height_ v) (width_ v)
           (memcpy_pixels (height_ v * width_ v) (render_source v image)).

(** [memset(pDest, 0, height_ * width_ * 4)] *)
Definition VideoVisual_clearImage (v : VideoVisual) : VideoVisual :=
  mkVisual (height_ v) (width_ v)
           (repeat x00 (Z.to_nat (height_ v * width_ v * 4))).

(** ** The frame slot *)

(** [GazeboRosVideo::updateImage] *)
Definition updateImage (image : Mat bgr) : prog unit :=
  lock m_image_ ;;
  write (fun s =>
    set_image_
      (Some (if empty image
             then zeros (height_ (video_visual_ s)) (width_ (video_visual_ s))
             else cvtColor_BGR2BGRA image)) s) ;;
  write (set_new_image_available_ true) ;;
  unlock m_image_.

(** [GazeboRosVideo::clearImage] *)
Definition clearImage : prog unit := updateImage Mat0.

(** [GazeboRosVideo::UpdateChild], the pre-render callback *)
Definition UpdateChild : prog unit :=
  lock m_image_ ;;
  s <- get ;;
  (if new_image_available_ s then
     match image_ s with
     | Some image =>
         write (set_video_visual_ (VideoVisual_render (video_visual_ s) image))
     | None => abort null_pointer
     end
   else ret tt) ;;
  write (set_new_image_available_ false) ;;
  unlock m_image_.

(** ** Command handlers *)

(** [GazeboRosVideo::processImage]; [msg] is the image
    [cv_bridge::toCvCopy(msg, "bgra8")] returns.  Both scoped locks live to
    the end of the function and are released in reverse order. *)
Definition processImage (msg : Mat bgra) : prog unit :=
  lock m_image_ ;;
  write (set_image_ (Some msg)) ;;
  write (set_new_image_available_ true) ;;
  lock m_video_ ;;
  write (set_stop_video_ true) ;;
  unlock m_video_ ;;
  unlock m_image_.

Definition is_empty (str : string) : bool :=
  match str with EmptyString => true | _ => false end.

(** [GazeboRosVideo::processImagePath] *)
Definition processImagePath (str : string) : prog unit :=
  (if is_empty str then clearImage else updateImage (imread str)) ;;
  lock m_video_ ;;
  write (set_stop_video_ true) ;;
  unlock m_video_.

(** [GazeboRosVideo::processVideoPath] *)
Definition processVideoPath (str : string) : prog unit :=
  lock m_video_ ;;
  write (set_video_path_ str) ;;
  s <- get ;;
  (if is_empty (video_path_ s) then
     write (set_stop_video_ true) ;;
     write (set_new_video_available_ false) ;;
     clearImage
   else
     write (set_stop_video_ false) ;;
     write (set_new_video_available_ true)) ;;
  unlock m_video_.

(** [GazeboRosVideo::processVideoSeek] *)
Definition processVideoSeek (value : double) : prog unit :=
  lock m_video_ ;;
  write (set_video_seek_position_ value) ;;
  unlock m_video_.

(** [GazeboRosVideo::processVideoPause] *)
Definition processVideoPause (value : bool) : prog unit :=
  lock m_video_ ;;
  s <- get ;;
  (if negb (stop_video_ s) then write (set_video_paused_ value) else ret tt) ;;
  unlock m_video_.

(** ** The playback thread *)

(** The loop [while (cap.read(new_frame))] that fills the frame buffer.
    Each turn consumes one frame of the capture, so [fuel] turns suffice
    for a capture with fewer than [fuel] frames left. *)
Fixpoint buffer_frames (fuel : nat) : prog unit :=
  match fuel with
  | O => ret tt
  | S fuel' =>
      s <- get ;;
      match read (cap s) with
      | (Some new_frame, c) =>
          write (set_cap c) ;;
          (if negb (empty new_frame) then
             write (fun s =>
               set_video_frames_
                 (video_frames_ s ++
                  [resize_bgr new_frame (width_ (video_visual_ s))
                                        (height_ (video_visual_ s))]) s)
           else ret tt) ;;
          buffer_frames fuel'
      | (None, c) => write (set_cap c)
      end
  end.

(** Lines 503-533: a newly set path is opened and, in buffering mode,
    decoded completely.  The frame rate adopted from the file only changes
    how long the loop sleeps and is left out. *)
Definition open_new_video : prog unit :=
  clearImage ;;
  s <- get ;;
  write (set_cap (cap_open (video_path_ s))) ;;
  write (set_new_video_available_ false) ;;
  s <- get ;;
  if buffer_all_frames_for_fast_seek_ s then
    write (set_video_frames_ []) ;;
    write (set_current_buffered_frame_ 0%N) ;;
    s <- get ;;
    if isOpened (cap s)
    then buffer_frames (S (List.length (stream (cap s)) - pos_frames (cap s)))
    else ret tt
  else ret tt.

(** [(video_frames_.size() - 1) * video_seek_position_] converted to the
    cursor's integer type. *)
Definition seek_index (size : nat) (fraction : double) : N :=
  to_N (mul (of_Z (Z.of_nat size - 1)) fraction).

(** Lines 540-545 *)
Definition seek_buffered : prog bool :=
  s <- get ;;
  if in_unit (video_seek_position_ s) then
    write (set_current_buffered_frame_
             (seek_index (List.length (video_frames_ s)) (video_seek_position_ s))) ;;
    write (set_video_seek_position_ minus_one) ;;
    ret true
  else ret false.

(** Lines 547-556 *)
Definition wrap_buffered : prog unit :=
  s <- get ;;
  if (N.of_nat (List.length (video_frames_ s)) <=? current_buffered_frame_ s)%N then
    write (set_current_buffered_frame_ 0%N) ;;
    if negb (loop_video_ s) then
      write (set_stop_video_ true) ;;
      clearImage ;;
      write (set_video_frames_ [])
    else ret tt
  else ret tt.

(** Lines 558-561: [updateImage(video_frames_[current_buffered_frame_++])].
    [operator[]] past the end of the vector has no defined behaviour. *)
Definition show_buffered (seek_performed : bool) : prog unit :=
  s <- get ;;
  if seek_performed || negb (video_paused_ s) then
    match nth_error (video_frames_ s) (N.to_nat (current_buffered_frame_ s)) with
    | Some frame =>
        write (set_current_buffered_frame_ (current_buffered_frame_ s + 1)%N) ;;
        updateImage frame
    | None =>
        abort (vector_out_of_range (current_buffered_frame_ s)
                                   (List.length (video_frames_ s)))
    end
  else ret tt.

(** Lines 538-562, the buffering branch *)
Definition play_buffered : prog unit :=
  seek_performed <- seek_buffered ;;
  wrap_buffered ;;
  show_buffered seek_performed.

(** Lines 565-571 *)
Definition seek_stream : prog bool :=
  s <- get ;;
  if in_unit (video_seek_position_ s) then
    write (set_cap (set_pos_frames (cap s)
                      (mul (frame_count (cap s)) (video_seek_position_ s)))) ;;
    write (set_video_seek_position_ minus_one) ;;
    ret true
  else ret false.

(** Lines 579-588: the read failed or gave an empty frame *)
Definition end_of_stream : prog unit :=
  s <- get ;;
  if loop_video_ s then write (set_cap (cap_open (video_path_ s)))
  else
    write (set_stop_video_ true) ;;
    clearImage.

(** Lines 573-589 *)
Definition show_stream (seek_performed : bool) : prog unit :=
  s <- get ;;
  if seek_performed || negb (video_paused_ s) then
    match read (cap s) with
    | (Some frame, c) =>
        write (set_cap c) ;;
        if negb (empty frame) then updateImage frame else end_of_stream
    | (None, c) =>
        write (set_cap c) ;;
        end_of_stream
    end
  else ret tt.

(** Lines 563-590, the streaming branch *)
Definition play_stream : prog unit :=
  seek_performed <- seek_stream ;;
  show_stream seek_performed.

(** One turn of the loop of [GazeboRosVideo::VideoThread], lines 498-592.
    The sleep that follows only paces the loop. *)
Definition VideoThread_iter : prog unit :=
  lock m_video_ ;;
  s <- get ;;
  (if negb (stop_video_ s) then
     (if new_video_available_ s && negb (is_empty (video_path_ s))
      then open_new_video else ret tt) ;;
     s <- get ;;
     if buffer_all_frames_for_fast_seek_ s
        && negb (match video_frames_ s with [] => true | _ => false end)
     then play_buffered
     else if isOpened (cap s) then play_stream
     else ret tt
   else ret tt) ;;
  unlock m_video_.

(** ** Event sequences *)
Inductive Event : Type :=
| EvImage (msg : Mat bgra)
| EvImagePath (str : string)
| EvVideoPath (str : string)
| EvSeek (value : double)
| EvPause (value : bool)
| EvTick
| EvRender.

Definition handle (e : Event) : prog unit :=
  match e with
  | EvImage msg => processImage msg
  | EvImagePath str => processImagePath str
  | EvVideoPath str => processVideoPath str
  | EvSeek value => processVideoSeek value
  | EvPause value => processVideoPause value
  | EvTick => VideoThread_iter
  | EvRender => UpdateChild
  end.

(** The handlers run one after the other, each to completion. *)
Fixpoint run (evs : list Event) (s : GazeboRosVideo) : outcome unit :=
  match evs with
  | [] => Done tt s
  | e :: evs' =>
      match exec (handle e) s with
      | Done _ s' => run evs' s'
      | Faulted f => Faulted f
      end
  end.

(** ** Loading

    The members the plugin reads from its SDF element.  Topic names, the
    frame rate and the mesh options do not reach the playback state. *)
Record Sdf : Type := mkSdf
  { sdf_bufferAllFramesForFastSeek : option bool;
    sdf_videoPaused : option bool;
    sdf_defaultVideoPath : option string;
    sdf_defaultImagePath : option string;
    sdf_height : option Z;
    sdf_width : option Z;
    sdf_loopVideo : option bool }.

Definition or_default {A} (o : option A) (d : A) : A :=
  match o with Some a => a | None => d end.

(** A default path is used when the element is present, not empty, and
    [FindFileURI] resolves it to a non-empty file name. *)
Definition resolve (element : option string) : option string :=
  match element with
  | Some path =>
      if is_empty path then None
      else if is_empty (FindFileURI path) then None
      else Some (FindFileURI path)
  | None => None
  end.

(** The object the constructor leaves: strings, vectors and pointers are
    default-initialised; [new_video_available_] is never assigned before it
    is read and keeps whatever value it has.  The other scalar members are
    assigned by [Load] before any use. *)
Definition constructed (indeterminate : bool) : GazeboRosVideo :=
  mkPlugin (mkVisual 0 0 []) None false EmptyString false indeterminate
           false false false zero [] 0%N closed.

(** [GazeboRosVideo::Load], lines 193-311.  The default paths are processed
    before [video_visual_] is created, so [updateImage] on an image that
    failed to load dereferences a null pointer there. *)
Definition Load (sdf : Sdf) : prog unit :=
  write (set_new_image_available_ false) ;;
  write (set_video_seek_position_ minus_one) ;;
  write (set_buffer_all_frames_for_fast_seek_ false) ;;
  write (set_current_buffered_frame_ 0%N) ;;
  write (fun s => set_buffer_all_frames_for_fast_seek_
           (or_default (sdf_bufferAllFramesForFastSeek sdf)
                       (buffer_all_frames_for_fast_seek_ s)) s) ;;
  write (set_stop_video_ false) ;;
  write (set_video_paused_ false) ;;
  write (fun s => set_video_paused_
           (or_default (sdf_videoPaused sdf) (video_paused_ s)) s) ;;
  match resolve (sdf_defaultVideoPath sdf) with
  | Some path => processVideoPath path
  | None => ret tt
  end ;;
  match resolve (sdf_defaultImagePath sdf) with
  | Some path =>
      if empty (imread path) then abort null_pointer
      else processImagePath path
  | None => ret tt
  end ;;
  write (set_loop_video_ (or_default (sdf_loopVideo sdf) true)) ;;
  write (set_video_visual_
           (VideoVisual_clearImage
              (mkVisual (or_default (sdf_height sdf) 240)
                        (or_default (sdf_width sdf) 320) []))).

(** ** Lock discipline *)
Inductive lock_event : Type := Acq (m : mutex) | Rel (m : mutex).

Definition mutex_eqb (a b : mutex) : bool :=
  match a, b with
  | m_image_, m_image_ | m_video_, m_video_ => true
  | _, _ => false
  end.

(** The mutex operations a program performs when run alone from [s]. *)
Fixpoint lock_events {A} (p : prog A) (s : GazeboRosVideo) : list lock_event :=
  match p with
  | Ret _ => []
  | Lock m k => Acq m :: lock_events k s
  | Unlock m k => Rel m :: lock_events k s
  | Read k => lock_events (k s) s
  | Write f k => lock_events k (f s)
  | Abort _ => []
  end.

(** Does the trace request [inner] at a moment when [outer] is held? *)
Fixpoint acquires_under (outer inner : mutex) (held : bool)
         (tr : list lock_event) : bool :=
  match tr with
  | [] => false
  | Acq m :: tr' =>
      (held && mutex_eqb m inner)
      || acquires_under outer inner (held || mutex_eqb m outer) tr'
  | Rel m :: tr' =>
      acquires_under outer inner (held && negb (mutex_eqb m outer)) tr'
  end.

(** Are the two mutexes ever held together? *)
Definition holds_both (tr : list lock_event) : bool :=
  acquires_under m_image_ m_video_ false tr
  || acquires_under m_video_ m_image_ false tr.

(** ** Threads

    Several programs over one plugin object; a mutex has at most one
    owner, and a thread requesting an owned mutex cannot move. *)
Record Config : Type := mkConfig
  { shared : GazeboRosVideo;
    owner : mutex -> option nat;
    threads : list (prog unit) }.

Fixpoint set_nth {A} (i : nat) (a : A) (l : list A) : list A :=
  match l, i with
  | [], _ => []
  | _ :: l', O => a :: l'
  | x :: l', S i' => x :: set_nth i' a l'
  end.

Definition set_owner (m : mutex) (o : option nat) (f : mutex -> option nat)
  : mutex -> option nat :=
  fun m' => if mutex_eqb m m' then o else f m'.

(** One step of thread [i], if it can take one. *)
Definition thread_step (i : nat) (c : Config) : option Config :=
  match nth_error (threads c) i with
  | Some (Lock m k) =>
      match owner c m with
      | None => Some (mkConfig (shared c) (set_owner m (Some i) (owner c))
                               (set_nth i k (threads c)))
      | Some _ => None
      end
  | Some (Unlock m k) =>
      Some (mkConfig (shared c) (set_owner m None (owner c))
                     (set_nth i k (threads c)))
  | Some (Read k) =>
      Some (mkConfig (shared c) (owner c) (set_nth i (k (shared c)) (threads c)))
  | Some (Write f k) =>
      Some (mkConfig (f (shared c)) (owner c) (set_nth i k (threads c)))
  | Some (Ret _) | Some (Abort _) | None => None
  end.

Fixpoint schedule (order : list nat) (c : Config) : option Config :=
  match order with
  | [] => Some c
  | i :: order' =>
      match thread_step i c with
      | Some c' => schedule order' c'
      | None => None
      end
  end.

Definition finished (p : prog unit) : bool :=
  match p with Ret _ => true | _ => false end.

(** No thread can move although some thread has not returned. *)
Definition deadlocked (c : Config) : bool :=
  forallb (fun i => match thread_step i c with None => true | Some _ => false end)
          (seq 0 (List.length (threads c)))
  && negb (forallb finished (threads c)).

Definition unowned : mutex -> option nat := fun _ => None.

(** The cursor the playback description asks for: [round((length - 1) x
    fraction)].  It is compared with [seek_index] below. *)
Definition seek_index_rounded (size : nat) (fraction : double) : N :=
  Z.to_N (round_half_up (mul (of_Z (Z.of_nat size - 1)) fraction)).

(** Events that cannot restart a stopped video: everything but a non-empty
    video path. *)
Definition keeps_stopped (e : Event) : bool :=
  match e with
  | EvVideoPath str => is_empty str
  | _ => true
  end.

(** Events of the playback side that never write the frame slot from
    outside: ticks, seeks and pauses. *)
Definition playback_only (e : Event) : bool :=
  match e with
  | EvTick | EvSeek _ | EvPause _ => true
  | _ => false
  end.

(** The capture as the streaming branch reads it this turn: repositioned
    when a seek in [0,1] is pending. *)
Definition stream_position (s : GazeboRosVideo) : VideoCapture :=
  if in_unit (video_seek_position_ s)
  then set_pos_frames (cap s)
         (mul (frame_count (cap s)) (video_seek_position_ s))
  else cap s.

(** The guard [seek_performed || !video_paused_]. *)
Definition reads_this_turn (s : GazeboRosVideo) : bool :=
  in_unit (video_seek_position_ s) || negb (video_paused_ s).

(** [cap.read(frame) && !frame.empty()] fails. *)
Definition at_end_of_stream (c : VideoCapture) : bool :=
  match fst (read c) with
  | Some frame => empty frame
  | None => true
  end.

(** The turn takes the streaming branch. *)
Definition streaming (s : GazeboRosVideo) : bool :=
  negb (buffer_all_frames_for_fast_seek_ s
        && negb (match video_frames_ s with [] => true | _ => false end))
  && isOpened (cap s).

(** The turn takes the buffering branch. *)
Definition buffering (s : GazeboRosVideo) : bool :=
  buffer_all_frames_for_fast_seek_ s
  && negb (match video_frames_ s with [] => true | _ => false end).

(** Frames the buffer receives from the frames still to be read. *)
Definition buffered (v : VideoVisual) (pending : list (Mat bgr)) : list (Mat bgr) :=
  map (fun f => resize_bgr f (width_ v) (height_ v))
      (filter (fun f => negb (empty f)) pending).

(** Every buffered frame has the size of the texture. *)
Definition buffer_normalized (s : GazeboRosVideo) : Prop :=
  Forall (fun f => rows f = height_ (video_visual_ s)
                   /\ cols f = width_ (video_visual_ s))
         (video_frames_ s).

(** The state [open_new_video] leaves: slot cleared, capture opened on the
    current path and, in buffering mode, read to its end into the buffer. *)
Definition opened (s : GazeboRosVideo) : GazeboRosVideo :=
  let s1 :=
    set_new_video_available_ false
      (set_cap (cap_open (video_path_ s))
         (set_new_image_available_ true
            (set_image_ (Some (zeros (height_ (video_visual_ s))
                                     (width_ (video_visual_ s)))) s))) in
  if buffer_all_frames_for_fast_seek_ s then
    let s2 := set_current_buffered_frame_ 0%N (set_video_frames_ [] s1) in
    if isOpened (cap_open (video_path_ s)) then
      set_video_frames_
        (buffered (video_visual_ s) (stream (cap_open (video_path_ s))))
        (set_cap (mkCap true (stream (cap_open (video_path_ s)))
                        (List.length (stream (cap_open (video_path_ s))))) s2)
    else s2
  else s1.

(** The slot holds an image of the texture's size. *)
Definition has_texture_size (v : VideoVisual) (o : option (Mat bgra)) : Prop :=
  exists im, o = Some im /\ rows im = height_ v /\ cols im = width_ v.

(** The frame slot can be rendered: a frame marked new is there. *)
Definition slot_ok (s : GazeboRosVideo) : Prop :=
  new_image_available_ s = true -> image_ s <> None.

(** What a handler does to the slot: nothing, or it puts an image there. *)
Definition slot_step (s s' : GazeboRosVideo) : Prop :=
  (image_ s' = image_ s /\ new_image_available_ s' = new_image_available_ s)
  \/ exists im, image_ s' = Some im.

(** A matrix owns one pixel per element. *)
Definition well_formed {px} (m : Mat px) : Prop :=
  List.length (data m) = Z.to_nat (rows m * cols m).

(** Decoders and [cv::resize] return matrices that own their pixels. *)
Definition world_ok : Prop :=
  (forall path frames, video_file path = Some frames -> Forall well_formed frames)
  /\ (forall path, well_formed (imread path))
  /\ (forall src w h, List.length (interpolate_bgr src w h) = Z.to_nat (h * w))
  /\ (forall src w h, List.length (interpolate_bgra src w h) = Z.to_nat (h * w)).

(** Every matrix the plugin holds owns its pixels, and the texture has
    four bytes per texel. *)
Definition pixels_ok (s : GazeboRosVideo) : Prop :=
  (forall im, image_ s = Some im -> well_formed im)
  /\ Forall well_formed (video_frames_ s)
  /\ Forall well_formed (stream (cap s))
  /\ List.length (texture (video_visual_ s))
     = (4 * Z.to_nat (height_ (video_visual_ s) * width_ (video_visual_ s)))%nat.

(** Inbound images own their pixels. *)
Definition event_ok (e : Event) : Prop :=
  match e with
  | EvImage msg => well_formed msg
  | _ => True
  end.

(** The state of a plugin that is playing with nothing pending. *)
Definition playing (s : GazeboRosVideo) : Prop :=
  stop_video_ s = false /\ new_video_available_ s = false
  /\ in_unit (video_seek_position_ s) = false.

(** The plugin after the scalar members are read from the SDF element, and
    after the visual is created at the end of [Load]. *)
Definition load_scalars (sdf : Sdf) (s : GazeboRosVideo) : GazeboRosVideo :=
  set_video_paused_ (or_default (sdf_videoPaused sdf) false)
    (set_stop_video_ false
       (set_buffer_all_frames_for_fast_seek_
          (or_default (sdf_bufferAllFramesForFastSeek sdf) false)
          (set_current_buffered_frame_ 0%N
             (set_video_seek_position_ minus_one
                (set_new_image_available_ false s))))).

Definition load_visual (sdf : Sdf) (s : GazeboRosVideo) : GazeboRosVideo :=
  set_video_visual_
    (VideoVisual_clearImage
       (mkVisual (or_default (sdf_height sdf) 240)
                 (or_default (sdf_width sdf) 320) []))
    (set_loop_video_ (or_default (sdf_loopVideo sdf) true) s).

(** The next turn opens the path: [new_video_available_ && !video_path_.empty()]. *)
Definition opens (s : GazeboRosVideo) : bool :=
  new_video_available_ s && negb (is_empty (video_path_ s)).

(** In buffering mode an empty buffer means that the capture has no frame
    to show: every frame of its stream is empty. *)
Definition stream_blank (s : GazeboRosVideo) : Prop :=
  buffer_all_frames_for_fast_seek_ s = true -> video_frames_ s = [] ->
  forall f, In f (stream (cap s)) -> empty f = true.

(** An open capture reads the file of the current path. *)
Definition cap_on_path (s : GazeboRosVideo) : Prop :=
  isOpened (cap s) = true ->
  stream (cap_open (video_path_ s)) = stream (cap s).

(** What holds of the plugin between two handlers: buffered frames have the
    texture's size and, while the video runs with no path waiting to be
    opened, the capture is the one of the current path and is blank when
    buffering produced nothing. *)
Definition steady (s : GazeboRosVideo) : Prop :=
  buffer_normalized s
  /\ (stop_video_ s = false -> opens s = false ->
      stream_blank s /\ cap_on_path s).

(** The program never requests the video mutex while it holds the image
    mutex.  [held] tells whether it holds the image mutex when it starts,
    [after] whether it does when it returns. *)
Fixpoint ordered {A} (held after : bool) (p : prog A) : Prop :=
  match p with
  | Ret _ => held = after
  | Abort _ => True
  | Lock m_image_ k => ordered true after k
  | Lock m_video_ k => held = false /\ ordered held after k
  | Unlock m_image_ k => ordered false after k
  | Unlock m_video_ k => ordered held after k
  | Read k => forall s, ordered held after (k s)
  | Write _ k => ordered held after k
  end.

Definition map_outcome {A} (f : GazeboRosVideo -> GazeboRosVideo)
           (o : outcome A) : outcome A :=
  match o with
  | Done a s => Done a (f s)
  | Faulted e => Faulted e
  end.

End Plugin.

(** ** A small world for concrete runs *)
Module Sample.
Definition gray (b : byte) : bgr := (b, b, b).

Definition frame (r c : Z) (b : byte) : Mat bgr :=
  mkMat r c (repeat (gray b) (Z.to_nat (r * c))).

Definition clip : list (Mat bgr) :=
  [frame 2 2 x01; frame 2 2 x02; frame 2 2 x03].

(** "clip.avi" holds three 2x2 frames, "tiny.avi" one 1x1 frame; nothing
    else exists.  Resizing repeats the first pixel of the source. *)
Definition world : World :=
  {| video_file := fun path =>
       if (path =? "clip.avi")%string then Some clip
       else if (path =? "tiny.avi")%string then Some [frame 1 1 x07]
       else None;
     imread := fun _ => Mat0;
     FindFileURI := fun path => path;
     interpolate_bgr := fun src w h =>
       repeat (hd (gray x00) (data src)) (Z.to_nat (w * h));
     interpolate_bgra := fun src w h =>
       repeat (hd (x00, x00, x00, x00) (data src)) (Z.to_nat (w * h)) |}.

(** The same files, and an image "logo.png" of 2x2 pixels. *)
Definition gallery : World :=
  {| video_file := video_file (World := world);
     imread := fun path =>
       if (path =? "logo.png")%string then frame 2 2 x05 else Mat0;
     FindFileURI := fun path => path;
     interpolate_bgr := interpolate_bgr (World := world);
     interpolate_bgra := interpolate_bgra (World := world) |}.

(** The same element with default paths for the video and the image. *)
Definition sdf_defaults (video image : option string) : Sdf :=
  mkSdf (Some false) (Some false) video image (Some 2) (Some 2) (Some false).

(** height = 2, width = 2, loopVideo = false *)
Definition sdf (buffer paused : bool) : Sdf :=
  mkSdf (Some buffer) (Some paused) None None (Some 2) (Some 2) (Some false).

(** The plugin after [Load], as a plain record. *)
Definition loaded (buffer paused loop : bool) : GazeboRosVideo :=
  mkPlugin (mkVisual 2 2 (repeat x00 16)) None false EmptyString false false
           paused loop buffer minus_one [] 0%N closed.

Definition visual : VideoVisual := mkVisual 2 2 (repeat x00 16).

(** A plugin in buffering mode that has "clip.avi" open and read to its
    end, with the given buffer, cursor and pending seek. *)
Definition buffered_state (frames : list (Mat bgr)) (cursor : N)
           (seek : double) (paused loop : bool) : GazeboRosVideo :=
  mkPlugin visual (Some (zeros 2 2)) false "clip.avi" false false paused loop
           true seek frames cursor (mkCap true clip 3).

(** A plugin in streaming mode on the given capture. *)
Definition streaming_state (path : string) (c : VideoCapture)
           (seek : double) (paused loop : bool) : GazeboRosVideo :=
  mkPlugin visual (Some (zeros 2 2)) false path false false paused loop
           false seek [] 0%N c.

Definition half : double := dyadic 1 (-1).
Definition three_quarters : double := dyadic 3 (-2).
Definition two : double := of_Z 2.
End Sample.

(** * Facts about binary64 arithmetic

    The seek products are rounded; what the playback code relies on is that
    multiplying by a fraction of [0,1] never moves past the other factor. *)
Section DoubleFacts.

Lemma digits2_bounds (p : positive) :
  2 ^ (Z.pos (digits2_pos p) - 1) <= Z.pos p < 2 ^ Z.pos (digits2_pos p).
Proof.
  induction p as [p IH | p IH | ]; cbn [digits2_pos].
  - rewrite Pos2Z.inj_succ.
    replace (Z.succ (Z.pos (digits2_pos p)) - 1) with (Z.succ (Z.pos (digits2_pos p) - 1)) by lia.
    rewrite !Z.pow_succ_r by lia. lia.
  - rewrite Pos2Z.inj_succ.
    replace (Z.succ (Z.pos (digits2_pos p)) - 1) with (Z.succ (Z.pos (digits2_pos p) - 1)) by lia.
    rewrite !Z.pow_succ_r by lia. lia.
  - cbn. lia.
Qed.

Lemma digits2_le_scaled (a b : positive) (j : Z) :
  0 <= j -> Z.pos a <= Z.pos b * 2 ^ j ->
  Z.pos (digits2_pos a) <= Z.pos (digits2_pos b) + j.
Proof.
  intros Hj Hab.
  destruct (digits2_bounds a) as [La _], (digits2_bounds b) as [_ Ub].
  assert (H : 2 ^ (Z.pos (digits2_pos a) - 1) < 2 ^ (Z.pos (digits2_pos b) + j)).
  { rewrite Z.pow_add_r by lia.
    assert (0 < 2 ^ j) by (apply Z.pow_pos_nonneg; lia). nia. }
  apply Z.pow_lt_mono_r_iff in H; lia.
Qed.

Definition shr_inv (M t : Z) (r : shr_record) : Prop :=
  shr_m r = M / 2 ^ t /\ (shr_r r || shr_s r = true -> M mod 2 ^ t <> 0).

Lemma shr_1_inv M t r :
  0 <= M -> 0 <= t -> shr_inv M t r -> shr_inv M (t + 1) (shr_1 r).
Proof.
  intros HM Ht [Hm Hf].
  assert (Hp : 0 < 2 ^ t) by (apply Z.pow_pos_nonneg; lia).
  assert (Hq : 0 <= M / 2 ^ t) by (apply Z.div_pos; lia).
  assert (Hdiv : M / 2 ^ (t + 1) = (M / 2 ^ t) / 2).
  { rewrite Z.pow_add_r, Z.pow_1_r by lia. rewrite Z.div_div by lia. reflexivity. }
  assert (Hmod : forall c, M mod 2 ^ t <> 0 \/ M / 2 ^ t = 2 * c + 1 -> M mod 2 ^ (t + 1) <> 0).
  { intros c Hc Hz. rewrite Z.pow_add_r, Z.pow_1_r in Hz by lia.
    apply Z.mod_divide in Hz; [|lia]. destruct Hz as [d Hd].
    destruct Hc as [Hc | Hc].
    - apply Hc. apply Z.mod_divide; [lia|]. exists (d * 2). lia.
    - assert (M / 2 ^ t = 2 * d).
      { rewrite Hd. replace (d * (2 ^ t * 2)) with ((2 * d) * 2 ^ t) by lia.
        apply Z.div_mul. lia. }
      lia. }
  destruct r as [m r s]; cbn [shr_m shr_r shr_s] in *.
  unfold shr_inv. rewrite Hdiv, <- Hm.
  destruct m as [| [p | p |] | p]; cbn [shr_1 shr_m shr_r shr_s]; try lia.
  - split; [reflexivity|]. intros Hrs. apply (Hmod 0). destruct (r || s); [left; auto | discriminate].
  - split; [rewrite Pos2Z.inj_xI; apply Z.div_unique with 1; lia|].
    intros _. apply (Hmod (Z.pos p)). right. lia.
  - split; [rewrite Pos2Z.inj_xO; apply Z.div_unique with 0; lia|].
    intros Hrs. apply (Hmod 0). left. apply Hf. exact Hrs.
  - split; [reflexivity|]. intros _. apply (Hmod 0). right. lia.
Qed.

Lemma iter_shr_1_inv M (n : positive) : forall t r,
  0 <= M -> 0 <= t -> shr_inv M t r ->
  shr_inv M (t + Z.pos n) (iter_pos shr_1 n r).
Proof.
  induction n as [n IH | n IH |]; intros t r HM Ht Hr; cbn [iter_pos].
  - replace (t + Z.pos n~1) with ((t + 1 + Z.pos n) + Z.pos n) by lia.
    apply IH; try lia. apply IH; try lia. apply shr_1_inv; assumption.
  - replace (t + Z.pos n~0) with ((t + Z.pos n) + Z.pos n) by lia.
    apply IH; try lia. apply IH; try lia. assumption.
  - apply shr_1_inv; assumption.
Qed.
Lemma shr_fexp_exact_spec (M e : Z) :
  0 <= M ->
  exists r, shr_fexp prec emax M e loc_Exact
            = (r, e + Z.max 0 (fexp prec emax (Zdigits2 M + e) - e))
            /\ shr_inv M (Z.max 0 (fexp prec emax (Zdigits2 M + e) - e)) r.
Proof.
  intros HM. unfold shr_fexp, shr, shr_record_of_loc.
  destruct (fexp prec emax (Zdigits2 M + e) - e) as [| p | p] eqn:E.
  - eexists; split; [rewrite Z.add_0_r; reflexivity|].
    split; cbn; [rewrite Z.div_1_r; reflexivity | discriminate].
  - eexists; split; [reflexivity|].
    replace (Z.max 0 (Z.pos p)) with (0 + Z.pos p) by lia.
    apply iter_shr_1_inv; try lia.
    split; cbn; [rewrite Z.div_1_r; reflexivity | discriminate].
  - eexists; split; [replace (Z.max 0 (Z.neg p)) with 0 by lia; rewrite Z.add_0_r; reflexivity|].
    replace (Z.max 0 (Z.neg p)) with 0 by lia.
    split; cbn; [rewrite Z.div_1_r; reflexivity | discriminate].
Qed.

Lemma round_nearest_even_cases (r : shr_record) :
  round_nearest_even (shr_m r) (loc_of_shr_record r) = shr_m r
  \/ (round_nearest_even (shr_m r) (loc_of_shr_record r) = shr_m r + 1
      /\ shr_r r || shr_s r = true).
Proof.
  destruct r as [m [|] [|]]; cbn; auto.
  destruct (Z.even m); auto.
Qed.

Lemma fexp_mono (a b : Z) : a <= b -> fexp prec emax a <= fexp prec emax b.
Proof. unfold fexp. lia. Qed.

Lemma valid_finite_inv (s : bool) (m : positive) (e : Z) :
  valid (S754_finite s m e) = true ->
  fexp prec emax (Z.pos (digits2_pos m) + e) = e /\ e <= emax - prec.
Proof.
  unfold valid, valid_binary, bounded, canonical_mantissa.
  rewrite andb_true_iff, Z.eqb_eq, Z.leb_le. tauto.
Qed.

Lemma leb_finite_inv (m c : positive) (e k : Z) :
  leb (S754_finite false m e) (S754_finite false c k) = true ->
  e < k \/ (e = k /\ Z.pos m <= Z.pos c).
Proof.
  unfold leb, SFleb, SFcompare. intros Hle.
  destruct (Z.compare_spec e k) as [He | He | He]; try discriminate; [right | left; exact He].
  split; [exact He|].
  change (Pos.compare_cont Eq m c) with (Pos.compare m c) in Hle.
  destruct (Pos.compare_spec m c) as [C | C | C]; try discriminate; lia.
Qed.

Lemma pow2_52 : 2 ^ 52 = 4503599627370496.
Proof. vm_compute. reflexivity. Qed.

Lemma leb_one_inv (m : positive) (e : Z) :
  valid (S754_finite false m e) = true ->
  leb (S754_finite false m e) one = true ->
  e < 0 /\ Z.pos m <= 2 ^ (- e).
Proof.
  intros Hv Hle. apply valid_finite_inv in Hv. destruct Hv as [Hc _].
  apply leb_finite_inv in Hle.
  destruct (digits2_bounds m) as [_ Ub].
  destruct Hle as [He | [He Hm]].
  - split; [lia|].
    unfold fexp, prec, emax, emin in Hc.
    assert (Hd : Z.pos (digits2_pos m) <= 53) by lia.
    assert (2 ^ Z.pos (digits2_pos m) <= 2 ^ (- e)) by (apply Z.pow_le_mono_r; lia).
    lia.
  - split; [lia|].
    replace (- e) with 52 by lia.
    rewrite pow2_52. exact Hm.
Qed.
Lemma div_lt_of_inexact (P B k : Z) :
  0 <= k -> 0 <= P -> P <= B * 2 ^ k -> P mod 2 ^ k <> 0 -> P / 2 ^ k + 1 <= B.
Proof.
  intros Hk HP HB Hne.
  assert (Hp : 0 < 2 ^ k) by (apply Z.pow_pos_nonneg; lia).
  pose proof (Z.div_mod P (2 ^ k) ltac:(lia)) as E.
  pose proof (Z.mod_pos_bound P (2 ^ k) Hp) as Hm.
  nia.
Qed.

Lemma div_le_of_le (P B k : Z) :
  0 <= k -> P <= B * 2 ^ k -> P / 2 ^ k <= B.
Proof.
  intros Hk HB.
  assert (Hp : 0 < 2 ^ k) by (apply Z.pow_pos_nonneg; lia).
  apply Z.div_le_upper_bound; lia.
Qed.

Lemma mul_unit_bound (mx mf : positive) (ex ef : Z) :
  valid (S754_finite false mx ex) = true ->
  valid (S754_finite false mf ef) = true ->
  leb (S754_finite false mf ef) one = true ->
  mul (S754_finite false mx ex) (S754_finite false mf ef) = S754_zero false
  \/ exists m e,
       mul (S754_finite false mx ex) (S754_finite false mf ef) = S754_finite false m e
       /\ e <= ex /\ Z.pos m <= Z.pos mx * 2 ^ (ex - e).
Proof.
  intros Hx Hf Hle.
  destruct (leb_one_inv _ _ Hf Hle) as [Hef Hmf].
  apply valid_finite_inv in Hx. destruct Hx as [Hcx Hbx].
  unfold mul, SFmul, binary_round_aux. cbn [xorb].
  set (P := Z.pos (mx * mf)). set (e := ex + ef).
  assert (HP : 0 <= P) by (unfold P; lia).
  assert (HPle : P <= Z.pos mx * 2 ^ (- ef)).
  { unfold P. rewrite Pos2Z.inj_mul. nia. }
  assert (HdP : Zdigits2 P + e <= Z.pos (digits2_pos mx) + ex).
  { unfold P, Zdigits2, e. pose proof (digits2_le_scaled (mx * mf) mx (- ef) ltac:(lia) HPle). lia. }
  destruct (shr_fexp_exact_spec P e HP) as [r1 [E1 [Hm1 Hf1]]].
  rewrite E1.
  set (k1 := Z.max 0 (fexp prec emax (Zdigits2 P + e) - e)) in *.
  assert (He1 : e + k1 <= ex).
  { pose proof (fexp_mono _ _ HdP). unfold k1, e in *. lia. }
  set (B := Z.pos mx * 2 ^ (ex - (e + k1))).
  assert (HPB : P <= B * 2 ^ k1).
  { unfold B. rewrite <- Z.mul_assoc, <- Z.pow_add_r by (unfold k1; lia).
    replace (ex - (e + k1) + k1) with (- ef) by (unfold e; lia). exact HPle. }
  set (q' := round_nearest_even (shr_m r1) (loc_of_shr_record r1)).
  assert (Hq' : 0 <= q' <= B).
  { assert (0 <= P / 2 ^ k1) by (apply Z.div_pos; [lia | apply Z.pow_pos_nonneg; unfold k1; lia]).
    unfold q'. destruct (round_nearest_even_cases r1) as [Eq | [Eq Hfl]]; rewrite Eq, Hm1.
    - split; [lia|]. apply div_le_of_le; [unfold k1; lia | exact HPB].
    - split; [lia|]. apply div_lt_of_inexact; [unfold k1; lia | lia | exact HPB | auto]. }
  destruct (shr_fexp_exact_spec q' (e + k1) (proj1 Hq')) as [r2 [E2 [Hm2 _]]].
  rewrite E2.
  set (k2 := Z.max 0 (fexp prec emax (Zdigits2 q' + (e + k1)) - (e + k1))) in *.
  assert (Hdq : Zdigits2 q' + (e + k1) <= Z.pos (digits2_pos mx) + ex).
  { destruct q' as [| pq | pq] eqn:Eq'; cbn [Zdigits2]; [| | lia].
    - pose proof (digits2_bounds mx). lia.
    - pose proof (digits2_le_scaled pq mx (ex - (e + k1)) ltac:(lia) (proj2 Hq')). lia. }
  assert (He2 : e + k1 + k2 <= ex).
  { pose proof (fexp_mono _ _ Hdq). unfold k2. lia. }
  assert (Hk2 : 0 <= k2) by (unfold k2; lia).
  assert (Hm2' : shr_m r2 <= Z.pos mx * 2 ^ (ex - (e + k1 + k2))).
  { rewrite Hm2. apply div_le_of_le; [exact Hk2|].
    rewrite <- Z.mul_assoc, <- Z.pow_add_r by lia.
    replace (ex - (e + k1 + k2) + k2) with (ex - (e + k1)) by lia. apply Hq'. }
  assert (0 <= shr_m r2).
  { rewrite Hm2. apply Z.div_pos; [lia | apply Z.pow_pos_nonneg; lia]. }
  destruct (shr_m r2) as [| m2 | m2]; [left; reflexivity | right | lia].
  assert (Hov : (e + k1 + k2 <=? emax - prec) = true) by (apply Z.leb_le; lia).
  rewrite Hov. exists m2, (e + k1 + k2). auto.
Qed.

Lemma shiftl_le_scaled (m mx : positive) (e ex : Z) :
  e <= ex -> Z.pos m <= Z.pos mx * 2 ^ (ex - e) ->
  Z.shiftl (Z.pos m) e <= Z.shiftl (Z.pos mx) ex.
Proof.
  intros He Hm.
  destruct (Z.le_gt_cases 0 e) as [H0e | H0e].
  - rewrite !Z.shiftl_mul_pow2 by lia.
    assert (E : 2 ^ ex = 2 ^ (ex - e) * 2 ^ e)
      by (rewrite <- Z.pow_add_r by lia; f_equal; lia).
    rewrite E.
    assert (0 < 2 ^ e) by (apply Z.pow_pos_nonneg; lia). nia.
  - rewrite (Z.shiftl_div_pow2 (Z.pos m)) by lia.
    assert (Hp : 0 < 2 ^ (- e)) by (apply Z.pow_pos_nonneg; lia).
    destruct (Z.le_gt_cases 0 ex) as [H0x | H0x].
    + rewrite Z.shiftl_mul_pow2 by lia.
      apply Z.div_le_upper_bound; [lia|].
      replace (ex - e) with (ex + - e) in Hm by lia.
      rewrite Z.pow_add_r in Hm by lia. lia.
    + rewrite Z.shiftl_div_pow2 by lia.
      assert (Hq : 0 < 2 ^ (- ex)) by (apply Z.pow_pos_nonneg; lia).
      replace (- e) with ((ex - e) + - ex) by lia.
      rewrite Z.pow_add_r by lia.
      rewrite <- Z.div_div by (try apply Z.pow_pos_nonneg; lia).
      apply Z.div_le_mono; [lia|].
      apply div_le_of_le; [lia | exact Hm].
Qed.
Lemma shr_fexp_canonical (m : positive) (e : Z) :
  fexp prec emax (Z.pos (digits2_pos m) + e) = e ->
  exists r, shr_fexp prec emax (Z.pos m) e loc_Exact = (r, e)
            /\ round_nearest_even (shr_m r) (loc_of_shr_record r) = Z.pos m.
Proof.
  intros Hc.
  destruct (shr_fexp_exact_spec (Z.pos m) e ltac:(lia)) as [r [E [Hm Hf]]].
  cbn [Zdigits2] in E, Hm, Hf. rewrite Hc, Z.sub_diag in E, Hm, Hf.
  cbn in E, Hm, Hf. rewrite Z.add_0_r in E. rewrite Z.div_1_r in Hm.
  exists r. split; [exact E|].
  destruct (round_nearest_even_cases r) as [Eq | [_ Hfl]].
  - rewrite Eq. exact Hm.
  - exfalso. apply Hf; [exact Hfl | apply Z.mod_1_r].
Qed.

Lemma binary_round_aux_canonical (s : bool) (m : positive) (e : Z) :
  fexp prec emax (Z.pos (digits2_pos m) + e) = e -> e <= emax - prec ->
  binary_round_aux prec emax s (Z.pos m) e loc_Exact = S754_finite s m e.
Proof.
  intros Hc Hb. unfold binary_round_aux.
  destruct (shr_fexp_canonical m e Hc) as [r1 [E1 R1]]. rewrite E1, R1.
  destruct (shr_fexp_canonical m e Hc) as [r2 [E2 R2]]. rewrite E2.
  assert (Hm : shr_m r2 = Z.pos m).
  { destruct (shr_fexp_exact_spec (Z.pos m) e ltac:(lia)) as [r [E [Hm _]]].
    cbn [Zdigits2] in E, Hm. rewrite Hc, Z.sub_diag in E, Hm. cbn in E, Hm.
    rewrite Z.add_0_r in E. rewrite Z.div_1_r in Hm. congruence. }
  rewrite Hm. apply Z.leb_le in Hb. rewrite Hb. reflexivity.
Qed.

Lemma iter_xO_spec (p s : positive) :
  Z.pos (Pos.iter xO p s) = Z.pos p * 2 ^ Z.pos s
  /\ Z.pos (digits2_pos (Pos.iter xO p s)) = Z.pos (digits2_pos p) + Z.pos s.
Proof.
  induction s as [| s [IH1 IH2]] using Pos.peano_ind.
  - cbn [Pos.iter digits2_pos]. rewrite Pos2Z.inj_succ, Z.pow_1_r. lia.
  - rewrite Pos.iter_succ. cbn [digits2_pos].
    rewrite !Pos2Z.inj_succ, Pos2Z.inj_xO, IH1, IH2, Z.pow_succ_r by lia. lia.
Qed.

Lemma of_Z_exact (n : Z) :
  0 < n < 2 ^ prec ->
  exists m e, of_Z n = S754_finite false m e
              /\ valid (S754_finite false m e) = true
              /\ Z.shiftl (Z.pos m) e = n.
Proof.
  intros [Hn0 Hn].
  destruct n as [| p | p]; try lia.
  pose proof (digits2_bounds p) as [Lb Ub].
  assert (Hd : Z.pos (digits2_pos p) <= prec).
  { assert (H : 2 ^ (Z.pos (digits2_pos p) - 1) < 2 ^ prec) by lia.
    apply Z.pow_lt_mono_r_iff in H; unfold prec in *; lia. }
  unfold of_Z, binary_normalize, binary_round, shl_align.
  assert (Hfe : fexp prec emax (Z.pos (digits2_pos p) + 0) = Z.pos (digits2_pos p) - prec).
  { unfold fexp, emin, prec, emax in *. lia. }
  rewrite Hfe.
  destruct (Z.pos (digits2_pos p) - prec - 0) as [| s | s] eqn:Es; try lia.
  - assert (Hc : fexp prec emax (Z.pos (digits2_pos p) + 0) = 0) by lia.
    rewrite binary_round_aux_canonical; [| exact Hc | unfold emax, prec; lia].
    exists p, 0. split; [reflexivity|]. split.
    + unfold valid, valid_binary, bounded, canonical_mantissa.
      rewrite Hc. reflexivity.
    + apply Z.shiftl_0_r.
  - destruct (iter_xO_spec p s) as [Iv Id].
    assert (Hc : fexp prec emax (Z.pos (digits2_pos (Pos.iter xO p s))
                                 + (Z.pos (digits2_pos p) - prec))
                 = Z.pos (digits2_pos p) - prec).
    { rewrite Id. unfold fexp, emin, prec, emax in *. lia. }
    rewrite binary_round_aux_canonical; [| exact Hc | unfold emax, prec in *; lia].
    exists (Pos.iter xO p s), (Z.pos (digits2_pos p) - prec). split; [reflexivity|]. split.
    + unfold valid, valid_binary, bounded, canonical_mantissa.
      rewrite Hc, Z.eqb_refl. apply Z.leb_le. unfold emax, prec in *. lia.
    + rewrite Z.shiftl_div_pow2 by lia. rewrite Iv.
      replace (- (Z.pos (digits2_pos p) - prec)) with (Z.pos s) by lia.
      apply Z.div_mul. apply Z.pow_nonzero; lia.
Qed.

Lemma leb_zero_inv (x : double) :
  leb zero x = true ->
  (exists s, x = S754_zero s) \/ x = S754_infinity false
  \/ (exists m e, x = S754_finite false m e).
Proof.
  unfold leb, SFleb, SFcompare, zero.
  destruct x as [s | [|] | | [|] m e]; try discriminate; eauto.
Qed.

Lemma unit_interval_inv (x : double) :
  leb zero x = true -> leb x one = true ->
  (exists s, x = S754_zero s) \/ (exists m e, x = S754_finite false m e).
Proof.
  intros H0 H1.
  destruct (leb_zero_inv x H0) as [H | [-> | H]]; auto.
  unfold leb, SFleb, SFcompare, one in H1. discriminate.
Qed.

Lemma mul_unit_range (n : Z) (f : double) :
  0 <= n < 2 ^ prec -> valid f = true ->
  leb zero f = true -> leb f one = true ->
  0 <= to_Z (mul (of_Z n) f) <= n.
Proof.
  intros Hn Hv H0 H1.
  destruct (unit_interval_inv f H0 H1) as [[s ->] | [mf [ef ->]]].
  - destruct n as [| p | p]; [cbn; lia | | lia].
    destruct (of_Z_exact (Z.pos p) ltac:(lia)) as [m [e [-> _]]]. cbn. lia.
  - destruct (Z.eq_dec n 0) as [-> | Hnz]; [cbn; lia|].
    destruct (of_Z_exact n ltac:(lia)) as [mx [ex [-> [Hvx Hval]]]].
    destruct (mul_unit_bound mx mf ex ef Hvx Hv H1) as [-> | [m [e [-> [He Hm]]]]].
    + cbn. lia.
    + cbn [to_Z cond_Zopp]. split.
      * apply Z.shiftl_nonneg. lia.
      * rewrite <- Hval. apply shiftl_le_scaled; assumption.
Qed.

End DoubleFacts.

(** * Sequential behaviour of the handlers *)
Section Facts.
Context {W : World}.

Arguments in_unit : simpl never.
Arguments seek_index : simpl never.
Arguments zeros : simpl never.
Arguments cap_open : simpl never.
Arguments buffered : simpl never.
Arguments mul : simpl never.
Arguments frame_count : simpl never.

(** Setters applied to a record, and projections of them, are computed
    innermost first, so that nested setters do not duplicate their argument. *)
Ltac state_simpl :=
  cbv [set_video_visual_ set_image_ set_new_image_available_
       set_video_path_ set_stop_video_ set_new_video_available_
       set_video_paused_ set_loop_video_ set_buffer_all_frames_for_fast_seek_
       set_video_seek_position_ set_video_frames_ set_current_buffered_frame_
       set_cap
       video_visual_ image_ new_image_available_ video_path_ stop_video_
       new_video_available_ video_paused_ loop_video_
       buffer_all_frames_for_fast_seek_ video_seek_position_ video_frames_
       current_buffered_frame_ cap isOpened stream pos_frames] in *.

Ltac proj_simpl :=
  cbn [video_visual_ image_ new_image_available_ video_path_ stop_video_
       new_video_available_ video_paused_ loop_video_
       buffer_all_frames_for_fast_seek_ video_seek_position_ video_frames_
       current_buffered_frame_ cap
       set_video_visual_ set_image_ set_new_image_available_
       set_video_path_ set_stop_video_ set_new_video_available_
       set_video_paused_ set_loop_video_ set_buffer_all_frames_for_fast_seek_
       set_video_seek_position_ set_video_frames_ set_current_buffered_frame_
       set_cap] in *.

Lemma exec_bind {A B} (p : prog A) (f : A -> prog B) (s : GazeboRosVideo) :
  exec (bind p f) s
  = match exec p s with
    | Done a s' => exec (f a) s'
    | Faulted e => Faulted e
    end.
Proof.
  revert s. induction p as [a | m k IH | m k IH | k IH | g k IH | e]; intros s; cbn; auto.
Qed.

Lemma exec_updateImage (image : Mat bgr) (s : GazeboRosVideo) :
  exec (updateImage image) s
  = Done tt (set_new_image_available_ true
               (set_image_
                  (Some (if empty image
                         then zeros (height_ (video_visual_ s))
                                    (width_ (video_visual_ s))
                         else cvtColor_BGR2BGRA image)) s)).
Proof. reflexivity. Qed.

Lemma exec_clearImage (s : GazeboRosVideo) :
  exec clearImage s
  = Done tt (set_new_image_available_ true
               (set_image_ (Some (zeros (height_ (video_visual_ s))
                                        (width_ (video_visual_ s)))) s)).
Proof. reflexivity. Qed.

(** A stopped video makes the loop body do nothing. *)
Lemma tick_stopped (s : GazeboRosVideo) :
  stop_video_ s = true -> exec VideoThread_iter s = Done tt s.
Proof.
  intros H. unfold VideoThread_iter. cbn. rewrite H. reflexivity.
Qed.

(** No handler but a non-empty video path clears the stop flag, and once
    the slot holds an image it always does. *)
Lemma handle_keeps_stopped (e : Event) (s : GazeboRosVideo) :
  keeps_stopped e = true -> stop_video_ s = true -> image_ s <> None ->
  exists s', exec (handle e) s = Done tt s'
             /\ stop_video_ s' = true /\ image_ s' <> None.
Proof.
  intros He Hs Hi.
  destruct e as [msg | str | str | v | b | | ]; cbn [handle keeps_stopped] in *.
  - eexists. split; [reflexivity|]. cbn. split; [reflexivity | discriminate].
  - unfold processImagePath. destruct (is_empty str);
      (eexists; split; [reflexivity|]; cbn; split; [reflexivity | discriminate]).
  - unfold processVideoPath. cbn. rewrite He.
    eexists. split; [reflexivity|]. cbn. split; [reflexivity | discriminate].
  - eexists. split; [reflexivity|]. cbn. auto.
  - unfold processVideoPause. cbn. rewrite Hs. cbn. eauto.
  - rewrite tick_stopped by assumption. eauto.
  - unfold UpdateChild. cbn.
    destruct (new_image_available_ s).
    + destruct (image_ s) as [im|] eqn:E; [|congruence]. cbn.
      eexists. split; [reflexivity|]. cbn. rewrite E. split; [assumption | discriminate].
    + cbn. eexists. split; [reflexivity|]. cbn. auto.
Qed.

Lemma run_keeps_stopped (evs : list Event) : forall s,
  Forall (fun e => keeps_stopped e = true) evs ->
  stop_video_ s = true -> image_ s <> None ->
  exists s', run evs s = Done tt s'
             /\ stop_video_ s' = true /\ image_ s' <> None.
Proof.
  induction evs as [| e evs IH]; intros s Hall Hs Hi.
  - exists s. cbn. auto.
  - inversion Hall as [| ? ? He Hrest]; subst.
    destruct (handle_keeps_stopped e s He Hs Hi) as [s1 [E1 [Hs1 Hi1]]].
    cbn [run]. rewrite E1. apply IH; assumption.
Qed.

Lemma run_app (evs1 evs2 : list Event) (s : GazeboRosVideo) :
  run (evs1 ++ evs2) s
  = match run evs1 s with
    | Done _ s' => run evs2 s'
    | Faulted e => Faulted e
    end.
Proof.
  revert s. induction evs1 as [| e evs1 IH]; intros s; cbn; [reflexivity|].
  destruct (exec (handle e) s); auto.
Qed.

(** While stopped, ticks, seeks and pauses leave the frame slot and the
    texture alone. *)
Lemma run_playback_only_stopped (evs : list Event) : forall s,
  Forall (fun e => playback_only e = true) evs ->
  stop_video_ s = true ->
  exists s', run evs s = Done tt s'
             /\ stop_video_ s' = true
             /\ image_ s' = image_ s
             /\ new_image_available_ s' = new_image_available_ s
             /\ video_visual_ s' = video_visual_ s.
Proof.
  induction evs as [| e evs IH]; intros s Hall Hs.
  - exists s. cbn. auto.
  - inversion Hall as [| ? ? He Hrest]; subst. cbn [run].
    destruct e as [msg | str | str | v | b | | ]; try discriminate; cbn [handle].
    + change (exec (processVideoSeek v) s)
        with (Done tt (set_video_seek_position_ v s)).
      destruct (IH (set_video_seek_position_ v s) Hrest Hs) as [s' H'].
      exists s'. exact H'.
    + unfold processVideoPause. cbn. rewrite Hs. cbn. apply IH; assumption.
    + rewrite tick_stopped by assumption. apply IH; assumption.
Qed.

(** C6: for every state, setting the empty video path stops playback and
    puts an all-zero frame of the texture's dimensions, marked new, into the
    frame slot; from then on, whatever events follow short of a non-empty
    video path, the video stays stopped and a turn of the playback loop
    changes nothing. *)
Theorem empty_video_path_stops_and_clears (s : GazeboRosVideo) :
  exists s1,
    exec (processVideoPath EmptyString) s = Done tt s1
    /\ stop_video_ s1 = true
    /\ image_ s1 = Some (zeros (height_ (video_visual_ s)) (width_ (video_visual_ s)))
    /\ new_image_available_ s1 = true
    /\ forall evs,
         Forall (fun e => keeps_stopped e = true) evs ->
         exists s2, run evs s1 = Done tt s2
                    /\ stop_video_ s2 = true
                    /\ exec VideoThread_iter s2 = Done tt s2.
Proof.
  eexists. split; [reflexivity|]. cbn.
  repeat split.
  intros evs Hall.
  match goal with |- context [run evs ?s1] =>
    destruct (run_keeps_stopped evs s1 Hall) as [s2 [E [Hs Hi]]];
      [reflexivity | cbn; discriminate |]
  end.
  exists s2. split; [exact E | split; [exact Hs | apply tick_stopped; exact Hs]].
Qed.

(** X16: when [processImage] runs to its end with no other thread in
    between, the stop flag is set, so the very next turn of the playback
    loop sees it and does nothing; the video stays stopped under any events
    short of a non-empty video path; and after any ticks, seeks and pauses
    the next render copies the pushed image (resized when its size is not
    the texture's) to the texture. *)
Theorem uninterrupted_push_stops_video_and_is_rendered
        (s : GazeboRosVideo) (msg : Mat bgra) :
  exists s1,
    exec (processImage msg) s = Done tt s1
    /\ stop_video_ s1 = true
    /\ exec VideoThread_iter s1 = Done tt s1
    /\ (forall evs,
          Forall (fun e => keeps_stopped e = true) evs ->
          exists s2, run evs s1 = Done tt s2
                     /\ stop_video_ s2 = true
                     /\ exec VideoThread_iter s2 = Done tt s2)
    /\ (forall evs,
          Forall (fun e => playback_only e = true) evs ->
          exists s2, run (evs ++ [EvRender]) s1 = Done tt s2
                     /\ video_visual_ s2
                        = VideoVisual_render (video_visual_ s) msg
                     /\ new_image_available_ s2 = false).
Proof.
  set (s1 := set_stop_video_ true
               (set_new_image_available_ true (set_image_ (Some msg) s))).
  exists s1. split; [reflexivity|].
  split; [reflexivity|].
  split; [apply tick_stopped; reflexivity|].
  split.
  - intros evs Hall.
    destruct (run_keeps_stopped evs s1 Hall) as [s2 [E [Hs Hi]]];
      [reflexivity | cbn; discriminate |].
    exists s2. split; [exact E | split; [exact Hs | apply tick_stopped; exact Hs]].
  - intros evs Hall.
    destruct (run_playback_only_stopped evs s1 Hall) as [s2 [E [Hs [Hi [Hn Hv]]]]];
      [reflexivity |].
    + rewrite run_app, E. cbn in Hi, Hn, Hv.
      cbn [run handle]. unfold UpdateChild. cbn. rewrite Hn, Hi. cbn.
      eexists. split; [reflexivity|]. cbn. rewrite Hv. auto.
Qed.

(** ** The loop body, phase by phase *)

Lemma exec_then_unlock (p : prog unit) (m : mutex) (s : GazeboRosVideo) :
  exec (p ;; unlock m) s = exec p s.
Proof.
  rewrite exec_bind. destruct (exec p s) as [[] s' | e]; reflexivity.
Qed.

Lemma exec_tick (s : GazeboRosVideo) :
  exec VideoThread_iter s
  = if stop_video_ s then Done tt s
    else
      match (if new_video_available_ s && negb (is_empty (video_path_ s))
             then exec open_new_video s else Done tt s) with
      | Done _ s1 =>
          if buffering s1 then exec play_buffered s1
          else if isOpened (cap s1) then exec play_stream s1
          else Done tt s1
      | Faulted e => Faulted e
      end.
Proof.
  unfold VideoThread_iter.
  rewrite exec_bind. cbn [lock exec].
  rewrite exec_bind. cbn [get exec]. rewrite exec_then_unlock.
  destruct (stop_video_ s); cbn [negb]; [reflexivity|].
  rewrite exec_bind.
  destruct (new_video_available_ s && negb (is_empty (video_path_ s)));
    [destruct (exec open_new_video s) as [[] s1 | e]; [|reflexivity] | ];
    cbn [bind get exec ret]; unfold buffering;
    match goal with |- context [buffer_all_frames_for_fast_seek_ ?x && _] =>
      destruct (buffer_all_frames_for_fast_seek_ x && _); [reflexivity|];
      destruct (isOpened (cap x)); reflexivity
    end.
Qed.

Lemma exec_play_buffered (s : GazeboRosVideo) :
  exec play_buffered s
  = match exec seek_buffered s with
    | Done b s1 =>
        match exec wrap_buffered s1 with
        | Done _ s2 => exec (show_buffered b) s2
        | Faulted e => Faulted e
        end
    | Faulted e => Faulted e
    end.
Proof.
  unfold play_buffered. rewrite exec_bind.
  destruct (exec seek_buffered s) as [b s1 | e]; [|reflexivity].
  rewrite exec_bind. reflexivity.
Qed.

Lemma exec_play_stream (s : GazeboRosVideo) :
  exec play_stream s
  = match exec seek_stream s with
    | Done b s1 => exec (show_stream b) s1
    | Faulted e => Faulted e
    end.
Proof. unfold play_stream. apply exec_bind. Qed.

Lemma exec_seek_buffered (s : GazeboRosVideo) :
  exec seek_buffered s
  = if in_unit (video_seek_position_ s)
    then Done true
           (set_video_seek_position_ minus_one
              (set_current_buffered_frame_
                 (seek_index (List.length (video_frames_ s))
                             (video_seek_position_ s)) s))
    else Done false s.
Proof.
  unfold seek_buffered. cbn [bind get exec].
  destruct (in_unit (video_seek_position_ s)); reflexivity.
Qed.

Lemma exec_seek_stream (s : GazeboRosVideo) :
  exec seek_stream s
  = if in_unit (video_seek_position_ s)
    then Done true
           (set_video_seek_position_ minus_one (set_cap (stream_position s) s))
    else Done false s.
Proof.
  unfold seek_stream, stream_position. cbn [bind get exec].
  destruct (in_unit (video_seek_position_ s)); reflexivity.
Qed.

Lemma exec_wrap_buffered (s : GazeboRosVideo) :
  exec wrap_buffered s
  = if (N.of_nat (List.length (video_frames_ s)) <=? current_buffered_frame_ s)%N
    then
      if loop_video_ s then Done tt (set_current_buffered_frame_ 0%N s)
      else Done tt
             (set_video_frames_ []
                (set_new_image_available_ true
                   (set_image_
                      (Some (zeros (height_ (video_visual_ s))
                                   (width_ (video_visual_ s))))
                      (set_stop_video_ true
                         (set_current_buffered_frame_ 0%N s)))))
    else Done tt s.
Proof.
  unfold wrap_buffered. cbn [bind get exec].
  destruct (N.of_nat (List.length (video_frames_ s)) <=? current_buffered_frame_ s)%N;
    [|reflexivity].
  destruct (loop_video_ s); reflexivity.
Qed.

Lemma exec_show_buffered (b : bool) (s : GazeboRosVideo) :
  exec (show_buffered b) s
  = if b || negb (video_paused_ s) then
      match nth_error (video_frames_ s) (N.to_nat (current_buffered_frame_ s)) with
      | Some frame =>
          exec (updateImage frame)
               (set_current_buffered_frame_ (current_buffered_frame_ s + 1)%N s)
      | None => Faulted (vector_out_of_range (current_buffered_frame_ s)
                                             (List.length (video_frames_ s)))
      end
    else Done tt s.
Proof.
  unfold show_buffered. cbn [bind get exec].
  destruct (b || negb (video_paused_ s)); [|reflexivity].
  destruct (nth_error (video_frames_ s) (N.to_nat (current_buffered_frame_ s)));
    reflexivity.
Qed.

Lemma exec_end_of_stream (s : GazeboRosVideo) :
  exec end_of_stream s
  = if loop_video_ s then Done tt (set_cap (cap_open (video_path_ s)) s)
    else Done tt
           (set_new_image_available_ true
              (set_image_
                 (Some (zeros (height_ (video_visual_ s))
                              (width_ (video_visual_ s))))
                 (set_stop_video_ true s))).
Proof.
  unfold end_of_stream. cbn [bind get exec].
  destruct (loop_video_ s); reflexivity.
Qed.

Lemma exec_show_stream (b : bool) (s : GazeboRosVideo) :
  exec (show_stream b) s
  = if b || negb (video_paused_ s) then
      match read (cap s) with
      | (Some frame, c) =>
          if empty frame then exec end_of_stream (set_cap c s)
          else exec (updateImage frame) (set_cap c s)
      | (None, c) => exec end_of_stream (set_cap c s)
      end
    else Done tt s.
Proof.
  unfold show_stream. cbn [bind get exec].
  destruct (b || negb (video_paused_ s)); [|reflexivity].
  destruct (read (cap s)) as [[frame |] c]; [|reflexivity].
  cbn [bind write exec]. destruct (empty frame); reflexivity.
Qed.

(** ** Opening a video *)

Lemma plugin_eta (s : GazeboRosVideo) :
  mkPlugin (video_visual_ s) (image_ s) (new_image_available_ s) (video_path_ s)
    (stop_video_ s) (new_video_available_ s) (video_paused_ s) (loop_video_ s)
    (buffer_all_frames_for_fast_seek_ s) (video_seek_position_ s)
    (video_frames_ s) (current_buffered_frame_ s) (cap s) = s.
Proof. destruct s; reflexivity. Qed.

Lemma buffered_cons (v : VideoVisual) (f : Mat bgr) (l : list (Mat bgr)) :
  buffered v (f :: l)
  = (if negb (empty f) then [resize_bgr f (width_ v) (height_ v)] else [])
    ++ buffered v l.
Proof. unfold buffered. cbn. destruct (empty f); reflexivity. Qed.

Lemma skipn_nth_error {A} (l : list A) : forall n a,
  nth_error l n = Some a -> skipn n l = a :: skipn (S n) l.
Proof.
  induction l as [| x l IH]; intros [| n] a H; cbn in *; try discriminate.
  - congruence.
  - apply IH. exact H.
Qed.

(** With more fuel than frames left, the buffering loop reads the capture
    to its end and appends every non-empty frame, resized. *)
Lemma exec_buffer_frames (fuel : nat) : forall s,
  isOpened (cap s) = true ->
  (List.length (stream (cap s)) - pos_frames (cap s) < fuel)%nat ->
  exec (buffer_frames fuel) s
  = Done tt
      (set_video_frames_
         (video_frames_ s
          ++ buffered (video_visual_ s) (skipn (pos_frames (cap s)) (stream (cap s))))
         (set_cap (mkCap true (stream (cap s))
                         (Nat.max (pos_frames (cap s))
                                  (List.length (stream (cap s))))) s)).
Proof.
  induction fuel as [| fuel IH]; intros s Hop Hfuel; [lia|].
  cbn [buffer_frames bind get exec]. unfold read. rewrite Hop.
  destruct (nth_error (stream (cap s)) (pos_frames (cap s))) as [f |] eqn:E.
  - assert (Hlt : (pos_frames (cap s) < List.length (stream (cap s)))%nat)
      by (apply nth_error_Some; congruence).
    rewrite (skipn_nth_error _ _ _ E), buffered_cons.
    cbn [bind write exec].
    destruct (empty f); cbn [negb bind write ret exec];
      rewrite IH by (cbn; first [reflexivity | lia]);
      destruct s as [vv im ni vp st nv pa lo bu se fr cu [op stm pos]];
      state_simpl; cbn [app]; rewrite <- ?app_assoc;
      do 2 f_equal; try reflexivity; f_equal; lia.
  - apply nth_error_None in E.
    rewrite (skipn_all2 _ E). unfold buffered. cbn. rewrite app_nil_r.
    destruct s as [vv im ni vp st nv pa lo bu se fr cu [op stm pos]].
    state_simpl. subst op. rewrite Nat.max_l by exact E. reflexivity.
Qed.

Lemma exec_open_new_video (s : GazeboRosVideo) :
  exec open_new_video s = Done tt (opened s).
Proof.
  unfold open_new_video, opened. rewrite exec_bind, exec_clearImage.
  cbn [bind get write exec]. proj_simpl.
  destruct (buffer_all_frames_for_fast_seek_ s); [|reflexivity].
  cbn [bind get write exec]. proj_simpl.
  destruct (isOpened (cap_open (video_path_ s))) eqn:Hop; [|reflexivity].
  rewrite exec_buffer_frames; [| exact Hop | proj_simpl; lia].
  proj_simpl. unfold cap_open in *.
  destruct (video_file (video_path_ s)); [|discriminate].
  cbn [stream pos_frames skipn app]. rewrite Nat.max_r by lia. reflexivity.
Qed.

(** ** A stored value outside [0,1] *)

Lemma in_unit_minus_one : in_unit minus_one = false.
Proof. vm_compute. reflexivity. Qed.

Lemma opened_set_seek (v : double) (s : GazeboRosVideo) :
  opened (set_video_seek_position_ v s) = set_video_seek_position_ v (opened s).
Proof.
  unfold opened. proj_simpl.
  destruct (buffer_all_frames_for_fast_seek_ s); [|reflexivity].
  destruct (isOpened (cap_open (video_path_ s))); reflexivity.
Qed.

Section Blind.
Variables (v : double) (s : GazeboRosVideo).
Hypothesis Hv : in_unit v = false.
Hypothesis Hs : in_unit (video_seek_position_ s) = false.

Lemma blind_play_buffered :
  exec play_buffered (set_video_seek_position_ v s)
  = map_outcome (set_video_seek_position_ v) (exec play_buffered s).
Proof.
  rewrite !exec_play_buffered, !exec_seek_buffered. proj_simpl.
  rewrite Hs, Hv. rewrite !exec_wrap_buffered. proj_simpl.
  destruct (N.of_nat (List.length (video_frames_ s)) <=? current_buffered_frame_ s)%N;
    [destruct (loop_video_ s)|];
    rewrite !exec_show_buffered; proj_simpl; cbn [orb];
    destruct (negb (video_paused_ s)); try reflexivity;
    match goal with |- context [nth_error ?l ?n] =>
      destruct (nth_error l n); reflexivity
    end.
Qed.

Lemma blind_play_stream :
  exec play_stream (set_video_seek_position_ v s)
  = map_outcome (set_video_seek_position_ v) (exec play_stream s).
Proof.
  rewrite !exec_play_stream, !exec_seek_stream. proj_simpl.
  rewrite Hs, Hv. rewrite !exec_show_stream. proj_simpl. cbn [orb].
  destruct (negb (video_paused_ s)); [|reflexivity].
  destruct (read (cap s)) as [[frame |] c];
    [destruct (empty frame) |]; rewrite ?exec_end_of_stream; proj_simpl;
    try destruct (loop_video_ s); reflexivity.
Qed.
End Blind.

Lemma blind_tick (v : double) (s : GazeboRosVideo) :
  in_unit v = false -> in_unit (video_seek_position_ s) = false ->
  exec VideoThread_iter (set_video_seek_position_ v s)
  = map_outcome (set_video_seek_position_ v) (exec VideoThread_iter s).
Proof.
  intros Hv Hs. rewrite !exec_tick. proj_simpl.
  destruct (stop_video_ s); [reflexivity|].
  destruct (new_video_available_ s && negb (is_empty (video_path_ s))).
  - rewrite !exec_open_new_video, opened_set_seek.
    assert (Ho : in_unit (video_seek_position_ (opened s)) = false).
    { unfold opened. proj_simpl.
      destruct (buffer_all_frames_for_fast_seek_ s); [|exact Hs].
      destruct (isOpened (cap_open (video_path_ s))); exact Hs. }
    unfold buffering. proj_simpl.
    destruct (buffer_all_frames_for_fast_seek_ (opened s) && _);
      [apply blind_play_buffered; assumption|].
    destruct (isOpened (cap (opened s)));
      [apply blind_play_stream; assumption | reflexivity].
  - unfold buffering. proj_simpl.
    destruct (buffer_all_frames_for_fast_seek_ s && _);
      [apply blind_play_buffered; assumption|].
    destruct (isOpened (cap s));
      [apply blind_play_stream; assumption | reflexivity].
Qed.

(** C2, as the code has it: a seek value outside [0,1] is stored like any
    other, replacing whatever was pending, and no turn of the playback loop
    acts on it: the turn runs exactly as if no seek were pending and leaves
    the value where it is. *)
Theorem out_of_range_seek_is_stored_and_never_performed
        (s : GazeboRosVideo) (v : double) :
  in_unit v = false ->
  exec (processVideoSeek v) s = Done tt (set_video_seek_position_ v s)
  /\ exec VideoThread_iter (set_video_seek_position_ v s)
     = map_outcome (set_video_seek_position_ v)
         (exec VideoThread_iter (set_video_seek_position_ minus_one s)).
Proof.
  intros Hv. split; [reflexivity|].
  change (set_video_seek_position_ v s)
    with (set_video_seek_position_ v (set_video_seek_position_ minus_one s)) at 1.
  apply blind_tick; [exact Hv | exact in_unit_minus_one].
Qed.

(** ** Seeking in the buffer *)

Lemma seek_index_in_range (size : nat) (f : double) :
  (0 < size)%nat -> Z.of_nat size <= max_exact ->
  valid f = true -> in_unit f = true ->
  (seek_index size f < N.of_nat size)%N.
Proof.
  intros Hpos Hmax Hv Hu. unfold in_unit in Hu.
  apply andb_true_iff in Hu. destruct Hu as [H0 H1].
  unfold seek_index, to_N.
  pose proof (mul_unit_range (Z.of_nat size - 1) f) as R.
  unfold max_exact in Hmax.
  specialize (R ltac:(lia) Hv H0 H1). lia.
Qed.

(** C4, as the code has it: when the buffer is not empty and a valid
    fraction [f] of [0,1] is pending, the turn sets the cursor to the
    product [(length - 1) * f] converted to an integer, that is with its
    fractional part dropped; this index lies inside the buffer, the frame
    there is the one shown, the cursor ends one past it and the pending
    seek is cleared. *)
Theorem seek_sets_cursor_by_truncation (s : GazeboRosVideo) :
  stop_video_ s = false -> new_video_available_ s = false ->
  buffering s = true ->
  Z.of_nat (List.length (video_frames_ s)) <= max_exact ->
  valid (video_seek_position_ s) = true ->
  in_unit (video_seek_position_ s) = true ->
  exists frame s',
    nth_error (video_frames_ s)
      (N.to_nat (seek_index (List.length (video_frames_ s))
                            (video_seek_position_ s))) = Some frame
    /\ exec VideoThread_iter s = Done tt s'
    /\ current_buffered_frame_ s'
       = (seek_index (List.length (video_frames_ s))
                     (video_seek_position_ s) + 1)%N
    /\ image_ s'
       = Some (if empty frame
               then zeros (height_ (video_visual_ s)) (width_ (video_visual_ s))
               else cvtColor_BGR2BGRA frame)
    /\ new_image_available_ s' = true
    /\ video_seek_position_ s' = minus_one.
Proof.
  intros Hstop Hnew Hbuf Hmax Hv Hu.
  set (k := seek_index (List.length (video_frames_ s)) (video_seek_position_ s)).
  assert (Hlen : (0 < List.length (video_frames_ s))%nat).
  { unfold buffering in Hbuf. apply andb_true_iff in Hbuf.
    destruct Hbuf as [_ Hne]. destruct (video_frames_ s); [discriminate | cbn; lia]. }
  assert (Hk : (k < N.of_nat (List.length (video_frames_ s)))%N)
    by (apply seek_index_in_range; assumption).
  destruct (nth_error (video_frames_ s) (N.to_nat k)) as [frame |] eqn:E;
    [| apply nth_error_None in E; lia].
  exists frame. eexists. split; [reflexivity|].
  rewrite exec_tick, Hstop, Hnew. cbn [andb]. rewrite Hbuf.
  rewrite exec_play_buffered, exec_seek_buffered, Hu.
  rewrite exec_wrap_buffered. proj_simpl. fold k.
  replace (N.of_nat (List.length (video_frames_ s)) <=? k)%N with false
    by (symmetry; apply N.leb_gt; exact Hk).
  rewrite exec_show_buffered. proj_simpl. cbn [orb]. rewrite E.
  rewrite exec_updateImage. proj_simpl.
  split; [reflexivity|]. proj_simpl. auto.
Qed.

(** ** Paused playback *)

(** A paused turn with nothing pending and the cursor inside the buffer
    changes nothing. *)
Lemma paused_tick_noop (s : GazeboRosVideo) :
  stop_video_ s = false -> new_video_available_ s = false ->
  video_paused_ s = true -> in_unit (video_seek_position_ s) = false ->
  (buffering s = true ->
   (current_buffered_frame_ s < N.of_nat (List.length (video_frames_ s)))%N) ->
  exec VideoThread_iter s = Done tt s.
Proof.
  intros Hstop Hnew Hp Hu Hcur.
  rewrite exec_tick, Hstop, Hnew. cbn [andb].
  destruct (buffering s).
  - rewrite exec_play_buffered, exec_seek_buffered, Hu, exec_wrap_buffered.
    replace (N.of_nat (List.length (video_frames_ s)) <=? current_buffered_frame_ s)%N
      with false by (symmetry; apply N.leb_gt; auto).
    rewrite exec_show_buffered, Hp. reflexivity.
  - destruct (isOpened (cap s)); [|reflexivity].
    rewrite exec_play_stream, exec_seek_stream, Hu, exec_show_stream, Hp.
    reflexivity.
Qed.

(** ** End of stream *)

Lemma streaming_not_buffering (s : GazeboRosVideo) :
  streaming s = true -> buffering s = false /\ isOpened (cap s) = true.
Proof.
  unfold streaming, buffering. intros H. apply andb_true_iff in H.
  destruct H as [H1 H2]. apply negb_true_iff in H1. auto.
Qed.

Lemma exec_play_stream_end (s : GazeboRosVideo) :
  reads_this_turn s = true ->
  at_end_of_stream (stream_position s) = true ->
  exec play_stream s
  = exec end_of_stream
      (set_cap (snd (read (stream_position s)))
         (if in_unit (video_seek_position_ s)
          then set_video_seek_position_ minus_one (set_cap (stream_position s) s)
          else s)).
Proof.
  unfold reads_this_turn, at_end_of_stream, stream_position.
  intros Hr He. rewrite exec_play_stream, exec_seek_stream. unfold stream_position.
  destruct (in_unit (video_seek_position_ s)).
  - rewrite exec_show_stream. proj_simpl. cbn [orb].
    destruct (read _) as [[frame |] c]; cbn [fst snd] in *; [rewrite He|]; reflexivity.
  - cbn [orb] in Hr. rewrite exec_show_stream, Hr. cbn [orb].
    destruct (read (cap s)) as [[frame |] c]; cbn [fst snd] in *; [rewrite He|]; reflexivity.
Qed.

Lemma set_video_paused_same (s : GazeboRosVideo) :
  set_video_paused_ (video_paused_ s) s = s.
Proof. destruct s; reflexivity. Qed.

(** C7: a streaming read that fails.  With [loop_video_] the capture is
    reopened on the current path and the slot is left alone; the following
    turns do nothing while paused, and the first turn that is not paused
    shows the first frame of the file.  Without [loop_video_] the video is
    stopped and an all-zero frame is put into the slot; it stays stopped,
    and turns do nothing, until a non-empty video path arrives. *)
Theorem end_of_stream_loops_or_stops (s : GazeboRosVideo) :
  stop_video_ s = false -> new_video_available_ s = false ->
  streaming s = true -> reads_this_turn s = true ->
  at_end_of_stream (stream_position s) = true ->
  exists s1,
    exec VideoThread_iter s = Done tt s1
    /\ (loop_video_ s = true ->
        cap s1 = cap_open (video_path_ s)
        /\ image_ s1 = image_ s
        /\ new_image_available_ s1 = new_image_available_ s
        /\ stop_video_ s1 = false
        /\ (video_paused_ s = true -> exec VideoThread_iter s1 = Done tt s1)
        /\ (video_paused_ s = false -> set_video_paused_ false s1 = s1)
        /\ forall first rest,
             video_file (video_path_ s) = Some (first :: rest) ->
             empty first = false ->
             exists s2,
               exec VideoThread_iter (set_video_paused_ false s1) = Done tt s2
               /\ image_ s2 = Some (cvtColor_BGR2BGRA first)
               /\ new_image_available_ s2 = true)
    /\ (loop_video_ s = false ->
        stop_video_ s1 = true
        /\ image_ s1 = Some (zeros (height_ (video_visual_ s))
                                   (width_ (video_visual_ s)))
        /\ new_image_available_ s1 = true
        /\ forall evs,
             Forall (fun e => keeps_stopped e = true) evs ->
             exists s2, run evs s1 = Done tt s2
                        /\ stop_video_ s2 = true
                        /\ exec VideoThread_iter s2 = Done tt s2).
Proof.
  intros Hstop Hnew Hstr Hread Hend.
  destruct (streaming_not_buffering s Hstr) as [Hbuf Hop].
  rewrite exec_tick, Hstop, Hnew. cbn [andb]. rewrite Hbuf, Hop.
  rewrite (exec_play_stream_end s Hread Hend), exec_end_of_stream.
  set (s0 := set_cap _ _).
  assert (Hloop : loop_video_ s0 = loop_video_ s)
    by (unfold s0; destruct (in_unit (video_seek_position_ s)); reflexivity).
  rewrite Hloop. destruct (loop_video_ s) eqn:Hl.
  - eexists. split; [reflexivity|]. split; [intros _ | discriminate].
    assert (Hseek : in_unit (video_seek_position_ s0) = false).
    { unfold s0. destruct (in_unit (video_seek_position_ s)) eqn:E; proj_simpl;
        [exact in_unit_minus_one | exact E]. }
    assert (Hfields :
      video_path_ s0 = video_path_ s /\ image_ s0 = image_ s
      /\ new_image_available_ s0 = new_image_available_ s
      /\ stop_video_ s0 = false /\ new_video_available_ s0 = false
      /\ video_paused_ s0 = video_paused_ s
      /\ buffer_all_frames_for_fast_seek_ s0 = buffer_all_frames_for_fast_seek_ s
      /\ video_frames_ s0 = video_frames_ s).
    { unfold s0. destruct (in_unit (video_seek_position_ s)); proj_simpl; auto 10. }
    destruct Hfields as [Hpa [Him [Hni [Hst [Hnv [Hpd [Hbf Hfr]]]]]]].
    rewrite Hpa. proj_simpl.
    repeat split; try assumption.
    + intros Hp. apply paused_tick_noop; proj_simpl; try assumption; try congruence.
      unfold buffering. proj_simpl. rewrite Hbf, Hfr.
      unfold buffering in Hbuf. rewrite Hbuf. discriminate.
    + intros Hp. rewrite <- Hp at 1. rewrite <- Hpd.
      change (set_video_paused_ (video_paused_ s0)
                (set_cap (cap_open (video_path_ s)) s0))
        with (set_cap (cap_open (video_path_ s))
                (set_video_paused_ (video_paused_ s0) s0)).
      rewrite set_video_paused_same. reflexivity.
    + intros first rest Hfile Hne.
      rewrite exec_tick. proj_simpl. rewrite Hst, Hnv. cbn [andb].
      unfold buffering. proj_simpl. rewrite Hbf, Hfr.
      unfold buffering in Hbuf. rewrite Hbuf.
      unfold cap_open. rewrite Hfile. cbn [isOpened].
      rewrite exec_play_stream, exec_seek_stream. proj_simpl. rewrite Hseek.
      rewrite exec_show_stream. proj_simpl. cbn [orb negb read isOpened stream pos_frames nth_error].
      rewrite Hne. rewrite exec_updateImage. rewrite Hne.
      eexists. split; [reflexivity|]. proj_simpl. auto.
  - eexists. split; [reflexivity|]. split; [discriminate | intros _].
    assert (Hvv : video_visual_ s0 = video_visual_ s)
      by (unfold s0; destruct (in_unit (video_seek_position_ s)); reflexivity).
    rewrite Hvv. proj_simpl. repeat split.
    intros evs Hall.
    match goal with |- context [run evs ?x] =>
      destruct (run_keeps_stopped evs x Hall) as [s2 [E [Hs Hi]]];
        [reflexivity | proj_simpl; discriminate |]
    end.
    exists s2. split; [exact E | split; [exact Hs | apply tick_stopped; exact Hs]].
Qed.

(** ** A seek submitted while stopped *)


Lemma buffered_length (v : VideoVisual) (l : list (Mat bgr)) :
  (List.length (buffered v l) <= List.length l)%nat.
Proof.
  unfold buffered. rewrite length_map. apply filter_length_le.
Qed.

Lemma exec_processVideoPath_nonempty (path : string) (s : GazeboRosVideo) :
  is_empty path = false ->
  exec (processVideoPath path) s
  = Done tt (set_new_video_available_ true
               (set_stop_video_ false (set_video_path_ path s))).
Proof.
  intros H. unfold processVideoPath. cbn [bind lock get write exec].
  proj_simpl. rewrite H. reflexivity.
Qed.


(** ** Dimensions of the frame in the slot *)

Lemma zeros_has_texture_size (v : VideoVisual) :
  has_texture_size v (Some (zeros (height_ v) (width_ v))).
Proof. eexists. split; [reflexivity|]. split; reflexivity. Qed.

Lemma buffered_normalized (v : VideoVisual) (l : list (Mat bgr)) :
  Forall (fun f => rows f = height_ v /\ cols f = width_ v) (buffered v l).
Proof.
  unfold buffered. apply Forall_forall. intros f Hin.
  apply in_map_iff in Hin. destruct Hin as [g [<- _]]. split; reflexivity.
Qed.

Lemma opened_normalized (s : GazeboRosVideo) :
  buffer_normalized s -> buffer_normalized (opened s).
Proof.
  unfold buffer_normalized, opened. intros H.
  destruct (buffer_all_frames_for_fast_seek_ s); [|exact H].
  destruct (isOpened (cap_open (video_path_ s))); proj_simpl.
  - apply buffered_normalized.
  - constructor.
Qed.

Lemma opened_slot (s : GazeboRosVideo) :
  video_visual_ (opened s) = video_visual_ s
  /\ image_ (opened s)
     = Some (zeros (height_ (video_visual_ s)) (width_ (video_visual_ s))).
Proof.
  unfold opened.
  destruct (buffer_all_frames_for_fast_seek_ s); [|split; reflexivity].
  destruct (isOpened (cap_open (video_path_ s))); split; reflexivity.
Qed.

Lemma play_buffered_slot (s s' : GazeboRosVideo) :
  buffer_normalized s -> exec play_buffered s = Done tt s' ->
  video_visual_ s' = video_visual_ s
  /\ (image_ s' = image_ s \/ has_texture_size (video_visual_ s) (image_ s')).
Proof.
  intros Hn. rewrite exec_play_buffered, exec_seek_buffered.
  assert (Hshow : forall b s1,
    buffer_normalized s1 ->
    exec (show_buffered b) s1 = Done tt s' ->
    video_visual_ s' = video_visual_ s1
    /\ (image_ s' = image_ s1 \/ has_texture_size (video_visual_ s1) (image_ s'))).
  { intros b s1 Hn1. rewrite exec_show_buffered.
    destruct (b || negb (video_paused_ s1)).
    - destruct (nth_error (video_frames_ s1) (N.to_nat (current_buffered_frame_ s1)))
        as [frame |] eqn:E; [|discriminate].
      rewrite exec_updateImage. intros H. injection H as <-. proj_simpl.
      split; [reflexivity|]. right.
      destruct (empty frame); [apply zeros_has_texture_size|].
      apply nth_error_In in E.
      unfold buffer_normalized in Hn1. rewrite Forall_forall in Hn1.
      destruct (Hn1 frame E) as [Hr Hc].
      eexists. split; [reflexivity|]. split; assumption.
    - intros H. injection H as <-. auto. }
  assert (Hwrap : forall s1,
    buffer_normalized s1 ->
    forall b, match exec wrap_buffered s1 with
              | Done _ s2 => exec (show_buffered b) s2
              | Faulted e => Faulted e
              end = Done tt s' ->
    video_visual_ s' = video_visual_ s1
    /\ (image_ s' = image_ s1 \/ has_texture_size (video_visual_ s1) (image_ s'))).
  { intros s1 Hn1 b. rewrite exec_wrap_buffered.
    destruct (N.of_nat (List.length (video_frames_ s1)) <=? current_buffered_frame_ s1)%N;
      [destruct (loop_video_ s1)|]; intros H.
    - apply Hshow in H; [exact H | exact Hn1].
    - apply Hshow in H; [| constructor]. proj_simpl.
      destruct H as [Hv [Hi | Hi]]; (split; [exact Hv|]); right;
        [rewrite Hi; apply zeros_has_texture_size | exact Hi].
    - apply Hshow in H; [exact H | exact Hn1]. }
  destruct (in_unit (video_seek_position_ s)); intros H.
  - apply Hwrap in H; [exact H | exact Hn].
  - apply Hwrap in H; [exact H | exact Hn].
Qed.

Lemma read_In (c c' : VideoCapture) (frame : Mat bgr) :
  read c = (Some frame, c') -> In frame (stream c') /\ stream c' = stream c.
Proof.
  unfold read. destruct (isOpened c); [|discriminate].
  destruct (nth_error (stream c) (pos_frames c)) as [f |] eqn:E; [|discriminate].
  intros H. injection H as <- <-. cbn. split; [|reflexivity].
  apply nth_error_In in E. exact E.
Qed.

(** ** Lock order *)

Lemma processImage_lock_events (msg : Mat bgra) (s : GazeboRosVideo) :
  lock_events (processImage msg) s
  = [Acq m_image_; Acq m_video_; Rel m_video_; Rel m_image_].
Proof. reflexivity. Qed.

Lemma updateImage_lock_events (image : Mat bgr) (s : GazeboRosVideo) :
  lock_events (updateImage image) s = [Acq m_image_; Rel m_image_].
Proof. reflexivity. Qed.

Lemma processImagePath_lock_events (str : string) (s : GazeboRosVideo) :
  lock_events (processImagePath str) s
  = [Acq m_image_; Rel m_image_; Acq m_video_; Rel m_video_].
Proof. unfold processImagePath. destruct (is_empty str); reflexivity. Qed.

(** C5, as the code has it: [processImage] requests the video mutex while
    it still owns the image mutex, unlike [processImagePath], which has
    released the image mutex by then.  The playback loop takes the two
    mutexes in the other order, so when an image arrives during a turn
    that is about to show a streamed frame, both threads end up waiting for
    each other, with the stop flag never set. *)
Theorem processImage_locks_video_inside_image
        (s : GazeboRosVideo) (msg : Mat bgra) (frame : Mat bgr) (c : VideoCapture) :
  stop_video_ s = false -> new_video_available_ s = false ->
  streaming s = true -> video_paused_ s = false ->
  in_unit (video_seek_position_ s) = false ->
  read (cap s) = (Some frame, c) -> empty frame = false ->
  holds_both (lock_events (processImage msg) s) = true
  /\ holds_both (lock_events (processImagePath EmptyString) s) = false
  /\ acquires_under m_video_ m_image_ false (lock_events VideoThread_iter s) = true
  /\ exists c',
       schedule [0; 0; 0; 0; 0; 0; 1; 1; 1]%nat
                (mkConfig s unowned [VideoThread_iter; processImage msg]) = Some c'
       /\ deadlocked c' = true
       /\ owner c' m_video_ = Some 0%nat
       /\ owner c' m_image_ = Some 1%nat
       /\ stop_video_ (shared c') = false.
Proof.
  intros Hstop Hnew Hstr Hp Hu Hread Hne.
  destruct (streaming_not_buffering s Hstr) as [Hbuf Hop].
  unfold buffering in Hbuf.
  split; [reflexivity|]. split; [reflexivity|]. split.
  - unfold VideoThread_iter, play_stream, seek_stream, show_stream.
    cbn [bind lock get lock_events]. rewrite Hstop, Hnew. cbn [negb andb bind ret lock_events get].
    rewrite Hbuf, Hop. cbn [bind get lock_events]. rewrite Hu. cbn [bind ret lock_events get orb].
    rewrite Hp, Hread. cbn [negb bind write lock_events]. rewrite Hne. reflexivity.
  - unfold schedule, thread_step, VideoThread_iter, play_stream, seek_stream, show_stream.
    cbn [threads nth_error bind lock get owner shared unowned set_nth set_owner mutex_eqb].
    rewrite Hstop, Hnew. cbn [negb andb bind ret get nth_error set_nth threads shared owner].
    rewrite Hbuf, Hop. cbn [bind get nth_error set_nth threads shared owner]. rewrite Hu.
    cbn [bind ret get orb nth_error set_nth threads shared owner].
    rewrite Hp, Hread. cbn [negb bind write nth_error set_nth threads shared owner].
    rewrite Hne. cbn.
    eexists. split; [reflexivity|]. cbn. rewrite Hstop. auto.
Qed.

(** ** The end of the buffer *)

(** C1, as the code has it: with looping off, a turn that finds the cursor
    at or past the end of the buffer stops the video and empties the
    buffer, and then, not being paused, still indexes the emptied buffer at
    position 0. *)
Theorem overrun_reads_cleared_buffer (s : GazeboRosVideo) :
  stop_video_ s = false -> new_video_available_ s = false ->
  buffering s = true -> loop_video_ s = false ->
  video_paused_ s = false ->
  in_unit (video_seek_position_ s) = false ->
  (N.of_nat (List.length (video_frames_ s)) <= current_buffered_frame_ s)%N ->
  exec VideoThread_iter s = Faulted (vector_out_of_range 0%N 0%nat).
Proof.
  intros Hstop Hnew Hbuf Hloop Hp Hu Hcur.
  rewrite exec_tick, Hstop, Hnew. cbn [andb]. rewrite Hbuf.
  rewrite exec_play_buffered, exec_seek_buffered, Hu, exec_wrap_buffered.
  apply N.leb_le in Hcur. rewrite Hcur, Hloop.
  rewrite exec_show_buffered. proj_simpl. rewrite Hp. reflexivity.
Qed.

(** C9, as the code has it: in buffering mode with looping off, a paused
    turn that finds the cursor at the end of the buffer stops the video,
    empties the buffer and replaces the frame in the slot by an all-zero
    frame marked new, although nothing was pending. *)
Theorem paused_at_end_of_buffer_clears_display (s : GazeboRosVideo) :
  stop_video_ s = false -> new_video_available_ s = false ->
  buffering s = true -> loop_video_ s = false ->
  video_paused_ s = true ->
  in_unit (video_seek_position_ s) = false ->
  (N.of_nat (List.length (video_frames_ s)) <= current_buffered_frame_ s)%N ->
  exists s',
    exec VideoThread_iter s = Done tt s'
    /\ stop_video_ s' = true
    /\ image_ s' = Some (zeros (height_ (video_visual_ s)) (width_ (video_visual_ s)))
    /\ new_image_available_ s' = true
    /\ video_frames_ s' = [].
Proof.
  intros Hstop Hnew Hbuf Hloop Hp Hu Hcur.
  rewrite exec_tick, Hstop, Hnew. cbn [andb]. rewrite Hbuf.
  rewrite exec_play_buffered, exec_seek_buffered, Hu, exec_wrap_buffered.
  apply N.leb_le in Hcur. rewrite Hcur, Hloop.
  rewrite exec_show_buffered. proj_simpl. rewrite Hp. cbn [orb negb].
  eexists. split; [reflexivity|]. proj_simpl. auto.
Qed.

(** * Further properties of the handlers *)

(** ** Rendering *)

Lemma flat_map_bytes_zero (n : nat) :
  flat_map bytes_of (repeat (x00, x00, x00, x00) n) = repeat x00 (4 * n).
Proof.
  induction n as [| n IH]; [reflexivity|].
  cbn [repeat flat_map bytes_of app]. rewrite IH.
  replace (4 * S n)%nat with (S (S (S (S (4 * n))))) by lia. reflexivity.
Qed.

Lemma render_zeros (v : VideoVisual) :
  VideoVisual_render v (zeros (height_ v) (width_ v)) = VideoVisual_clearImage v.
Proof.
  unfold VideoVisual_render, VideoVisual_clearImage, render_source, memcpy_pixels, zeros.
  cbn [rows cols data]. rewrite !Z.eqb_refl. cbn [negb orb data].
  rewrite firstn_all2 by (rewrite repeat_length; lia).
  rewrite flat_map_bytes_zero. f_equal. f_equal. lia.
Qed.

(** X1: clearing the slot and sampling it gives the texture exactly the
    content [VideoVisual::clearImage] writes: [height * width * 4] zero
    bytes, whatever was shown before. *)
Theorem cleared_slot_renders_all_zero (s : GazeboRosVideo) :
  exists s',
    exec (clearImage ;; UpdateChild) s = Done tt s'
    /\ video_visual_ s' = VideoVisual_clearImage (video_visual_ s)
    /\ texture (video_visual_ s')
       = repeat x00 (Z.to_nat (height_ (video_visual_ s)
                               * width_ (video_visual_ s) * 4))
    /\ new_image_available_ s' = false.
Proof.
  rewrite exec_bind, exec_clearImage. unfold UpdateChild.
  cbn [bind lock get exec]. proj_simpl. cbn [bind write exec unlock].
  eexists. split; [reflexivity|]. proj_simpl.
  rewrite render_zeros. auto.
Qed.

Lemma set_new_image_available_same (s : GazeboRosVideo) :
  set_new_image_available_ (new_image_available_ s) s = s.
Proof. destruct s; reflexivity. Qed.

(** X2: the render callback consumes the frame once.  After it has run, a
    second run with no write in between returns the plugin unchanged: the
    stale frame is not copied again. *)
Theorem render_twice_is_render_once (s s1 : GazeboRosVideo) :
  exec UpdateChild s = Done tt s1 ->
  new_image_available_ s1 = false /\ exec UpdateChild s1 = Done tt s1.
Proof.
  unfold UpdateChild. cbn [bind lock get exec].
  assert (Hclear : forall s0,
            exec (write (set_new_image_available_ false) ;; unlock m_image_) s0
            = Done tt (set_new_image_available_ false s0)) by reflexivity.
  intros H.
  assert (Hflag : new_image_available_ s1 = false).
  { destruct (new_image_available_ s).
    - destruct (image_ s); [|discriminate]. cbn in H. injection H as <-. reflexivity.
    - cbn in H. injection H as <-. reflexivity. }
  split; [exact Hflag|].
  rewrite Hflag. cbn [bind ret write unlock exec].
  rewrite <- Hflag at 1. rewrite set_new_image_available_same. reflexivity.
Qed.

(** ** Faults of the loop body *)

Lemma nth_error_in_range {A} (l : list A) (n : N) :
  (n < N.of_nat (List.length l))%N -> exists a, nth_error l (N.to_nat n) = Some a.
Proof.
  intros H. destruct (nth_error l (N.to_nat n)) as [a |] eqn:E; [eauto|].
  apply nth_error_None in E. lia.
Qed.

Lemma play_buffered_fault (s : GazeboRosVideo) (e : fault) :
  buffering s = true -> exec play_buffered s = Faulted e ->
  e = vector_out_of_range 0%N 0%nat /\ loop_video_ s = false.
Proof.
  intros Hbuf. unfold buffering in Hbuf. apply andb_true_iff in Hbuf.
  destruct Hbuf as [_ Hne].
  rewrite exec_play_buffered, exec_seek_buffered.
  assert (Hwrap : forall b s1,
    video_frames_ s1 = video_frames_ s -> loop_video_ s1 = loop_video_ s ->
    match exec wrap_buffered s1 with
    | Done _ s2 => exec (show_buffered b) s2
    | Faulted e' => Faulted e'
    end = Faulted e ->
    e = vector_out_of_range 0%N 0%nat /\ loop_video_ s = false).
  { intros b s1 Hfr Hlo. rewrite exec_wrap_buffered, Hfr, Hlo.
    destruct (N.of_nat (List.length (video_frames_ s)) <=? current_buffered_frame_ s1)%N
      eqn:Ecmp; [destruct (loop_video_ s) |];
      rewrite exec_show_buffered; proj_simpl; rewrite ?Hfr.
    - destruct (b || negb (video_paused_ s1)); [|discriminate].
      destruct (video_frames_ s); [discriminate | cbn; discriminate].
    - destruct (b || negb (video_paused_ s1)); [|discriminate].
      cbn. intros H. injection H as <-. auto.
    - destruct (b || negb (video_paused_ s1)); [|discriminate].
      apply N.leb_gt in Ecmp.
      destruct (nth_error_in_range _ _ Ecmp) as [a Ea]. rewrite Ea. discriminate. }
  destruct (in_unit (video_seek_position_ s)); apply Hwrap; reflexivity.
Qed.

Lemma play_stream_no_fault (s : GazeboRosVideo) (e : fault) :
  exec play_stream s <> Faulted e.
Proof.
  rewrite exec_play_stream, exec_seek_stream.
  assert (Hshow : forall b s1, exec (show_stream b) s1 <> Faulted e).
  { intros b s1. rewrite exec_show_stream.
    destruct (b || negb (video_paused_ s1)); [|discriminate].
    destruct (read (cap s1)) as [[frame |] c]; [destruct (empty frame) |];
      rewrite ?exec_end_of_stream, ?exec_updateImage; proj_simpl;
      try destruct (loop_video_ s1); discriminate. }
  destruct (in_unit (video_seek_position_ s)); apply Hshow.
Qed.

Lemma opened_flags (s : GazeboRosVideo) :
  loop_video_ (opened s) = loop_video_ s
  /\ buffer_all_frames_for_fast_seek_ (opened s) = buffer_all_frames_for_fast_seek_ s
  /\ video_path_ (opened s) = video_path_ s
  /\ stop_video_ (opened s) = stop_video_ s
  /\ video_paused_ (opened s) = video_paused_ s
  /\ video_seek_position_ (opened s) = video_seek_position_ s
  /\ new_video_available_ (opened s) = false
  /\ new_image_available_ (opened s) = true.
Proof.
  unfold opened.
  destruct (buffer_all_frames_for_fast_seek_ s) eqn:E;
    [destruct (isOpened (cap_open (video_path_ s))) |];
    proj_simpl; rewrite ?E; auto 10.
Qed.

Lemma tick_fault_inv (s : GazeboRosVideo) (e : fault) :
  exec VideoThread_iter s = Faulted e ->
  e = vector_out_of_range 0%N 0%nat
  /\ loop_video_ s = false
  /\ buffer_all_frames_for_fast_seek_ s = true
  /\ stop_video_ s = false.
Proof.
  rewrite exec_tick. destruct (stop_video_ s); [discriminate|].
  assert (Hbranch : forall s1,
    (if buffering s1 then exec play_buffered s1
     else if isOpened (cap s1) then exec play_stream s1 else Done tt s1)
    = Faulted e ->
    e = vector_out_of_range 0%N 0%nat /\ loop_video_ s1 = false
    /\ buffer_all_frames_for_fast_seek_ s1 = true).
  { intros s1. destruct (buffering s1) eqn:Hb.
    - intros H. destruct (play_buffered_fault s1 e Hb H) as [He Hl].
      unfold buffering in Hb. apply andb_true_iff in Hb. tauto.
    - destruct (isOpened (cap s1)); [|discriminate].
      intros H. exfalso. exact (play_stream_no_fault s1 e H). }
  destruct (new_video_available_ s && negb (is_empty (video_path_ s))); intros H.
  - rewrite exec_open_new_video in H. apply Hbranch in H.
    destruct (opened_flags s) as [Hl [Hb _]]. rewrite Hl, Hb in H. tauto.
  - apply Hbranch in H. tauto.
Qed.

(** X3: the only fault of the playback loop is the one of C1.  Whenever a
    turn indexes outside the buffer, it is index 0 of the buffer it has just
    emptied, in buffering mode with looping off; with looping on, without
    buffering, or when the video is stopped, every turn completes. *)
Theorem only_fault_is_the_cleared_buffer (s : GazeboRosVideo) :
  (forall e,
     exec VideoThread_iter s = Faulted e ->
     e = vector_out_of_range 0%N 0%nat
     /\ loop_video_ s = false
     /\ buffer_all_frames_for_fast_seek_ s = true
     /\ stop_video_ s = false)
  /\ (loop_video_ s = true \/ buffer_all_frames_for_fast_seek_ s = false
      \/ stop_video_ s = true ->
      exists s', exec VideoThread_iter s = Done tt s').
Proof.
  split; [intros e; apply tick_fault_inv|].
  intros H. destruct (exec VideoThread_iter s) as [[] s' | e] eqn:E.
  - exists s'. reflexivity.
  - apply tick_fault_inv in E. destruct E as [_ [Hl [Hb Hs]]].
    destruct H as [H | [H | H]]; congruence.
Qed.

(** ** The slot is never rendered empty *)

Lemma slot_step_refl (s : GazeboRosVideo) : slot_step s s.
Proof. left. auto. Qed.

Lemma slot_step_trans (s1 s2 s3 : GazeboRosVideo) :
  slot_step s1 s2 -> slot_step s2 s3 -> slot_step s1 s3.
Proof.
  intros [[Hi Hn] | [im Him]] [[Hi' Hn'] | [im' Him']].
  - left. split; congruence.
  - right. eauto.
  - right. exists im. congruence.
  - right. eauto.
Qed.

Lemma slot_step_ok (s s' : GazeboRosVideo) :
  slot_ok s -> slot_step s s' -> slot_ok s'.
Proof.
  unfold slot_ok. intros Hok [[Hi Hn] | [im Him]] Hd.
  - rewrite Hi. apply Hok. congruence.
  - rewrite Him. discriminate.
Qed.

Lemma play_buffered_step (s s' : GazeboRosVideo) :
  exec play_buffered s = Done tt s' -> slot_step s s'.
Proof.
  rewrite exec_play_buffered, exec_seek_buffered.
  assert (Hshow : forall b s1,
            exec (show_buffered b) s1 = Done tt s' -> slot_step s1 s').
  { intros b s1. rewrite exec_show_buffered.
    destruct (b || negb (video_paused_ s1)).
    - destruct (nth_error _ _); [|discriminate].
      rewrite exec_updateImage. intros H. injection H as <-.
      right. proj_simpl. eauto.
    - intros H. injection H as <-. apply slot_step_refl. }
  assert (Hwrap : forall b s1,
            match exec wrap_buffered s1 with
            | Done _ s2 => exec (show_buffered b) s2
            | Faulted e => Faulted e
            end = Done tt s' -> slot_step s1 s').
  { intros b s1. rewrite exec_wrap_buffered.
    destruct (_ <=? _)%N; [destruct (loop_video_ s1) |]; intros H;
      apply Hshow in H.
    - eapply slot_step_trans; [|exact H]. left. split; reflexivity.
    - eapply slot_step_trans; [|exact H]. right. proj_simpl. eauto.
    - exact H. }
  destruct (in_unit (video_seek_position_ s)); intros H; apply Hwrap in H.
  - eapply slot_step_trans; [|exact H]. left. split; reflexivity.
  - exact H.
Qed.

Lemma play_stream_step (s s' : GazeboRosVideo) :
  exec play_stream s = Done tt s' -> slot_step s s'.
Proof.
  rewrite exec_play_stream, exec_seek_stream.
  assert (Hshow : forall b s1,
            exec (show_stream b) s1 = Done tt s' -> slot_step s1 s').
  { intros b s1. rewrite exec_show_stream.
    destruct (b || negb (video_paused_ s1)).
    - destruct (read (cap s1)) as [[frame |] c]; [destruct (empty frame) |];
        rewrite ?exec_end_of_stream, ?exec_updateImage; proj_simpl;
        try destruct (loop_video_ s1); intros H; injection H as <-;
        first [ left; split; reflexivity | right; proj_simpl; eauto ].
    - intros H. injection H as <-. apply slot_step_refl. }
  destruct (in_unit (video_seek_position_ s)); intros H; apply Hshow in H.
  - eapply slot_step_trans; [|exact H]. left. split; reflexivity.
  - exact H.
Qed.

Lemma tick_slot_step (s s' : GazeboRosVideo) :
  exec VideoThread_iter s = Done tt s' -> slot_step s s'.
Proof.
  rewrite exec_tick. destruct (stop_video_ s).
  { intros H. injection H as <-. apply slot_step_refl. }
  assert (Hbranch : forall s1,
    (if buffering s1 then exec play_buffered s1
     else if isOpened (cap s1) then exec play_stream s1 else Done tt s1)
    = Done tt s' -> slot_step s1 s').
  { intros s1. destruct (buffering s1); [apply play_buffered_step|].
    destruct (isOpened (cap s1)); [apply play_stream_step|].
    intros H. injection H as <-. apply slot_step_refl. }
  destruct (new_video_available_ s && negb (is_empty (video_path_ s))); intros H.
  - rewrite exec_open_new_video in H. apply Hbranch in H.
    eapply slot_step_trans; [|exact H]. right.
    destruct (opened_slot s) as [_ Hi]. eauto.
  - apply Hbranch in H. exact H.
Qed.

(** Every handler keeps the slot renderable and none dereferences a null
    image. *)
Lemma handle_slot_ok (e : Event) (s : GazeboRosVideo) :
  slot_ok s ->
  match exec (handle e) s with
  | Done _ s' => slot_ok s'
  | Faulted f => f <> null_pointer
  end.
Proof.
  intros Hok. destruct e as [msg | str | str | v | b | | ]; cbn [handle].
  - cbn. intros _. discriminate.
  - unfold processImagePath. destruct (is_empty str); cbn; intros _; discriminate.
  - unfold processVideoPath. cbn [bind lock get write exec]. proj_simpl.
    destruct (is_empty str); cbn; [intros _; discriminate | exact Hok].
  - exact Hok.
  - unfold processVideoPause. cbn [bind lock get exec].
    destruct (negb (stop_video_ s)); exact Hok.
  - destruct (exec VideoThread_iter s) as [[] s' | f] eqn:E.
    + eapply slot_step_ok; [exact Hok | apply tick_slot_step; exact E].
    + apply tick_fault_inv in E.
      destruct E as [-> _]. discriminate.
  - unfold UpdateChild. cbn [bind lock get exec].
    destruct (new_image_available_ s) eqn:En.
    + destruct (image_ s) eqn:Ei; [|exfalso; exact (Hok En Ei)].
      cbn. unfold slot_ok. cbn. discriminate.
    + cbn. unfold slot_ok. cbn. discriminate.
Qed.

Lemma run_slot_ok (evs : list Event) : forall s,
  slot_ok s -> run evs s <> Faulted null_pointer.
Proof.
  induction evs as [| e evs IH]; intros s Hok; cbn [run]; [discriminate|].
  pose proof (handle_slot_ok e s Hok) as H.
  destruct (exec (handle e) s) as [[] s' | f].
  - apply IH. exact H.
  - congruence.
Qed.

Lemma exec_processImagePath (str : string) (s : GazeboRosVideo) :
  exec (processImagePath str) s
  = Done tt (set_stop_video_ true
               (set_new_image_available_ true
                  (set_image_
                     (Some (if is_empty str || empty (imread str)
                            then zeros (height_ (video_visual_ s))
                                       (width_ (video_visual_ s))
                            else cvtColor_BGR2BGRA (imread str))) s))).
Proof.
  unfold processImagePath. destruct (is_empty str); [reflexivity|].
  rewrite exec_bind, exec_updateImage. reflexivity.
Qed.

Lemma resolve_nonempty (element : option string) (path : string) :
  resolve element = Some path -> is_empty path = false.
Proof.
  unfold resolve. destruct element as [p |]; [|discriminate].
  destruct (is_empty p); [discriminate|].
  destruct (is_empty (FindFileURI p)) eqn:E; [discriminate|]. congruence.
Qed.

Lemma exec_Load (sdf : Sdf) (s : GazeboRosVideo) :
  exec (Load sdf) s
  = match exec match resolve (sdf_defaultVideoPath sdf) with
               | Some path => processVideoPath path
               | None => ret tt
               end (load_scalars sdf s) with
    | Done _ s2 =>
      match exec (match resolve (sdf_defaultImagePath sdf) with
        | Some path =>
            if empty (imread path) then abort null_pointer
            else processImagePath path
        | None => ret tt
        end) s2 with
      | Done _ s3 => Done tt (load_visual sdf s3)
      | Faulted e => Faulted e
      end
    | Faulted e => Faulted e
    end.
Proof.
  unfold Load. cbn [bind write exec]. rewrite exec_bind.
  match goal with |- context [exec _ ?st] =>
    replace st with (load_scalars sdf s)
  end.
  - destruct (exec (match resolve (sdf_defaultVideoPath sdf) with _ => _ end) _) as [[] s2|]; [|reflexivity].
    rewrite exec_bind.
    destruct (exec (match resolve (sdf_defaultImagePath sdf) with _ => _ end) _) as [[] s3|]; reflexivity.
  - unfold load_scalars. destruct s.
    destruct (sdf_videoPaused sdf), (sdf_bufferAllFramesForFastSeek sdf); reflexivity.
Qed.

Lemma exec_default_video (sdf : Sdf) (s : GazeboRosVideo) :
  exec match resolve (sdf_defaultVideoPath sdf) with
       | Some path => processVideoPath path
       | None => ret tt
       end s
  = Done tt match resolve (sdf_defaultVideoPath sdf) with
            | Some path =>
                set_new_video_available_ true
                  (set_stop_video_ false (set_video_path_ path s))
            | None => s
            end.
Proof.
  destruct (resolve (sdf_defaultVideoPath sdf)) as [path |] eqn:E; [|reflexivity].
  apply exec_processVideoPath_nonempty. eapply resolve_nonempty. exact E.
Qed.

Lemma load_slot_ok (sdf : Sdf) (indeterminate : bool) (s0 : GazeboRosVideo) :
  exec (Load sdf) (constructed indeterminate) = Done tt s0 -> slot_ok s0.
Proof.
  rewrite exec_Load, exec_default_video.
  set (s2 := match resolve (sdf_defaultVideoPath sdf) with
             | Some _ => _ | None => _ end).
  assert (Hn2 : new_image_available_ s2 = false)
    by (unfold s2; destruct (resolve (sdf_defaultVideoPath sdf)); reflexivity).
  clearbody s2.
  destruct (resolve (sdf_defaultImagePath sdf)) as [path |].
  - destruct (empty (imread path)) eqn:Ee; [discriminate|].
    rewrite exec_processImagePath.
    intros H. injection H as <-. unfold slot_ok, load_visual. proj_simpl. discriminate.
  - cbn [ret exec]. intros H. injection H as <-.
    unfold slot_ok, load_visual. proj_simpl. congruence.
Qed.

(** X4: a plugin that [Load] has set up never dereferences a null image:
    whatever commands, turns of the playback loop and render callbacks
    follow, [UpdateChild] finds an image in the slot whenever the slot is
    marked new. *)
Theorem loaded_plugin_never_renders_null
        (sdf : Sdf) (indeterminate : bool) (s0 : GazeboRosVideo)
        (evs : list Event) :
  exec (Load sdf) (constructed indeterminate) = Done tt s0 ->
  run evs s0 <> Faulted null_pointer.
Proof.
  intros H. apply run_slot_ok. eapply load_slot_ok. exact H.
Qed.

(** ** Loading *)

Lemma run_ticks_idle (n : nat) (s : GazeboRosVideo) :
  exec VideoThread_iter s = Done tt s -> run (repeat EvTick n) s = Done tt s.
Proof.
  intros H. induction n as [| n IH]; cbn [repeat run handle]; [reflexivity|].
  rewrite H. exact IH.
Qed.

(** X5: when both a default video and a default image are configured and
    the image can be read, the plugin comes out of [Load] stopped, showing
    the image: [processImagePath] runs after [processVideoPath] and sets the
    stop flag, so the default video is never played by the loop. *)
Theorem default_image_overrides_default_video
        (sdf : Sdf) (indeterminate : bool) (video image : string) :
  resolve (sdf_defaultVideoPath sdf) = Some video ->
  resolve (sdf_defaultImagePath sdf) = Some image ->
  empty (imread image) = false ->
  exists s0,
    exec (Load sdf) (constructed indeterminate) = Done tt s0
    /\ stop_video_ s0 = true
    /\ video_path_ s0 = video
    /\ new_video_available_ s0 = true
    /\ image_ s0 = Some (cvtColor_BGR2BGRA (imread image))
    /\ new_image_available_ s0 = true
    /\ forall n, run (repeat EvTick n) s0 = Done tt s0.
Proof.
  intros Hv Hi He.
  rewrite exec_Load, exec_default_video, Hv, Hi, He, exec_processImagePath, He.
  rewrite (resolve_nonempty _ _ Hi). cbn [orb].
  eexists. split; [reflexivity|].
  unfold load_visual. proj_simpl. repeat (split; [reflexivity|]).
  intros n. apply run_ticks_idle. apply tick_stopped. reflexivity.
Qed.


(** X7: [new_video_available_] is not initialised by [Load].  Without a
    default video this does no harm: the path is empty, so whatever value
    the flag has the playback loop opens nothing and every turn returns the
    plugin unchanged. *)
Theorem indeterminate_flag_is_harmless
        (sdf : Sdf) (indeterminate : bool) (s0 : GazeboRosVideo) (n : nat) :
  resolve (sdf_defaultVideoPath sdf) = None ->
  exec (Load sdf) (constructed indeterminate) = Done tt s0 ->
  new_video_available_ s0 = indeterminate
  /\ video_path_ s0 = EmptyString
  /\ run (repeat EvTick n) s0 = Done tt s0.
Proof.
  intros Hv. rewrite exec_Load, exec_default_video, Hv.
  assert (Htick : forall s3,
            video_path_ s3 = EmptyString -> video_frames_ s3 = [] ->
            isOpened (cap s3) = false ->
            exec VideoThread_iter (load_visual sdf s3) = Done tt (load_visual sdf s3)).
  { intros s3 Hp Hf Hc. rewrite exec_tick. unfold load_visual. proj_simpl.
    rewrite Hp. cbn [is_empty negb]. rewrite andb_false_r.
    unfold buffering. proj_simpl. rewrite Hf, Hc. cbn [negb].
    rewrite andb_false_r. destruct (stop_video_ s3); reflexivity. }
  destruct (resolve (sdf_defaultImagePath sdf)) as [path |].
  - destruct (empty (imread path)); [discriminate|].
    rewrite exec_processImagePath. intros H. injection H as <-.
    split; [reflexivity|]. split; [reflexivity|].
    apply run_ticks_idle, Htick; reflexivity.
  - cbn [ret exec]. intros H. injection H as <-.
    split; [reflexivity|]. split; [reflexivity|].
    apply run_ticks_idle, Htick; reflexivity.
Qed.

(** ** Pausing *)

(** X8: while paused with nothing pending (no seek in [0,1], no new path)
    and, in buffering mode, the cursor inside the buffer, any number of
    turns of the playback loop return the plugin unchanged. *)
Theorem paused_playback_is_idle (s : GazeboRosVideo) (n : nat) :
  playing s -> video_paused_ s = true ->
  (buffering s = true ->
   (current_buffered_frame_ s < N.of_nat (List.length (video_frames_ s)))%N) ->
  run (repeat EvTick n) s = Done tt s.
Proof.
  intros [Hs [Hn Hu]] Hp Hc. apply run_ticks_idle.
  apply paused_tick_noop; assumption.
Qed.


(** ** Paths that cannot be read *)

(** X10: an image path whose file cannot be read is treated like the empty
    path: the slot is cleared to an all-zero frame of the texture's size and
    the video is stopped. *)
Theorem unreadable_image_path_clears_display (str : string) (s : GazeboRosVideo) :
  empty (imread str) = true ->
  exec (processImagePath str) s = exec (processImagePath EmptyString) s
  /\ exists s',
       exec (processImagePath str) s = Done tt s'
       /\ image_ s' = Some (zeros (height_ (video_visual_ s))
                                  (width_ (video_visual_ s)))
       /\ new_image_available_ s' = true
       /\ stop_video_ s' = true.
Proof.
  intros He. rewrite !exec_processImagePath, He, orb_true_r. cbn [is_empty orb].
  split; [reflexivity|]. eexists. split; [reflexivity|]. proj_simpl. auto.
Qed.

(** X11: a video path that cannot be opened is not an error: the turn that
    tries it clears the slot, leaves the capture closed and the video not
    stopped, and every later turn returns the plugin unchanged. *)
Theorem unopenable_video_clears_and_idles (s : GazeboRosVideo) :
  stop_video_ s = false -> new_video_available_ s = true ->
  is_empty (video_path_ s) = false ->
  video_file (video_path_ s) = None ->
  exists s',
    exec VideoThread_iter s = Done tt s'
    /\ image_ s' = Some (zeros (height_ (video_visual_ s)) (width_ (video_visual_ s)))
    /\ new_image_available_ s' = true
    /\ isOpened (cap s') = false
    /\ stop_video_ s' = false
    /\ forall n, run (repeat EvTick n) s' = Done tt s'.
Proof.
  intros Hs Hn Hp Hf.
  assert (Hopen : cap_open (video_path_ s) = closed)
    by (unfold cap_open; rewrite Hf; reflexivity).
  assert (Hb : buffering (opened s) = false /\ isOpened (cap (opened s)) = false
               /\ image_ (opened s)
                  = Some (zeros (height_ (video_visual_ s)) (width_ (video_visual_ s)))).
  { unfold buffering, opened. rewrite Hopen. cbn [isOpened closed].
    destruct (buffer_all_frames_for_fast_seek_ s) eqn:E; proj_simpl; rewrite ?E; auto. }
  destruct Hb as [Hb [Hc Hi]].
  destruct (opened_flags s) as [_ [_ [_ [Hst [_ [_ [Hnv Hni]]]]]]].
  assert (Htick : exec VideoThread_iter s = Done tt (opened s)).
  { rewrite exec_tick, Hs, Hn, Hp. cbn [negb andb].
    rewrite exec_open_new_video, Hb, Hc. reflexivity. }
  exists (opened s). split; [exact Htick|].
  repeat split; try assumption; try congruence.
  intros n. apply run_ticks_idle.
  rewrite exec_tick, Hst, Hs, Hnv. cbn [andb]. rewrite Hb, Hc. reflexivity.
Qed.

(** ** Starting and advancing playback *)

(** X12: opening a file in buffering mode reads it to its end: the buffer
    receives exactly the non-empty frames of the file, in order, each
    resized to the texture, the cursor is at 0, the capture is exhausted and
    the slot is cleared.  The loop that does it needs no more turns than the
    file has frames plus one. *)
Theorem new_video_is_buffered_whole (s : GazeboRosVideo) (frames : list (Mat bgr)) :
  buffer_all_frames_for_fast_seek_ s = true ->
  video_file (video_path_ s) = Some frames ->
  exists s',
    exec open_new_video s = Done tt s'
    /\ video_frames_ s'
       = map (fun f => resize_bgr f (width_ (video_visual_ s))
                                    (height_ (video_visual_ s)))
             (filter (fun f => negb (empty f)) frames)
    /\ buffer_normalized s'
    /\ (List.length (video_frames_ s') <= List.length frames)%nat
    /\ current_buffered_frame_ s' = 0%N
    /\ cap s' = mkCap true frames (List.length frames)
    /\ fst (read (cap s')) = None
    /\ image_ s' = Some (zeros (height_ (video_visual_ s)) (width_ (video_visual_ s)))
    /\ new_video_available_ s' = false.
Proof.
  intros Hb Hf. rewrite exec_open_new_video.
  exists (opened s). split; [reflexivity|].
  assert (Hopen : cap_open (video_path_ s) = mkCap true frames 0)
    by (unfold cap_open; rewrite Hf; reflexivity).
  assert (Hfr : video_frames_ (opened s) = buffered (video_visual_ s) frames).
  { unfold opened. rewrite Hb, Hopen. reflexivity. }
  split; [exact Hfr|]. split.
  { unfold buffer_normalized. rewrite Hfr.
    destruct (opened_slot s) as [-> _]. apply buffered_normalized. }
  split; [rewrite Hfr; apply buffered_length|].
  unfold opened. rewrite Hb, Hopen. cbn [isOpened stream]. proj_simpl.
  repeat split.
  unfold read. cbn [isOpened stream pos_frames].
  replace (nth_error frames (List.length frames)) with (@None (Mat bgr))
    by (symmetry; apply nth_error_None; lia).
  reflexivity.
Qed.

Lemma stream_tick (s : GazeboRosVideo) (frame : Mat bgr) :
  playing s -> streaming s = true -> video_paused_ s = false ->
  nth_error (stream (cap s)) (pos_frames (cap s)) = Some frame ->
  empty frame = false ->
  exec VideoThread_iter s
  = Done tt (set_new_image_available_ true
               (set_image_ (Some (cvtColor_BGR2BGRA frame))
                  (set_cap (mkCap true (stream (cap s)) (S (pos_frames (cap s)))) s))).
Proof.
  intros [Hs [Hn Hu]] Hstr Hp Hnth He.
  destruct (streaming_not_buffering s Hstr) as [Hb Hop].
  rewrite exec_tick, Hs, Hn. cbn [andb]. rewrite Hb, Hop.
  rewrite exec_play_stream, exec_seek_stream, Hu, exec_show_stream, Hp.
  cbn [orb negb]. unfold read. rewrite Hop, Hnth, He.
  rewrite exec_updateImage, He. reflexivity.
Qed.

(** X13: streaming playback shows the frames of the file in order.  From a
    playing, unpaused plugin whose capture stands at position [p], [k]
    turns of the loop advance the capture to [p + k], and the slot then
    holds frame [p + k - 1], colour-converted; no frame is skipped. *)
Theorem streaming_shows_frames_in_order (k : nat) : forall s,
  playing s -> streaming s = true -> video_paused_ s = false ->
  (pos_frames (cap s) + k <= List.length (stream (cap s)))%nat ->
  (forall f, In f (stream (cap s)) -> empty f = false) ->
  exists s',
    run (repeat EvTick k) s = Done tt s'
    /\ pos_frames (cap s') = (pos_frames (cap s) + k)%nat
    /\ stream (cap s') = stream (cap s)
    /\ stop_video_ s' = false
    /\ ((0 < k)%nat ->
        image_ s'
        = option_map cvtColor_BGR2BGRA
            (nth_error (stream (cap s)) (pos_frames (cap s) + k - 1))
        /\ new_image_available_ s' = true).
Proof.
  induction k as [| k IH]; intros s Hplay Hstr Hp Hlen Hne.
  - exists s. cbn [repeat run]. rewrite Nat.add_0_r.
    destruct Hplay as [Hs _]. repeat split; auto; lia.
  - destruct (nth_error (stream (cap s)) (pos_frames (cap s))) as [frame |] eqn:E;
      [| apply nth_error_None in E; lia].
    assert (Hef : empty frame = false) by (apply Hne; eapply nth_error_In; exact E).
    cbn [repeat run handle]. rewrite (stream_tick s frame) by assumption.
    set (s1 := set_new_image_available_ true _).
    destruct (IH s1) as [s' [Hrun [Hpos [Hstream [Hstop Himg]]]]].
    + destruct Hplay as [Hs [Hn Hu]]. repeat split; assumption.
    + revert Hstr. unfold streaming, s1. proj_simpl. cbn [isOpened].
      rewrite !andb_true_iff. tauto.
    + exact Hp.
    + unfold s1. proj_simpl. cbn [pos_frames stream]. lia.
    + exact Hne.
    + exists s'. split; [exact Hrun|].
      unfold s1 in Hpos, Hstream, Himg. proj_simpl. cbn [pos_frames stream] in *.
      split; [lia|]. split; [exact Hstream|]. split; [exact Hstop|].
      intros _. destruct k as [| k].
      * cbn [repeat run] in Hrun. injection Hrun as <-.
        replace (pos_frames (cap s) + 1 - 1)%nat with (pos_frames (cap s)) by lia.
        rewrite E. split; reflexivity.
      * destruct (Himg ltac:(lia)) as [Hi Hd].
        replace (pos_frames (cap s) + S (S k) - 1)%nat
          with (S (pos_frames (cap s)) + S k - 1)%nat by lia.
        auto.
Qed.

(** X14: a turn of buffered playback that is playing, not paused and has
    the cursor inside the buffer, or at its end with looping on, shows the
    frame under the cursor (frame 0 after wrapping) and leaves the cursor one
    past it. *)
Theorem buffered_tick_shows_cursor_frame (s : GazeboRosVideo) :
  playing s -> buffering s = true -> video_paused_ s = false ->
  (loop_video_ s = true
   \/ (current_buffered_frame_ s < N.of_nat (List.length (video_frames_ s)))%N) ->
  let shown :=
    if (N.of_nat (List.length (video_frames_ s)) <=? current_buffered_frame_ s)%N
    then 0%N else current_buffered_frame_ s in
  exists frame s',
    nth_error (video_frames_ s) (N.to_nat shown) = Some frame
    /\ exec VideoThread_iter s = Done tt s'
    /\ current_buffered_frame_ s' = (shown + 1)%N
    /\ image_ s'
       = Some (if empty frame
               then zeros (height_ (video_visual_ s)) (width_ (video_visual_ s))
               else cvtColor_BGR2BGRA frame)
    /\ new_image_available_ s' = true
    /\ video_frames_ s' = video_frames_ s
    /\ stop_video_ s' = false.
Proof.
  intros [Hs [Hn Hu]] Hb Hp Hloop shown.
  assert (Hne : (0 < N.of_nat (List.length (video_frames_ s)))%N).
  { unfold buffering in Hb. apply andb_true_iff in Hb. destruct Hb as [_ Hb].
    destruct (video_frames_ s); [discriminate | cbn; lia]. }
  assert (Hshown : (shown < N.of_nat (List.length (video_frames_ s)))%N).
  { unfold shown. destruct (_ <=? _)%N eqn:E; [exact Hne | apply N.leb_gt; exact E]. }
  destruct (nth_error_in_range _ _ Hshown) as [frame Hfr].
  exists frame.
  rewrite exec_tick, Hs, Hn. cbn [andb]. rewrite Hb.
  rewrite exec_play_buffered, exec_seek_buffered, Hu, exec_wrap_buffered.
  unfold shown in *. clear shown.
  destruct (N.of_nat (List.length (video_frames_ s)) <=? current_buffered_frame_ s)%N
    eqn:E.
  - destruct Hloop as [Hl | Hl]; [| apply N.leb_le in E; lia].
    rewrite Hl, exec_show_buffered. proj_simpl. rewrite Hp. cbn [orb negb].
    rewrite Hfr, exec_updateImage.
    eexists. split; [reflexivity|]. split; [reflexivity|]. proj_simpl. auto 10.
  - rewrite exec_show_buffered, Hp. cbn [orb negb].
    rewrite Hfr, exec_updateImage.
    eexists. split; [reflexivity|]. split; [reflexivity|]. proj_simpl. auto 10.
Qed.

(** X15: the first turn after a new video path, when the file opens, the
    plugin is not paused and no seek is pending.  Streaming, it shows the
    first frame of the file and leaves the capture at position 1; buffering,
    it shows the first buffered frame and leaves the cursor at 1.  The
    cleared frame written when the file is opened is never sampled. *)
Theorem first_tick_shows_first_frame
        (s : GazeboRosVideo) (path : string) (first : Mat bgr)
        (rest : list (Mat bgr)) :
  is_empty path = false ->
  video_file path = Some (first :: rest) -> empty first = false ->
  video_paused_ s = false -> in_unit (video_seek_position_ s) = false ->
  exists s1 s2,
    exec (processVideoPath path) s = Done tt s1
    /\ exec VideoThread_iter s1 = Done tt s2
    /\ new_image_available_ s2 = true
    /\ stop_video_ s2 = false
    /\ (buffer_all_frames_for_fast_seek_ s = false ->
        image_ s2 = Some (cvtColor_BGR2BGRA first)
        /\ cap s2 = mkCap true (first :: rest) 1)
    /\ (buffer_all_frames_for_fast_seek_ s = true ->
        image_ s2
        = Some (let b := resize_bgr first (width_ (video_visual_ s))
                                          (height_ (video_visual_ s)) in
                if empty b
                then zeros (height_ (video_visual_ s)) (width_ (video_visual_ s))
                else cvtColor_BGR2BGRA b)
        /\ current_buffered_frame_ s2 = 1%N).
Proof.
  intros Hpath Hfile Hne Hp Hu.
  rewrite exec_processVideoPath_nonempty by exact Hpath.
  set (s1 := set_new_video_available_ true _).
  exists s1.
  assert (Hopen : cap_open path = mkCap true (first :: rest) 0)
    by (unfold cap_open; rewrite Hfile; reflexivity).
  assert (Htick : exec VideoThread_iter s1
                  = if buffering (opened s1) then exec play_buffered (opened s1)
                    else exec play_stream (opened s1)).
  { rewrite exec_tick.
    change (stop_video_ s1) with false.
    change (new_video_available_ s1) with true.
    change (video_path_ s1) with path.
    rewrite Hpath. cbn [negb andb]. rewrite exec_open_new_video.
    destruct (buffering (opened s1)); [reflexivity|].
    replace (isOpened (cap (opened s1))) with true; [reflexivity|].
    unfold opened, s1. proj_simpl. rewrite Hopen. cbn [isOpened].
    destruct (buffer_all_frames_for_fast_seek_ s); reflexivity. }
  destruct (opened_flags s1) as [_ [_ [_ [Hst [Hpa [Hse _]]]]]].
  change (stop_video_ s1) with false in Hst.
  change (video_paused_ s1) with (video_paused_ s) in Hpa.
  change (video_seek_position_ s1) with (video_seek_position_ s) in Hse.
  destruct (buffer_all_frames_for_fast_seek_ s) eqn:Hflag.
  - assert (Hop : opened s1
                  = set_video_frames_
                      (buffered (video_visual_ s) (first :: rest))
                      (set_cap (mkCap true (first :: rest) (S (List.length rest)))
                         (set_current_buffered_frame_ 0%N
                            (set_video_frames_ []
                               (set_new_video_available_ false
                                  (set_cap (mkCap true (first :: rest) 0)
                                     (set_new_image_available_ true
                                        (set_image_
                                           (Some (zeros (height_ (video_visual_ s))
                                                        (width_ (video_visual_ s))))
                                           s1)))))))).
    { unfold opened, s1. proj_simpl. rewrite Hflag, Hopen. reflexivity. }
    assert (Hbuf : buffered (video_visual_ s) (first :: rest)
                   = resize_bgr first (width_ (video_visual_ s))
                                      (height_ (video_visual_ s))
                     :: buffered (video_visual_ s) rest).
    { rewrite buffered_cons, Hne. reflexivity. }
    assert (Hb : buffering (opened s1) = true).
    { rewrite Hop. unfold buffering. unfold s1; proj_simpl. rewrite Hflag, Hbuf. reflexivity. }
    rewrite Htick, Hb.
    rewrite exec_play_buffered, exec_seek_buffered, Hse, Hu, exec_wrap_buffered.
    rewrite ?Hop. unfold s1; proj_simpl. rewrite Hbuf.
    cbn [List.length N.of_nat N.leb N.compare].
    rewrite exec_show_buffered. unfold s1; proj_simpl. rewrite Hp. cbn [orb negb].
    cbn [N.to_nat nth_error].
    rewrite exec_updateImage.
    eexists. split; [reflexivity|]. split; [reflexivity|].
    proj_simpl. repeat split; try discriminate; auto.
  - assert (Hop : opened s1
                  = set_new_video_available_ false
                      (set_cap (mkCap true (first :: rest) 0)
                         (set_new_image_available_ true
                            (set_image_
                               (Some (zeros (height_ (video_visual_ s))
                                            (width_ (video_visual_ s))))
                               s1)))).
    { unfold opened, s1. unfold s1; proj_simpl. rewrite Hflag, Hopen. reflexivity. }
    assert (Hb : buffering (opened s1) = false).
    { rewrite Hop. unfold buffering. unfold s1; proj_simpl. rewrite Hflag. reflexivity. }
    rewrite Htick, Hb.
    rewrite exec_play_stream, exec_seek_stream, Hse, Hu, exec_show_stream, Hpa, Hp.
    cbn [orb negb]. rewrite Hop. unfold s1; proj_simpl.
    cbn [read isOpened stream pos_frames nth_error]. rewrite Hne.
    rewrite exec_updateImage, Hne.
    eexists. split; [reflexivity|]. split; [reflexivity|].
    unfold s1; proj_simpl. repeat split; try discriminate; auto.
Qed.

(** ** What every reachable state satisfies *)

Lemma buffered_nil (v : VideoVisual) (l : list (Mat bgr)) :
  buffered v l = [] -> forall f, In f l -> empty f = true.
Proof.
  unfold buffered. intros H f Hin.
  destruct (empty f) eqn:E; [reflexivity|]. exfalso.
  assert (Hf : In f (filter (fun f => negb (empty f)) l))
    by (apply filter_In; rewrite E; auto).
  apply (in_map (fun f => resize_bgr f (width_ v) (height_ v))) in Hf.
  rewrite H in Hf. exact Hf.
Qed.

Lemma opened_steady (s : GazeboRosVideo) :
  buffer_normalized s ->
  buffer_normalized (opened s) /\ stream_blank (opened s) /\ cap_on_path (opened s).
Proof.
  intros Hn. split; [apply opened_normalized; exact Hn|].
  unfold stream_blank, cap_on_path, opened.
  destruct (buffer_all_frames_for_fast_seek_ s) eqn:Hflag.
  - destruct (isOpened (cap_open (video_path_ s))) eqn:Hop; proj_simpl;
      cbn [stream isOpened].
    + split; [|reflexivity]. intros _ Hnil. apply buffered_nil with (v := video_visual_ s).
      exact Hnil.
    + split; [|congruence]. intros _ _ f Hin.
      unfold cap_open in *. destruct (video_file (video_path_ s)); [discriminate|].
      destruct Hin.
  - proj_simpl. rewrite Hflag. split; [discriminate | reflexivity].
Qed.

Lemma read_stream (c c' : VideoCapture) (fr : option (Mat bgr)) :
  read c = (fr, c') -> stream c' = stream c.
Proof.
  unfold read. destruct (isOpened c).
  - destruct (nth_error _ _); intros H; injection H as _ <-; reflexivity.
  - intros H; injection H as _ <-; reflexivity.
Qed.

Lemma stream_position_stream (s : GazeboRosVideo) :
  stream (stream_position s) = stream (cap s).
Proof. unfold stream_position. destruct (in_unit _); reflexivity. Qed.

(** The streaming branch never touches the buffer, the path or the flags;
    its capture keeps its stream or is reopened on the path; what it writes
    to the slot is a cleared frame or a non-empty frame of the stream. *)
Lemma play_stream_effect (s s' : GazeboRosVideo) :
  exec play_stream s = Done tt s' ->
  video_visual_ s' = video_visual_ s
  /\ video_frames_ s' = video_frames_ s
  /\ video_path_ s' = video_path_ s
  /\ buffer_all_frames_for_fast_seek_ s' = buffer_all_frames_for_fast_seek_ s
  /\ new_video_available_ s' = new_video_available_ s
  /\ (stream (cap s') = stream (cap s) \/ cap s' = cap_open (video_path_ s))
  /\ (image_ s' = image_ s
      \/ image_ s' = Some (zeros (height_ (video_visual_ s)) (width_ (video_visual_ s)))
      \/ exists frame, In frame (stream (cap s)) /\ empty frame = false
                       /\ In frame (stream (cap s'))
                       /\ image_ s' = Some (cvtColor_BGR2BGRA frame)).
Proof.
  rewrite exec_play_stream, exec_seek_stream.
  assert (Hshow : forall b s1,
    exec (show_stream b) s1 = Done tt s' ->
    video_visual_ s' = video_visual_ s1
    /\ video_frames_ s' = video_frames_ s1
    /\ video_path_ s' = video_path_ s1
    /\ buffer_all_frames_for_fast_seek_ s' = buffer_all_frames_for_fast_seek_ s1
    /\ new_video_available_ s' = new_video_available_ s1
    /\ (stream (cap s') = stream (cap s1) \/ cap s' = cap_open (video_path_ s1))
    /\ (image_ s' = image_ s1
        \/ image_ s' = Some (zeros (height_ (video_visual_ s1)) (width_ (video_visual_ s1)))
        \/ exists frame, In frame (stream (cap s1)) /\ empty frame = false
                         /\ In frame (stream (cap s'))
                         /\ image_ s' = Some (cvtColor_BGR2BGRA frame))).
  { intros b s1. rewrite exec_show_stream.
    destruct (b || negb (video_paused_ s1)).
    - destruct (read (cap s1)) as [[frame |] c] eqn:E;
        pose proof (read_stream _ _ _ E) as Hc;
        [destruct (empty frame) eqn:Ee |].
      + rewrite exec_end_of_stream. proj_simpl.
        destruct (loop_video_ s1); intros H; injection H as <-; proj_simpl;
          repeat (split; [reflexivity|]); auto.
      + rewrite exec_updateImage, Ee. intros H. injection H as <-. proj_simpl.
        repeat (split; [reflexivity|]). split; [auto|]. right. right.
        exists frame. destruct (read_In _ _ _ E) as [Hin Hs].
        rewrite <- Hs. auto.
      + rewrite exec_end_of_stream. proj_simpl.
        destruct (loop_video_ s1); intros H; injection H as <-; proj_simpl;
          repeat (split; [reflexivity|]); auto.
    - intros H. injection H as <-. repeat (split; [reflexivity|]). auto. }
  destruct (in_unit (video_seek_position_ s)) eqn:Hu; intros H; apply Hshow in H;
    proj_simpl; try rewrite !stream_position_stream in H; exact H.
Qed.

(** The buffering branch leaves the capture, the path and the flags alone;
    the buffer is kept, or emptied together with stopping the video. *)
Lemma play_buffered_effect (s s' : GazeboRosVideo) :
  exec play_buffered s = Done tt s' ->
  video_visual_ s' = video_visual_ s
  /\ cap s' = cap s
  /\ video_path_ s' = video_path_ s
  /\ buffer_all_frames_for_fast_seek_ s' = buffer_all_frames_for_fast_seek_ s
  /\ new_video_available_ s' = new_video_available_ s
  /\ (video_frames_ s' = video_frames_ s
      \/ (video_frames_ s' = [] /\ stop_video_ s' = true)).
Proof.
  rewrite exec_play_buffered, exec_seek_buffered.
  assert (Hshow : forall b s1,
    exec (show_buffered b) s1 = Done tt s' ->
    video_visual_ s' = video_visual_ s1 /\ cap s' = cap s1
    /\ video_path_ s' = video_path_ s1
    /\ buffer_all_frames_for_fast_seek_ s' = buffer_all_frames_for_fast_seek_ s1
    /\ new_video_available_ s' = new_video_available_ s1
    /\ video_frames_ s' = video_frames_ s1 /\ stop_video_ s' = stop_video_ s1).
  { intros b s1. rewrite exec_show_buffered.
    destruct (b || negb (video_paused_ s1)).
    - destruct (nth_error _ _); [|discriminate].
      rewrite exec_updateImage. intros H. injection H as <-. proj_simpl. auto 10.
    - intros H. injection H as <-. auto 10. }
  assert (Hwrap : forall b s1,
    match exec wrap_buffered s1 with
    | Done _ s2 => exec (show_buffered b) s2
    | Faulted e => Faulted e
    end = Done tt s' ->
    video_visual_ s' = video_visual_ s1 /\ cap s' = cap s1
    /\ video_path_ s' = video_path_ s1
    /\ buffer_all_frames_for_fast_seek_ s' = buffer_all_frames_for_fast_seek_ s1
    /\ new_video_available_ s' = new_video_available_ s1
    /\ (video_frames_ s' = video_frames_ s1
        \/ (video_frames_ s' = [] /\ stop_video_ s' = true))).
  { intros b s1. rewrite exec_wrap_buffered.
    destruct (_ <=? _)%N; [destruct (loop_video_ s1) |]; intros H;
      apply Hshow in H; proj_simpl;
      destruct H as [H1 [H2 [H3 [H4 [H5 [H6 H7]]]]]]; auto 10. }
  destruct (in_unit (video_seek_position_ s)); intros H; apply Hwrap in H;
    proj_simpl; exact H.
Qed.

Lemma tick_steady (s s' : GazeboRosVideo) :
  steady s -> exec VideoThread_iter s = Done tt s' -> steady s'.
Proof.
  intros [Hn Hrun] Hex. rewrite exec_tick in Hex.
  destruct (stop_video_ s) eqn:Hstop.
  { injection Hex as <-. split; [exact Hn|]. intros H; congruence. }
  fold (opens s) in Hex.
  assert (Hbranch : forall s1,
    buffer_normalized s1 -> stream_blank s1 -> cap_on_path s1 ->
    (if buffering s1 then exec play_buffered s1
     else if isOpened (cap s1) then exec play_stream s1 else Done tt s1)
    = Done tt s' -> steady s').
  { intros s1 Hn1 Hj Hk H.
    destruct (buffering s1) eqn:Hb.
    - apply play_buffered_effect in H.
      destruct H as [Hv [Hc [Hp [Hf [Hnv Hfr]]]]].
      split.
      + unfold buffer_normalized in *. rewrite Hv.
        destruct Hfr as [-> | [-> _]]; [exact Hn1 | constructor].
      + intros Hst _. split.
        * unfold stream_blank. rewrite Hf, Hc.
          destruct Hfr as [Hfr | [_ Hfr]]; [|congruence].
          rewrite Hfr. exact Hj.
        * unfold cap_on_path. rewrite Hc, Hp. exact Hk.
    - destruct (isOpened (cap s1)) eqn:Hop.
      + apply play_stream_effect in H.
        destruct H as [Hv [Hfr [Hp [Hf [Hnv [Hc _]]]]]].
        split.
        * unfold buffer_normalized in *. rewrite Hv, Hfr. exact Hn1.
        * intros _ _.
          assert (Hs : stream (cap s') = stream (cap s1)
                       /\ (isOpened (cap s') = true ->
                           stream (cap_open (video_path_ s1)) = stream (cap s'))).
          { destruct Hc as [Hc | Hc].
            - split; [exact Hc|]. intros _. rewrite Hc. apply Hk. exact Hop.
            - rewrite Hc. split; [apply Hk; exact Hop | reflexivity]. }
          destruct Hs as [Hs1 Hs2]. split.
          -- unfold stream_blank. rewrite Hf, Hfr, Hs1. exact Hj.
          -- unfold cap_on_path. rewrite Hp. exact Hs2.
      + injection H as <-. split; [exact Hn1|]. intros _ _. auto. }
  destruct (opens s) eqn:Ho.
  - rewrite exec_open_new_video in Hex.
    destruct (opened_steady s Hn) as [H1 [H2 H3]].
    eapply Hbranch; eassumption.
  - destruct (Hrun eq_refl eq_refl) as [Hj Hk].
    eapply Hbranch; eassumption.
Qed.

Lemma handle_steady (e : Event) (s s' : GazeboRosVideo) :
  steady s -> exec (handle e) s = Done tt s' -> steady s'.
Proof.
  intros Hst. destruct e as [msg | str | str | v | b | | ]; cbn [handle].
  - intros H. injection H as <-. destruct Hst as [Hn _].
    split; [exact Hn | intros H; discriminate H].
  - rewrite exec_processImagePath. intros H. injection H as <-.
    destruct Hst as [Hn _]. split; [exact Hn | intros H; discriminate H].
  - destruct (is_empty str) eqn:Es.
    + unfold processVideoPath. cbn [bind lock get write exec]. proj_simpl.
      rewrite Es. intros H. injection H as <-. destruct Hst as [Hn _].
      split; [exact Hn | intros H; discriminate H].
    + rewrite exec_processVideoPath_nonempty by exact Es.
      intros H. injection H as <-. destruct Hst as [Hn _].
      split; [exact Hn|]. unfold opens. proj_simpl. rewrite Es.
      intros _ H. discriminate H.
  - intros H. injection H as <-. exact Hst.
  - unfold processVideoPause. cbn [bind lock get exec].
    destruct (negb (stop_video_ s)); intros H; injection H as <-; exact Hst.
  - apply tick_steady. exact Hst.
  - unfold UpdateChild. cbn [bind lock get exec].
    destruct (new_image_available_ s).
    + destruct (image_ s); [|discriminate].
      intros H. injection H as <-. exact Hst.
    + intros H. injection H as <-. exact Hst.
Qed.

Lemma run_steady (evs : list Event) : forall s s',
  steady s -> run evs s = Done tt s' -> steady s'.
Proof.
  induction evs as [| e evs IH]; intros s s' Hst; cbn [run].
  - intros H. injection H as <-. exact Hst.
  - destruct (exec (handle e) s) as [[] s1 |] eqn:E; [|discriminate].
    apply IH. eapply handle_steady; eassumption.
Qed.

Lemma load_steady (sdf : Sdf) (indeterminate : bool) (s0 : GazeboRosVideo) :
  exec (Load sdf) (constructed indeterminate) = Done tt s0 -> steady s0.
Proof.
  rewrite exec_Load, exec_default_video.
  set (s2 := match resolve (sdf_defaultVideoPath sdf) with
             | Some _ => _ | None => _ end).
  assert (H2 : video_frames_ s2 = [] /\ cap s2 = closed)
    by (unfold s2; destruct (resolve (sdf_defaultVideoPath sdf)); split; reflexivity).
  clearbody s2. destruct H2 as [Hf Hc].
  assert (Hfin : forall s3, video_frames_ s3 = [] -> cap s3 = closed ->
                            steady (load_visual sdf s3)).
  { intros s3 Hf3 Hc3. unfold steady, buffer_normalized, stream_blank, cap_on_path,
      load_visual. proj_simpl. rewrite Hf3, Hc3. cbn [isOpened stream closed].
    split; [constructor|]. intros _ _. split; [intros _ _ f []| discriminate]. }
  destruct (resolve (sdf_defaultImagePath sdf)) as [path |].
  - destruct (empty (imread path)); [discriminate|].
    rewrite exec_processImagePath. intros H. injection H as <-.
    apply Hfin; assumption.
  - cbn [ret exec]. intros H. injection H as <-. apply Hfin; assumption.
Qed.

(** ** Size of the frame a turn writes *)

(** C3, as the code has it.  Take any state the plugin reaches from [Load]
    by handlers that return, and one more turn of the playback loop.  With
    frame buffering configured (bufferAllFramesForFastSeek), whatever the
    turn writes into the slot has the configured (height, width): it is a
    buffered frame, resized when it was buffered, or a cleared frame.
    Without buffering the turn may also write a non-empty frame of the
    capture that was only colour-converted, so that it keeps the size it has
    in the file.  The size is corrected when the slot is rendered: the image
    copied to the texture always has the texture's size. *)
Theorem slot_is_resized_when_buffered_or_rendered
        (sdf : Sdf) (indeterminate : bool) (evs : list Event)
        (s0 s s' : GazeboRosVideo) :
  exec (Load sdf) (constructed indeterminate) = Done tt s0 ->
  run evs s0 = Done tt s ->
  exec VideoThread_iter s = Done tt s' ->
  (buffer_all_frames_for_fast_seek_ s = true ->
   image_ s' = image_ s \/ has_texture_size (video_visual_ s) (image_ s'))
  /\ (buffer_all_frames_for_fast_seek_ s = false ->
      image_ s' = image_ s
      \/ has_texture_size (video_visual_ s) (image_ s')
      \/ exists frame, In frame (stream (cap s')) /\ empty frame = false
                       /\ image_ s' = Some (cvtColor_BGR2BGRA frame)
                       /\ rows (cvtColor_BGR2BGRA frame) = rows frame
                       /\ cols (cvtColor_BGR2BGRA frame) = cols frame)
  /\ forall image,
       rows (render_source (video_visual_ s') image) = height_ (video_visual_ s')
       /\ cols (render_source (video_visual_ s') image) = width_ (video_visual_ s').
Proof.
  intros HL Hrun Hex.
  assert (Hst : steady s).
  { eapply run_steady; [eapply load_steady; exact HL | exact Hrun]. }
  assert (Hrender : forall image,
    rows (render_source (video_visual_ s') image) = height_ (video_visual_ s')
    /\ cols (render_source (video_visual_ s') image) = width_ (video_visual_ s')).
  { intros image. unfold render_source.
    destruct (rows image =? height_ (video_visual_ s')) eqn:Er;
      destruct (cols image =? width_ (video_visual_ s')) eqn:Ec;
      cbn [negb orb]; try (split; reflexivity).
    apply Z.eqb_eq in Er, Ec. auto. }
  assert (Hturn :
    (buffer_all_frames_for_fast_seek_ s = true ->
     image_ s' = image_ s \/ has_texture_size (video_visual_ s) (image_ s'))
    /\ (image_ s' = image_ s
        \/ has_texture_size (video_visual_ s) (image_ s')
        \/ exists frame, In frame (stream (cap s')) /\ empty frame = false
                         /\ image_ s' = Some (cvtColor_BGR2BGRA frame))).
  { destruct Hst as [Hn Hsettled]. rewrite exec_tick in Hex.
    destruct (stop_video_ s) eqn:Hstop; [injection Hex as <-; auto|].
    fold (opens s) in Hex.
    assert (Hbranch : forall s1,
      buffer_normalized s1 -> stream_blank s1 ->
      (if buffering s1 then exec play_buffered s1
       else if isOpened (cap s1) then exec play_stream s1 else Done tt s1)
      = Done tt s' ->
      (buffer_all_frames_for_fast_seek_ s1 = true ->
       image_ s' = image_ s1 \/ has_texture_size (video_visual_ s1) (image_ s'))
      /\ (image_ s' = image_ s1
          \/ has_texture_size (video_visual_ s1) (image_ s')
          \/ exists frame, In frame (stream (cap s')) /\ empty frame = false
                           /\ image_ s' = Some (cvtColor_BGR2BGRA frame))).
    { intros s1 Hn1 Hblank H. destruct (buffering s1) eqn:Hb.
      - apply play_buffered_slot in H; [|exact Hn1].
        destruct H as [_ [H | H]]; auto.
      - destruct (isOpened (cap s1)).
        + apply play_stream_effect in H.
          destruct H as [_ [_ [_ [_ [_ [_ H]]]]]].
          destruct H as [H | [H | [frame [Hin [Hne [Hin' H]]]]]].
          * auto.
          * rewrite H. split; [intros _|]; right; [|left];
              apply zeros_has_texture_size.
          * split.
            -- intros Hflag. exfalso.
               unfold buffering in Hb. rewrite Hflag in Hb. cbn [andb] in Hb.
               destruct (video_frames_ s1) eqn:Hfr; [|discriminate Hb].
               rewrite (Hblank Hflag Hfr frame Hin) in Hne. discriminate Hne.
            -- right. right. exists frame. auto.
        + injection H as <-. auto. }
    destruct (opens s) eqn:Ho.
    - rewrite exec_open_new_video in Hex.
      destruct (opened_steady s Hn) as [H1 [H2 _]].
      apply Hbranch in Hex; [| exact H1 | exact H2].
      destruct (opened_slot s) as [Hv Hi].
      destruct (opened_flags s) as [_ [Hflag _]].
      rewrite Hv, Hi, Hflag in Hex.
      pose proof (zeros_has_texture_size (video_visual_ s)) as Hz.
      destruct Hex as [Ha Hb]. split.
      + intros Hf. destruct (Ha Hf) as [H | H]; [rewrite H|]; auto.
      + destruct Hb as [H | [H | H]]; [rewrite H| |]; auto.
    - destruct (Hsettled eq_refl eq_refl) as [Hj _].
      apply Hbranch in Hex; [exact Hex | exact Hn | exact Hj]. }
  destruct Hturn as [Hbuf Hany].
  split; [exact Hbuf|]. split; [|exact Hrender].
  intros _. destruct Hany as [H | [H | [frame [H1 [H2 H3]]]]]; auto.
  right. right. exists frame. repeat (split; [assumption|]). split; reflexivity.
Qed.

(** ** An image pushed during a turn *)

(** C8, as the code has it: an image pushed while the playback loop is
    inside a turn that is about to show a streamed frame is stored in the
    slot, but [processImage] then waits for the video mutex with the image
    mutex in its hands, while the loop owns the video mutex and waits for
    the image mutex.  No thread can take another step: the stop flag is
    still false, it is never set, and the render callback, which needs the
    image mutex, never samples the pushed image. *)
Theorem pushed_image_blocks_behind_playing_tick
        (s : GazeboRosVideo) (msg : Mat bgra) (frame : Mat bgr) (c : VideoCapture) :
  stop_video_ s = false -> new_video_available_ s = false ->
  streaming s = true -> video_paused_ s = false ->
  in_unit (video_seek_position_ s) = false ->
  read (cap s) = (Some frame, c) -> empty frame = false ->
  exists c',
    schedule [0; 0; 0; 0; 0; 0; 1; 1; 1]%nat
             (mkConfig s unowned [VideoThread_iter; processImage msg; UpdateChild])
    = Some c'
    /\ deadlocked c' = true
    /\ existsb finished (threads c') = false
    /\ (forall i order, schedule (i :: order) c' = None)
    /\ stop_video_ (shared c') = false
    /\ image_ (shared c') = Some msg
    /\ new_image_available_ (shared c') = true
    /\ video_visual_ (shared c') = video_visual_ s
    /\ nth_error (threads c') 2 = Some UpdateChild
    /\ owner c' m_video_ = Some 0%nat
    /\ owner c' m_image_ = Some 1%nat.
Proof.
  intros Hstop Hnew Hstr Hp Hu Hread Hne.
  destruct (streaming_not_buffering s Hstr) as [Hbuf Hop].
  unfold buffering in Hbuf.
  unfold schedule at 1.
  unfold thread_step, VideoThread_iter, play_stream, seek_stream, show_stream.
  cbn [threads nth_error bind lock get owner shared unowned set_nth set_owner mutex_eqb].
  rewrite Hstop, Hnew. cbn [negb andb bind ret get nth_error set_nth threads shared owner].
  rewrite Hbuf, Hop. cbn [bind get nth_error set_nth threads shared owner]. rewrite Hu.
  cbn [bind ret get orb nth_error set_nth threads shared owner].
  rewrite Hp, Hread. cbn [negb bind write nth_error set_nth threads shared owner].
  rewrite Hne.
  cbn [updateImage processImage bind lock write unlock ret nth_error set_nth threads
       shared owner set_owner mutex_eqb].
  eexists. split; [reflexivity|].
  split; [reflexivity|].
  split; [reflexivity|].
  split.
  { intros i order. cbn [schedule].
    destruct i as [| [| [| [| i]]]]; reflexivity. }
  cbn. rewrite Hstop. repeat split; reflexivity.
Qed.

(** ** Pause, defaults and seeking in a stream *)


(** X18: an element with none of the optional settings gives the documented
    defaults: a texture of 240 rows by 320 columns, looping on, buffering
    off, not paused, nothing to show and no capture; the loop then idles. *)
Theorem load_defaults (indeterminate : bool) :
  exists s0,
    exec (Load (mkSdf None None None None None None None))
         (constructed indeterminate) = Done tt s0
    /\ height_ (video_visual_ s0) = 240
    /\ width_ (video_visual_ s0) = 320
    /\ loop_video_ s0 = true
    /\ buffer_all_frames_for_fast_seek_ s0 = false
    /\ video_paused_ s0 = false
    /\ stop_video_ s0 = false
    /\ video_seek_position_ s0 = minus_one
    /\ image_ s0 = None
    /\ new_image_available_ s0 = false
    /\ isOpened (cap s0) = false
    /\ exec VideoThread_iter s0 = Done tt s0.
Proof.
  rewrite exec_Load. cbn [resolve sdf_defaultVideoPath sdf_defaultImagePath ret exec].
  eexists. split; [reflexivity|].
  unfold load_visual, load_scalars, constructed.
  cbn [or_default sdf_height sdf_width sdf_loopVideo sdf_videoPaused
       sdf_bufferAllFramesForFastSeek].
  proj_simpl. cbn [VideoVisual_clearImage height_ width_ isOpened closed].
  repeat (split; [reflexivity|]).
  rewrite exec_tick. proj_simpl. cbn [is_empty negb]. rewrite andb_false_r.
  unfold buffering. proj_simpl. cbn [andb isOpened closed]. reflexivity.
Qed.

(** X19: a pending seek in streaming mode positions the capture at
    [frame_count * fraction], converted to an integer, and the same turn
    reads and shows the frame there, also while paused; the capture is left
    one past it and the seek is consumed. *)
Theorem streaming_seek_shows_sought_frame (s : GazeboRosVideo) (frame : Mat bgr) :
  stop_video_ s = false -> new_video_available_ s = false ->
  streaming s = true -> in_unit (video_seek_position_ s) = true ->
  let i := N.to_nat (to_N (mul (frame_count (cap s)) (video_seek_position_ s))) in
  nth_error (stream (cap s)) i = Some frame -> empty frame = false ->
  exists s',
    exec VideoThread_iter s = Done tt s'
    /\ image_ s' = Some (cvtColor_BGR2BGRA frame)
    /\ new_image_available_ s' = true
    /\ cap s' = mkCap true (stream (cap s)) (S i)
    /\ video_seek_position_ s' = minus_one
    /\ video_paused_ s' = video_paused_ s
    /\ stop_video_ s' = false.
Proof.
  intros Hs Hn Hstr Hu i Hnth He.
  destruct (streaming_not_buffering s Hstr) as [Hb Hop].
  rewrite exec_tick, Hs, Hn. cbn [andb]. rewrite Hb, Hop.
  rewrite exec_play_stream, exec_seek_stream, Hu, exec_show_stream.
  cbn [orb]. proj_simpl. unfold stream_position. rewrite Hu.
  unfold read, set_pos_frames. cbn [isOpened stream pos_frames].
  rewrite Hop. fold i. rewrite Hnth, He.
  rewrite exec_updateImage, He.
  eexists. split; [reflexivity|]. proj_simpl. auto 10.
Qed.

(** X20: when the position a streaming seek computes is not inside the
    file (the fraction 1 gives [frame_count] itself), the turn finds the
    end of the stream: with looping on the file is reopened at its first
    frame and the slot keeps what it shows, with looping off the video is
    stopped and the slot cleared. *)
Theorem streaming_seek_past_end_ends_video (s : GazeboRosVideo) :
  stop_video_ s = false -> new_video_available_ s = false ->
  streaming s = true -> in_unit (video_seek_position_ s) = true ->
  nth_error (stream (cap s))
            (N.to_nat (to_N (mul (frame_count (cap s)) (video_seek_position_ s))))
  = None ->
  exists s',
    exec VideoThread_iter s = Done tt s'
    /\ video_seek_position_ s' = minus_one
    /\ (loop_video_ s = true ->
        cap s' = cap_open (video_path_ s) /\ image_ s' = image_ s
        /\ stop_video_ s' = false)
    /\ (loop_video_ s = false ->
        stop_video_ s' = true
        /\ image_ s' = Some (zeros (height_ (video_visual_ s))
                                   (width_ (video_visual_ s)))
        /\ new_image_available_ s' = true).
Proof.
  intros Hs Hn Hstr Hu Hnth.
  destruct (streaming_not_buffering s Hstr) as [Hb Hop].
  rewrite exec_tick, Hs, Hn. cbn [andb]. rewrite Hb, Hop.
  rewrite exec_play_stream, exec_seek_stream, Hu, exec_show_stream.
  cbn [orb]. proj_simpl. unfold stream_position. rewrite Hu.
  unfold read, set_pos_frames. cbn [isOpened stream pos_frames].
  rewrite Hop, Hnth. rewrite exec_end_of_stream. proj_simpl.
  destruct (loop_video_ s); eexists; (split; [reflexivity|]); proj_simpl;
    (split; [reflexivity|]); split; intros H; try discriminate H; auto.
Qed.

(** ** Order of the two mutexes *)

Lemma ordered_sound {A} (p : prog A) : forall held after s,
  ordered held after p ->
  acquires_under m_image_ m_video_ held (lock_events p s) = false.
Proof.
  induction p as [a | m k IH | m k IH | k IH | f k IH | e];
    intros held after s H; cbn [lock_events acquires_under]; try reflexivity.
  - destruct m; cbn [ordered mutex_eqb] in *.
    + rewrite andb_false_r, orb_true_r. cbn [orb]. eapply IH. exact H.
    + destruct H as [-> H]. cbn [andb orb]. eapply IH. exact H.
  - destruct m; cbn [ordered mutex_eqb negb] in *.
    + rewrite andb_false_r. eapply IH. exact H.
    + rewrite andb_true_r. eapply IH. exact H.
  - eapply IH. apply H.
  - eapply IH. exact H.
Qed.

Lemma ordered_bind {A B} (p : prog A) (k : A -> prog B) : forall held mid after,
  ordered held mid p -> (forall a, ordered mid after (k a)) ->
  ordered held after (bind p k).
Proof.
  induction p as [a | m p IH | m p IH | p IH | f p IH | e];
    intros held mid after H Hk; cbn [bind ordered] in *.
  - subst. apply Hk.
  - destruct m; [eapply IH; eassumption|].
    destruct H as [-> H]. split; [reflexivity|]. eapply IH; eassumption.
  - destruct m; eapply IH; eassumption.
  - intros s. eapply IH; [apply H | exact Hk].
  - eapply IH; eassumption.
  - exact I.
Qed.

Lemma ordered_updateImage (image : Mat bgr) : ordered false false (updateImage image).
Proof. unfold updateImage. cbn [ordered bind lock unlock write]. reflexivity. Qed.

Lemma ordered_clearImage : ordered false false clearImage.
Proof. apply ordered_updateImage. Qed.

Lemma ordered_buffer_frames (fuel : nat) : ordered false false (buffer_frames fuel).
Proof.
  induction fuel as [| fuel IH]; cbn [buffer_frames]; [reflexivity|].
  eapply ordered_bind; [cbn [ordered get]; reflexivity|].
  intros s. cbv beta.
  destruct (read (cap s)) as [[frame |] c]; [|reflexivity].
  eapply ordered_bind; [cbn [ordered write]; reflexivity|]. intros _.
  eapply ordered_bind; [|intros _; exact IH].
  destruct (negb (empty frame)); reflexivity.
Qed.

Lemma ordered_open_new_video : ordered false false open_new_video.
Proof.
  unfold open_new_video.
  eapply ordered_bind; [apply ordered_clearImage|]. intros _.
  eapply ordered_bind; [cbn [ordered get]; reflexivity|]. intros s.
  eapply ordered_bind; [cbn [ordered write]; reflexivity|]. intros _.
  eapply ordered_bind; [cbn [ordered write]; reflexivity|]. intros _.
  eapply ordered_bind; [cbn [ordered get]; reflexivity|]. intros s1.
  destruct (buffer_all_frames_for_fast_seek_ s1); [|reflexivity].
  eapply ordered_bind; [cbn [ordered write]; reflexivity|]. intros _.
  eapply ordered_bind; [cbn [ordered write]; reflexivity|]. intros _.
  eapply ordered_bind; [cbn [ordered get]; reflexivity|]. intros s2.
  destruct (isOpened (cap s2)); [apply ordered_buffer_frames | reflexivity].
Qed.

Lemma ordered_play_buffered : ordered false false play_buffered.
Proof.
  unfold play_buffered.
  eapply ordered_bind with (mid := false).
  { unfold seek_buffered. cbn [ordered bind get]. intros s.
    destruct (in_unit (video_seek_position_ s)); reflexivity. }
  intros b. eapply ordered_bind with (mid := false).
  { unfold wrap_buffered. cbn [ordered bind get]. intros s.
    destruct (_ <=? _)%N; [|reflexivity].
    cbn [ordered bind write].
    destruct (negb (loop_video_ s)); [|reflexivity].
    cbn [ordered bind write].
    eapply ordered_bind; [apply ordered_clearImage|]. intros _. reflexivity. }
  intros _. unfold show_buffered. cbn [ordered bind get]. intros s.
  destruct (b || negb (video_paused_ s)); [|reflexivity].
  destruct (nth_error _ _); [|exact I].
  cbn [ordered bind write]. apply ordered_updateImage.
Qed.

Lemma ordered_end_of_stream : ordered false false end_of_stream.
Proof.
  unfold end_of_stream. cbn [ordered bind get]. intros s.
  destruct (loop_video_ s); [reflexivity|].
  cbn [ordered bind write]. apply ordered_clearImage.
Qed.

Lemma ordered_play_stream : ordered false false play_stream.
Proof.
  unfold play_stream.
  eapply ordered_bind with (mid := false).
  { unfold seek_stream. cbn [ordered bind get]. intros s.
    destruct (in_unit (video_seek_position_ s)); reflexivity. }
  intros b. unfold show_stream. cbn [ordered bind get]. intros s.
  destruct (b || negb (video_paused_ s)); [|reflexivity].
  destruct (read (cap s)) as [[frame |] c]; cbn [ordered bind write].
  - destruct (negb (empty frame));
      [apply ordered_updateImage | apply ordered_end_of_stream].
  - apply ordered_end_of_stream.
Qed.

Lemma ordered_VideoThread_iter : ordered false false VideoThread_iter.
Proof.
  unfold VideoThread_iter. cbn [ordered bind lock get].
  split; [reflexivity|]. intros s.
  eapply ordered_bind with (mid := false); [| intros _; reflexivity].
  destruct (negb (stop_video_ s)); [|reflexivity].
  eapply ordered_bind with (mid := false).
  { destruct (_ && _); [apply ordered_open_new_video | reflexivity]. }
  intros _. cbn [ordered bind get]. intros s1.
  destruct (_ && _); [apply ordered_play_buffered|].
  destruct (isOpened (cap s1)); [apply ordered_play_stream | reflexivity].
Qed.

Lemma ordered_handle (e : Event) :
  match e with EvImage _ => True | _ => ordered false false (handle e) end.
Proof.
  destruct e as [msg | str | str | v | b | | ]; cbn [handle]; [exact I | | | | | |].
  - unfold processImagePath.
    eapply ordered_bind with (mid := false); [| intros _; cbn; auto].
    destruct (is_empty str); [apply ordered_clearImage | apply ordered_updateImage].
  - unfold processVideoPath. cbn [ordered bind lock write get].
    split; [reflexivity|]. intros s.
    eapply ordered_bind with (mid := false); [| intros _; reflexivity].
    destruct (is_empty (video_path_ s)); cbn [ordered bind write]; [|reflexivity].
    apply ordered_clearImage.
  - cbn. auto.
  - unfold processVideoPause. cbn [ordered bind lock get].
    split; [reflexivity|]. intros s.
    destruct (negb (stop_video_ s)); reflexivity.
  - apply ordered_VideoThread_iter.
  - unfold UpdateChild. cbn [ordered bind lock get]. intros s.
    eapply ordered_bind with (mid := true); [| intros _; reflexivity].
    destruct (new_image_available_ s); [|reflexivity].
    destruct (image_ s); [reflexivity | exact I].
Qed.

(** X21: [processImage] is the only code that requests the video mutex
    while it holds the image mutex.  The other handlers, the playback loop
    and the render callback, from any state and along any of their paths,
    hold one mutex at a time or take the video mutex first. *)
Theorem only_processImage_takes_video_inside_image (e : Event) (s : GazeboRosVideo) :
  acquires_under m_image_ m_video_ false (lock_events (handle e) s)
  = match e with EvImage _ => true | _ => false end.
Proof.
  pose proof (ordered_handle e) as H.
  destruct e; [reflexivity | | | | | |]; eapply ordered_sound; exact H.
Qed.

(** ** Pixels and texture size *)

Lemma wf_zeros (r c : Z) : well_formed (zeros r c).
Proof. unfold well_formed, zeros. cbn [data rows cols]. apply repeat_length. Qed.

Lemma wf_cvtColor (f : Mat bgr) : well_formed f -> well_formed (cvtColor_BGR2BGRA f).
Proof.
  unfold well_formed, cvtColor_BGR2BGRA. cbn [data rows cols].
  intros H. rewrite length_map. exact H.
Qed.

Lemma wf_slot_image (v : VideoVisual) (f : Mat bgr) :
  well_formed f ->
  well_formed (if empty f then zeros (height_ v) (width_ v) else cvtColor_BGR2BGRA f).
Proof. intros H. destruct (empty f); [apply wf_zeros | apply wf_cvtColor; exact H]. Qed.

Lemma wf_buffered (v : VideoVisual) (l : list (Mat bgr)) :
  world_ok -> Forall well_formed (buffered v l).
Proof.
  intros [_ [_ [Hi _]]]. unfold buffered. apply Forall_forall. intros f Hin.
  apply in_map_iff in Hin. destruct Hin as [g [<- _]].
  unfold well_formed, resize_bgr. cbn [data rows cols]. apply Hi.
Qed.

Lemma wf_cap_open (path : string) :
  world_ok -> Forall well_formed (stream (cap_open path)).
Proof.
  intros [Hv _]. unfold cap_open.
  destruct (video_file path) as [frames |] eqn:E; cbn [stream closed].
  - eapply Hv. exact E.
  - constructor.
Qed.

Lemma bytes_length (l : list bgra) :
  List.length (flat_map bytes_of l) = (4 * List.length l)%nat.
Proof.
  induction l as [| [[[b g] r] a] l IH]; [reflexivity|].
  cbn [flat_map bytes_of List.length app]. rewrite IH. lia.
Qed.

(** The image [render] copies from holds exactly one pixel per texel. *)
Lemma render_source_length (v : VideoVisual) (im : Mat bgra) :
  world_ok -> well_formed im ->
  List.length (data (render_source v im)) = Z.to_nat (height_ v * width_ v).
Proof.
  intros [_ [_ [_ Hi]]] Hw. unfold render_source.
  destruct (rows im =? height_ v) eqn:Er; destruct (cols im =? width_ v) eqn:Ec;
    cbn [negb orb]; try (unfold resize_bgra; cbn [data]; apply Hi).
  apply Z.eqb_eq in Er, Ec. unfold well_formed in Hw. rewrite Hw, Er, Ec. reflexivity.
Qed.

Lemma render_texture_length (v : VideoVisual) (im : Mat bgra) :
  world_ok -> well_formed im ->
  List.length (texture (VideoVisual_render v im))
  = (4 * Z.to_nat (height_ v * width_ v))%nat.
Proof.
  intros Hw Him. unfold VideoVisual_render, memcpy_pixels. cbn [texture].
  rewrite bytes_length, length_firstn, render_source_length by assumption. lia.
Qed.

Lemma clear_texture_length (v : VideoVisual) :
  List.length (texture (VideoVisual_clearImage v))
  = (4 * Z.to_nat (height_ v * width_ v))%nat.
Proof.
  unfold VideoVisual_clearImage. cbn [texture]. rewrite repeat_length. lia.
Qed.

Lemma pixels_step (s s' : GazeboRosVideo) :
  pixels_ok s -> video_visual_ s' = video_visual_ s ->
  (image_ s' = image_ s \/ exists im, image_ s' = Some im /\ well_formed im) ->
  Forall well_formed (video_frames_ s') ->
  Forall well_formed (stream (cap s')) ->
  pixels_ok s'.
Proof.
  intros [Hi [Hf [Hs Ht]]] Hv Him Hf' Hs'. unfold pixels_ok. rewrite Hv.
  repeat split; try assumption.
  intros im E. destruct Him as [Him | [im' [Him Hw]]].
  - apply Hi. rewrite <- Him. exact E.
  - rewrite Him in E. injection E as <-. exact Hw.
Qed.

Lemma play_buffered_image (s s' : GazeboRosVideo) :
  exec play_buffered s = Done tt s' ->
  image_ s' = image_ s
  \/ image_ s' = Some (zeros (height_ (video_visual_ s)) (width_ (video_visual_ s)))
  \/ exists frame, In frame (video_frames_ s)
                   /\ image_ s'
                      = Some (if empty frame
                              then zeros (height_ (video_visual_ s))
                                         (width_ (video_visual_ s))
                              else cvtColor_BGR2BGRA frame).
Proof.
  rewrite exec_play_buffered, exec_seek_buffered.
  assert (Hshow : forall b s1,
    exec (show_buffered b) s1 = Done tt s' ->
    image_ s' = image_ s1
    \/ exists frame, In frame (video_frames_ s1)
                     /\ image_ s'
                        = Some (if empty frame
                                then zeros (height_ (video_visual_ s1))
                                           (width_ (video_visual_ s1))
                                else cvtColor_BGR2BGRA frame)).
  { intros b s1. rewrite exec_show_buffered.
    destruct (b || negb (video_paused_ s1)).
    - destruct (nth_error _ _) as [frame |] eqn:E; [|discriminate].
      rewrite exec_updateImage. intros H. injection H as <-. proj_simpl.
      right. exists frame. split; [eapply nth_error_In; exact E | reflexivity].
    - intros H. injection H as <-. auto. }
  assert (Hwrap : forall b s1,
    match exec wrap_buffered s1 with
    | Done _ s2 => exec (show_buffered b) s2
    | Faulted e => Faulted e
    end = Done tt s' ->
    image_ s' = image_ s1
    \/ image_ s' = Some (zeros (height_ (video_visual_ s1)) (width_ (video_visual_ s1)))
    \/ exists frame, In frame (video_frames_ s1)
                     /\ image_ s'
                        = Some (if empty frame
                                then zeros (height_ (video_visual_ s1))
                                           (width_ (video_visual_ s1))
                                else cvtColor_BGR2BGRA frame)).
  { intros b s1. rewrite exec_wrap_buffered.
    destruct (_ <=? _)%N; [destruct (loop_video_ s1) |]; intros H;
      apply Hshow in H; proj_simpl.
    - destruct H as [H | H]; auto.
    - destruct H as [H | [frame [[] _]]]. auto.
    - destruct H as [H | H]; auto. }
  destruct (in_unit (video_seek_position_ s)); intros H; apply Hwrap in H;
    proj_simpl; exact H.
Qed.

Lemma opened_pixels (s : GazeboRosVideo) :
  world_ok -> pixels_ok s -> pixels_ok (opened s).
Proof.
  intros Hw Hp. destruct (opened_slot s) as [Hv Hi].
  apply pixels_step with (s := s); [exact Hp | exact Hv | | |].
  - right. eexists. split; [exact Hi | apply wf_zeros].
  - unfold opened. destruct Hp as [_ [Hf _]].
    destruct (buffer_all_frames_for_fast_seek_ s);
      [destruct (isOpened (cap_open (video_path_ s))) |]; proj_simpl;
      [apply wf_buffered; exact Hw | constructor | exact Hf].
  - unfold opened.
    destruct (buffer_all_frames_for_fast_seek_ s);
      [destruct (isOpened (cap_open (video_path_ s))) |]; proj_simpl;
      cbn [stream]; apply wf_cap_open; exact Hw.
Qed.

Lemma tick_pixels (s s' : GazeboRosVideo) :
  world_ok -> pixels_ok s -> exec VideoThread_iter s = Done tt s' ->
  pixels_ok s' /\ video_visual_ s' = video_visual_ s.
Proof.
  intros Hw Hp Hex. rewrite exec_tick in Hex.
  destruct (stop_video_ s); [injection Hex as <-; auto|].
  assert (Hbranch : forall s1,
    pixels_ok s1 ->
    (if buffering s1 then exec play_buffered s1
     else if isOpened (cap s1) then exec play_stream s1 else Done tt s1)
    = Done tt s' ->
    pixels_ok s' /\ video_visual_ s' = video_visual_ s1).
  { intros s1 Hp1 H. pose proof Hp1 as [_ [Hf1 [Hs1 _]]].
    rewrite Forall_forall in Hf1, Hs1.
    destruct (buffering s1).
    - pose proof (play_buffered_image _ _ H) as Him.
      apply play_buffered_effect in H.
      destruct H as [Hv [Hc [_ [_ [_ Hfr]]]]].
      split; [|exact Hv].
      apply pixels_step with (s := s1); [exact Hp1 | exact Hv | | |].
      + destruct Him as [Him | [Him | [frame [Hin Him]]]]; [auto | |]; right;
          eexists; (split; [exact Him|]);
          [apply wf_zeros | apply wf_slot_image; apply Hf1; exact Hin].
      + destruct Hfr as [-> | [-> _]]; [apply Forall_forall; exact Hf1 | constructor].
      + rewrite Hc. apply Forall_forall. exact Hs1.
    - destruct (isOpened (cap s1)).
      + apply play_stream_effect in H.
        destruct H as [Hv [Hfr [Hpa [_ [_ [Hc Him]]]]]].
        split; [|exact Hv].
        apply pixels_step with (s := s1); [exact Hp1 | exact Hv | | |].
        * destruct Him as [Him | [Him | [frame [Hin [_ [_ Him]]]]]]; [auto | |]; right;
            eexists; (split; [exact Him|]);
            [apply wf_zeros | apply wf_cvtColor; apply Hs1; exact Hin].
        * rewrite Hfr. apply Forall_forall. exact Hf1.
        * destruct Hc as [-> | ->];
            [apply Forall_forall; exact Hs1 | apply wf_cap_open; exact Hw].
      + injection H as <-. auto. }
  destruct (new_video_available_ s && negb (is_empty (video_path_ s))).
  - rewrite exec_open_new_video in Hex.
    apply Hbranch in Hex; [| apply opened_pixels; assumption].
    destruct (opened_slot s) as [Hv _]. rewrite Hv in Hex. exact Hex.
  - apply Hbranch in Hex; assumption.
Qed.

Lemma handle_pixels (e : Event) (s s' : GazeboRosVideo) :
  world_ok -> event_ok e -> pixels_ok s -> exec (handle e) s = Done tt s' ->
  pixels_ok s'
  /\ height_ (video_visual_ s') = height_ (video_visual_ s)
  /\ width_ (video_visual_ s') = width_ (video_visual_ s).
Proof.
  intros Hw He Hp. pose proof Hp as [Hi [Hf [Hs Ht]]].
  destruct e as [msg | str | str | v | b | | ]; cbn [handle event_ok] in *.
  - intros H. injection H as <-. split; [|auto].
    apply pixels_step with (s := s); proj_simpl; auto.
    right. eexists. split; [reflexivity | exact He].
  - rewrite exec_processImagePath. intros H. injection H as <-. split; [|auto].
    apply pixels_step with (s := s); proj_simpl; auto.
    right. eexists. split; [reflexivity|].
    destruct (is_empty str || empty (imread str)); [apply wf_zeros|].
    apply wf_cvtColor. destruct Hw as [_ [Hr _]]. apply Hr.
  - destruct (is_empty str) eqn:Es.
    + unfold processVideoPath. cbn [bind lock get write exec]. proj_simpl.
      rewrite Es. intros H. injection H as <-. split; [|auto].
      apply pixels_step with (s := s); proj_simpl; auto.
      right. eexists. split; [reflexivity | apply wf_zeros].
    + rewrite exec_processVideoPath_nonempty by exact Es.
      intros H. injection H as <-. split; [|auto].
      apply pixels_step with (s := s); proj_simpl; auto.
  - intros H. injection H as <-. auto.
  - unfold processVideoPause. cbn [bind lock get exec].
    destruct (negb (stop_video_ s)); intros H; injection H as <-; [|auto].
    split; [|auto]. apply pixels_step with (s := s); proj_simpl; auto.
  - intros H. apply tick_pixels in H; [| assumption | assumption].
    destruct H as [H ->]. auto.
  - unfold UpdateChild. cbn [bind lock get exec].
    destruct (new_image_available_ s).
    + destruct (image_ s) as [im |] eqn:Eim; [|discriminate].
      intros H. injection H as <-. split; [|auto].
      unfold pixels_ok. proj_simpl. rewrite Eim.
      repeat split; try assumption.
      rewrite render_texture_length; [reflexivity | exact Hw | apply Hi; reflexivity].
    + intros H. injection H as <-. split; [|auto].
      apply pixels_step with (s := s); proj_simpl; auto.
Qed.

Lemma run_pixels (evs : list Event) : forall s s',
  world_ok -> Forall event_ok evs -> pixels_ok s -> run evs s = Done tt s' ->
  pixels_ok s'
  /\ height_ (video_visual_ s') = height_ (video_visual_ s)
  /\ width_ (video_visual_ s') = width_ (video_visual_ s).
Proof.
  induction evs as [| e evs IH]; intros s s' Hw Hall Hp; cbn [run].
  - intros H. injection H as <-. auto.
  - inversion Hall as [| ? ? He Hall']; subst.
    destruct (exec (handle e) s) as [[] s1 |] eqn:E; [|discriminate].
    destruct (handle_pixels e s s1 Hw He Hp E) as [Hp1 [Hh Hwd]].
    intros H. destruct (IH s1 s' Hw Hall' Hp1 H) as [Hp' [Hh' Hwd']].
    split; [exact Hp'|]. split; congruence.
Qed.

Lemma load_pixels (sdf : Sdf) (indeterminate : bool) (s0 : GazeboRosVideo) :
  world_ok ->
  exec (Load sdf) (constructed indeterminate) = Done tt s0 ->
  pixels_ok s0
  /\ height_ (video_visual_ s0) = or_default (sdf_height sdf) 240
  /\ width_ (video_visual_ s0) = or_default (sdf_width sdf) 320.
Proof.
  intros Hw. rewrite exec_Load, exec_default_video.
  set (s2 := match resolve (sdf_defaultVideoPath sdf) with
             | Some _ => _ | None => _ end).
  assert (H2 : video_frames_ s2 = [] /\ cap s2 = closed /\ image_ s2 = None)
    by (unfold s2; destruct (resolve (sdf_defaultVideoPath sdf)); auto).
  clearbody s2. destruct H2 as [Hf [Hc Hi]].
  assert (Hfin : forall s3,
    video_frames_ s3 = [] -> cap s3 = closed ->
    (forall im, image_ s3 = Some im -> well_formed im) ->
    pixels_ok (load_visual sdf s3)
    /\ height_ (video_visual_ (load_visual sdf s3)) = or_default (sdf_height sdf) 240
    /\ width_ (video_visual_ (load_visual sdf s3)) = or_default (sdf_width sdf) 320).
  { intros s3 Hf3 Hc3 Hi3. unfold pixels_ok, load_visual. proj_simpl.
    rewrite Hf3, Hc3. cbn [stream closed].
    repeat split; try constructor; try assumption.
    rewrite clear_texture_length. reflexivity. }
  destruct (resolve (sdf_defaultImagePath sdf)) as [path |].
  - destruct (empty (imread path)); [discriminate|].
    rewrite exec_processImagePath. intros H. injection H as <-.
    apply Hfin; proj_simpl; try assumption.
    intros im E. injection E as <-.
    destruct (is_empty path || empty (imread path)); [apply wf_zeros|].
    apply wf_cvtColor. destruct Hw as [_ [Hr _]]. apply Hr.
  - cbn [ret exec]. intros H. injection H as <-.
    apply Hfin; try assumption. intros im E. rewrite Hi in E. discriminate E.
Qed.

(** X22: the texture always has the configured size and [render] never
    copies from an image that is too small.  When the decoders and
    [cv::resize] return matrices that own one pixel per element, and so do
    the images pushed, then in every state reached from [Load] the visual
    has the height and width read from the element, the texture holds
    [height * width * 4] bytes, and the image [render] would copy from
    holds exactly [height * width] pixels. *)
Theorem texture_is_always_full
        (sdf : Sdf) (indeterminate : bool) (evs : list Event)
        (s0 s : GazeboRosVideo) :
  world_ok -> Forall event_ok evs ->
  exec (Load sdf) (constructed indeterminate) = Done tt s0 ->
  run evs s0 = Done tt s ->
  height_ (video_visual_ s) = or_default (sdf_height sdf) 240
  /\ width_ (video_visual_ s) = or_default (sdf_width sdf) 320
  /\ List.length (texture (video_visual_ s))
     = (4 * Z.to_nat (height_ (video_visual_ s) * width_ (video_visual_ s)))%nat
  /\ forall im,
       image_ s = Some im ->
       List.length (data (render_source (video_visual_ s) im))
       = Z.to_nat (height_ (video_visual_ s) * width_ (video_visual_ s)).
Proof.
  intros Hw Hall HL Hrun.
  destruct (load_pixels sdf indeterminate s0 Hw HL) as [Hp0 [Hh0 Hw0]].
  destruct (run_pixels evs s0 s Hw Hall Hp0 Hrun) as [[Hi [_ [_ Ht]]] [Hh Hwd]].
  split; [congruence|]. split; [congruence|]. split; [exact Ht|].
  intros im E. apply render_source_length; [exact Hw | apply Hi; exact E].
Qed.

(** ** The ends of the seek range *)

Lemma digits2_unique (p : positive) (d : Z) :
  2 ^ (d - 1) <= Z.pos p < 2 ^ d -> Z.pos (digits2_pos p) = d.
Proof.
  intros [L U]. destruct (digits2_bounds p) as [L' U'].
  assert (Hd : 0 < d).
  { destruct (Z.le_gt_cases d 0) as [H | H]; [|exact H].
    assert (2 ^ d <= 2 ^ 0) by (apply Z.pow_le_mono_r; lia).
    rewrite Z.pow_0_r in *. lia. }
  assert (H1 : 2 ^ (d - 1) < 2 ^ Z.pos (digits2_pos p)) by lia.
  assert (H2 : 2 ^ (Z.pos (digits2_pos p) - 1) < 2 ^ d) by lia.
  apply Z.pow_lt_mono_r_iff in H1; [|lia|lia].
  apply Z.pow_lt_mono_r_iff in H2; lia.
Qed.

Lemma mul_one_exact (s : bool) (m : positive) (e : Z) :
  valid (S754_finite s m e) = true ->
  mul (S754_finite s m e) one = S754_finite s m e.
Proof.
  intros Hv. apply valid_finite_inv in Hv. destruct Hv as [Hc Hb].
  unfold mul, one, SFmul. rewrite xorb_false_r.
  set (P := (m * 4503599627370496)%positive).
  assert (HP : Z.pos P = Z.pos m * 2 ^ 52).
  { unfold P. rewrite Pos2Z.inj_mul, pow2_52. reflexivity. }
  assert (Hpow : 0 < 2 ^ 52) by (apply Z.pow_pos_nonneg; lia).
  assert (Hd : Z.pos (digits2_pos P) = Z.pos (digits2_pos m) + 52).
  { apply digits2_unique. rewrite HP.
    destruct (digits2_bounds m) as [L U].
    replace (Z.pos (digits2_pos m) + 52 - 1) with (Z.pos (digits2_pos m) - 1 + 52) by lia.
    rewrite !Z.pow_add_r by lia. nia. }
  clearbody P.
  unfold binary_round_aux.
  destruct (shr_fexp_exact_spec (Z.pos P) (e + -52) ltac:(lia)) as [r [E [Hm Hf]]].
  cbn [Zdigits2] in E, Hm, Hf. rewrite Hd in E, Hm, Hf.
  replace (Z.pos (digits2_pos m) + 52 + (e + -52))
    with (Z.pos (digits2_pos m) + e) in E, Hm, Hf by lia.
  rewrite Hc in E, Hm, Hf.
  replace (Z.max 0 (e - (e + -52))) with 52 in E, Hm, Hf by lia.
  replace (e + -52 + 52) with e in E by lia.
  rewrite E.
  assert (Hmr : shr_m r = Z.pos m).
  { rewrite Hm, HP. apply Z.div_mul. lia. }
  assert (Hround : round_nearest_even (shr_m r) (loc_of_shr_record r) = Z.pos m).
  { destruct (round_nearest_even_cases r) as [Eq | [_ Hfl]].
    - rewrite Eq. exact Hmr.
    - exfalso. apply Hf; [exact Hfl|]. rewrite HP. apply Z.mod_mul. lia. }
  rewrite Hround.
  destruct (shr_fexp_canonical m e Hc) as [r2 [E2 R2]]. rewrite E2.
  assert (Hm2 : shr_m r2 = Z.pos m).
  { destruct (shr_fexp_exact_spec (Z.pos m) e ltac:(lia)) as [r' [E' [Hm' _]]].
    cbn [Zdigits2] in E', Hm'. rewrite Hc, Z.sub_diag in E', Hm'. cbn in E', Hm'.
    rewrite Z.add_0_r in E'. rewrite Z.div_1_r in Hm'. congruence. }
  rewrite Hm2. apply Z.leb_le in Hb. rewrite Hb. reflexivity.
Qed.

Lemma seek_index_zero (size : nat) : seek_index size zero = 0%N.
Proof.
  unfold seek_index, to_N, mul, zero.
  destruct (of_Z (Z.of_nat size - 1)) as [s | s | | s m e]; reflexivity.
Qed.

Lemma seek_index_one (size : nat) :
  (0 < size)%nat -> Z.of_nat size <= max_exact ->
  seek_index size one = N.of_nat (size - 1).
Proof.
  intros Hpos Hmax. unfold max_exact in Hmax. unfold seek_index, to_N.
  destruct (Z.eq_dec (Z.of_nat size - 1) 0) as [E0 | Hnz].
  - rewrite E0. replace (size - 1)%nat with 0%nat by lia. reflexivity.
  - destruct (of_Z_exact (Z.of_nat size - 1) ltac:(lia)) as [m [e [-> [Hv Hval]]]].
    rewrite mul_one_exact by exact Hv.
    cbn [to_Z cond_Zopp]. rewrite Hval. lia.
Qed.

Lemma exec_buffered_seek (s : GazeboRosVideo) (frame : Mat bgr) :
  stop_video_ s = false -> new_video_available_ s = false ->
  buffering s = true -> in_unit (video_seek_position_ s) = true ->
  nth_error (video_frames_ s)
    (N.to_nat (seek_index (List.length (video_frames_ s)) (video_seek_position_ s)))
  = Some frame ->
  exec VideoThread_iter s
  = Done tt
      (set_new_image_available_ true
         (set_image_
            (Some (if empty frame
                   then zeros (height_ (video_visual_ s)) (width_ (video_visual_ s))
                   else cvtColor_BGR2BGRA frame))
            (set_current_buffered_frame_
               (seek_index (List.length (video_frames_ s))
                           (video_seek_position_ s) + 1)%N
               (set_video_seek_position_ minus_one
                  (set_current_buffered_frame_
                     (seek_index (List.length (video_frames_ s))
                                 (video_seek_position_ s)) s))))).
Proof.
  intros Hstop Hnew Hbuf Hu E.
  set (k := seek_index (List.length (video_frames_ s)) (video_seek_position_ s)) in *.
  assert (Hk : (k < N.of_nat (List.length (video_frames_ s)))%N).
  { assert (H : nth_error (video_frames_ s) (N.to_nat k) <> None) by congruence.
    apply nth_error_Some in H. lia. }
  rewrite exec_tick, Hstop, Hnew. cbn [andb]. rewrite Hbuf.
  rewrite exec_play_buffered, exec_seek_buffered, Hu.
  rewrite exec_wrap_buffered. proj_simpl. fold k.
  replace (N.of_nat (List.length (video_frames_ s)) <=? k)%N with false
    by (symmetry; apply N.leb_gt; exact Hk).
  rewrite exec_show_buffered. proj_simpl. cbn [orb]. rewrite E.
  rewrite exec_updateImage. proj_simpl. reflexivity.
Qed.

(** X23: the ends of the seek range in buffering mode.  The fraction 0
    shows the first buffered frame and the fraction 1 the last one, also
    while paused; the cursor is left one past the frame shown, so after a
    seek to 1 it stands at the end of the buffer. *)
Theorem buffered_seek_reaches_both_ends
        (s : GazeboRosVideo) (first last : Mat bgr) :
  stop_video_ s = false -> new_video_available_ s = false ->
  buffering s = true ->
  Z.of_nat (List.length (video_frames_ s)) <= max_exact ->
  nth_error (video_frames_ s) 0 = Some first ->
  nth_error (video_frames_ s) (List.length (video_frames_ s) - 1) = Some last ->
  (video_seek_position_ s = zero ->
   exists s',
     exec VideoThread_iter s = Done tt s'
     /\ image_ s'
        = Some (if empty first
                then zeros (height_ (video_visual_ s)) (width_ (video_visual_ s))
                else cvtColor_BGR2BGRA first)
     /\ current_buffered_frame_ s' = 1%N
     /\ video_seek_position_ s' = minus_one)
  /\ (video_seek_position_ s = one ->
      exists s',
        exec VideoThread_iter s = Done tt s'
        /\ image_ s'
           = Some (if empty last
                   then zeros (height_ (video_visual_ s)) (width_ (video_visual_ s))
                   else cvtColor_BGR2BGRA last)
        /\ current_buffered_frame_ s' = N.of_nat (List.length (video_frames_ s))
        /\ video_seek_position_ s' = minus_one).
Proof.
  intros Hstop Hnew Hbuf Hmax Hfirst Hlast.
  assert (Hlen : (0 < List.length (video_frames_ s))%nat).
  { destruct (video_frames_ s); [discriminate Hfirst | cbn; lia]. }
  split; intros Hseek.
  - rewrite (exec_buffered_seek s first); try assumption.
    + eexists. split; [reflexivity|]. proj_simpl.
      rewrite Hseek, seek_index_zero. auto.
    + rewrite Hseek. reflexivity.
    + rewrite Hseek, seek_index_zero. exact Hfirst.
  - rewrite (exec_buffered_seek s last); try assumption.
    + eexists. split; [reflexivity|]. proj_simpl.
      rewrite Hseek, seek_index_one by assumption.
      repeat split. lia.
    + rewrite Hseek. reflexivity.
    + rewrite Hseek, seek_index_one by assumption.
      rewrite Nat2N.id. exact Hlast.
Qed.


End Facts.

(** * Concrete runs *)
Module Runs.
Import Sample.

Lemma le_max_exact_2 : Z.of_nat 2 <= max_exact.
Proof. vm_compute. discriminate. Qed.

Lemma le_max_exact_3 : Z.of_nat 3 <= max_exact.
Proof. vm_compute. discriminate. Qed.

(** The scenario of a 2x2 texture without looping and a file of three
  frames, in buffering mode: after [Load] and the video path, three turns
  show the three frames and leave the cursor at 3; the fourth turn indexes
  the buffer it has just emptied. *)
Lemma overrun_reads_cleared_buffer_witness :
exists s0 s3,
  exec (Load (W := world) (sdf true false)) (constructed false) = Done tt s0
  /\ run (W := world) [EvVideoPath "clip.avi"; EvTick; EvTick; EvTick] s0
     = Done tt s3
  /\ current_buffered_frame_ s3 = 3%N
  /\ exec (VideoThread_iter (W := world)) s3
     = Faulted (vector_out_of_range 0%N 0%nat).
Proof.
eexists. eexists.
split; [vm_compute; reflexivity|].
split; [vm_compute; reflexivity|].
split; [reflexivity|].
apply (@overrun_reads_cleared_buffer world); vm_compute;
  first [reflexivity | discriminate].
Defined.

(** C2 refuted as stated: with the fraction 1/2 pending, the value 2 is not
  ignored.  It replaces 1/2, and the next turn shows frame 0 and not the
  frame at index 1 that the fraction 1/2 selects. *)
Lemma out_of_range_seek_replaces_pending :
let s := buffered_state clip 0 half false true in
in_unit two = false
/\ in_unit (video_seek_position_ s) = true
/\ exec (processVideoSeek two) s <> Done tt s
/\ exists s1 s2 s2',
     exec (processVideoSeek two) s = Done tt s1
     /\ video_seek_position_ s1 = two
     /\ exec (VideoThread_iter (W := world)) s1 = Done tt s2
     /\ current_buffered_frame_ s2 = 1%N
     /\ exec (VideoThread_iter (W := world)) s = Done tt s2'
     /\ current_buffered_frame_ s2' = 2%N.
Proof.
cbv zeta. split; [vm_compute; reflexivity|]. split; [vm_compute; reflexivity|].
split.
- intros H.
  apply (f_equal (fun o => match o with
                           | Done _ s => to_Z (video_seek_position_ s)
                           | Faulted _ => 0
                           end)) in H.
  vm_compute in H. discriminate H.
- eexists. eexists. eexists.
  split; [reflexivity|]. split; [reflexivity|].
  split; [vm_compute; reflexivity|]. split; [reflexivity|].
  split; [vm_compute; reflexivity|]. reflexivity.
Qed.

Lemma out_of_range_seek_is_stored_and_never_performed_witness :
let s := buffered_state clip 0 half false true in
exec (processVideoSeek two) s = Done tt (set_video_seek_position_ two s)
/\ exec (VideoThread_iter (W := world)) (set_video_seek_position_ two s)
   = map_outcome (set_video_seek_position_ two)
       (exec (VideoThread_iter (W := world))
             (set_video_seek_position_ minus_one s)).
Proof.
apply (@out_of_range_seek_is_stored_and_never_performed world).
vm_compute. reflexivity.
Defined.

(** C3 refuted as stated: streaming a file of 1x1 frames onto a 2x2
  texture, the turn leaves a 1x1 image in the slot. *)
Lemma streamed_frame_keeps_source_size :
let s := streaming_state "tiny.avi" (mkCap true [frame 1 1 x07] 0)
                         minus_one false true in
exists s' im,
  exec (VideoThread_iter (W := world)) s = Done tt s'
  /\ image_ s' = Some im
  /\ rows im = 1 /\ cols im = 1
  /\ height_ (video_visual_ s') = 2 /\ width_ (video_visual_ s') = 2
  /\ ~ has_texture_size (video_visual_ s') (image_ s').
Proof.
cbv zeta. eexists. eexists.
split; [vm_compute; reflexivity|]. split; [reflexivity|].
repeat (split; [reflexivity|]).
intros [im [E [Hr _]]]. injection E as <-. vm_compute in Hr. discriminate Hr.
Qed.

(** In buffering mode, from [Load]: the file "tiny.avi" has one frame of
  1x1 pixels; the turn that opens it buffers the frame at 2x2 and writes
  it into the slot at that size. *)
Lemma slot_is_resized_when_buffered_or_rendered_witness :
exists s0 s s',
  exec (Load (W := world) (sdf true false)) (constructed false) = Done tt s0
  /\ run (W := world) [EvVideoPath "tiny.avi"] s0 = Done tt s
  /\ exec (VideoThread_iter (W := world)) s = Done tt s'
  /\ buffer_all_frames_for_fast_seek_ s = true
  /\ image_ s' = Some (mkMat 2 2 (repeat (x07, x07, x07, xff) 4))
  /\ (buffer_all_frames_for_fast_seek_ s = true ->
      image_ s' = image_ s \/ has_texture_size (video_visual_ s) (image_ s'))
  /\ (buffer_all_frames_for_fast_seek_ s = false ->
      image_ s' = image_ s
      \/ has_texture_size (video_visual_ s) (image_ s')
      \/ exists frame, In frame (stream (cap s')) /\ empty frame = false
                       /\ image_ s' = Some (cvtColor_BGR2BGRA frame)
                       /\ rows (cvtColor_BGR2BGRA frame) = rows frame
                       /\ cols (cvtColor_BGR2BGRA frame) = cols frame)
  /\ forall image,
       rows (render_source (W := world) (video_visual_ s') image)
       = height_ (video_visual_ s')
       /\ cols (render_source (W := world) (video_visual_ s') image)
          = width_ (video_visual_ s').
Proof.
eexists. eexists. eexists.
split; [vm_compute; reflexivity|].
split; [vm_compute; reflexivity|].
split; [vm_compute; reflexivity|].
split; [reflexivity|].
split; [reflexivity|].
eapply (@slot_is_resized_when_buffered_or_rendered world
          (sdf true false) false [EvVideoPath "tiny.avi"]);
  vm_compute; reflexivity.
Defined.

(** C4 refuted as stated: with two buffered frames and the fraction 3/4
  the product is 0.75; rounding gives index 1, the code takes index 0 and
  shows the first frame. *)
Lemma seek_truncates_where_rounding_differs :
let s := buffered_state [frame 2 2 x01; frame 2 2 x02] 0 three_quarters
                        false true in
in_unit three_quarters = true
/\ seek_index_rounded 2 three_quarters = 1%N
/\ seek_index 2 three_quarters = 0%N
/\ exists s',
     exec (VideoThread_iter (W := world)) s = Done tt s'
     /\ current_buffered_frame_ s' = 1%N
     /\ image_ s' = Some (cvtColor_BGR2BGRA (frame 2 2 x01)).
Proof.
cbv zeta. repeat (split; [vm_compute; reflexivity|]).
eexists. split; [vm_compute; reflexivity|]. split; reflexivity.
Qed.

Lemma seek_sets_cursor_by_truncation_witness :
let s := buffered_state [frame 2 2 x01; frame 2 2 x02] 0 three_quarters
                        false true in
exists fr s',
  nth_error (video_frames_ s)
    (N.to_nat (seek_index (List.length (video_frames_ s))
                          (video_seek_position_ s))) = Some fr
  /\ exec (VideoThread_iter (W := world)) s = Done tt s'
  /\ current_buffered_frame_ s'
     = (seek_index (List.length (video_frames_ s))
                   (video_seek_position_ s) + 1)%N
  /\ image_ s'
     = Some (if empty fr
             then zeros (height_ (video_visual_ s)) (width_ (video_visual_ s))
             else cvtColor_BGR2BGRA fr)
  /\ new_image_available_ s' = true
  /\ video_seek_position_ s' = minus_one.
Proof.
apply (@seek_sets_cursor_by_truncation world);
  first [exact le_max_exact_2 | vm_compute; reflexivity].
Defined.

Lemma processImage_locks_video_inside_image_witness :
let s := streaming_state "clip.avi" (mkCap true clip 0) minus_one false true in
let msg := zeros 2 2 in
holds_both (lock_events (processImage msg) s) = true
/\ holds_both (lock_events (processImagePath (W := world) EmptyString) s) = false
/\ acquires_under m_video_ m_image_ false
     (lock_events (VideoThread_iter (W := world)) s) = true
/\ exists c',
     schedule [0; 0; 0; 0; 0; 0; 1; 1; 1]%nat
              (mkConfig s unowned [VideoThread_iter (W := world); processImage msg])
     = Some c'
     /\ deadlocked c' = true
     /\ owner c' m_video_ = Some 0%nat
     /\ owner c' m_image_ = Some 1%nat
     /\ stop_video_ (shared c') = false.
Proof.
apply (@processImage_locks_video_inside_image world _ _
         (frame 2 2 x01) (mkCap true clip 1));
  vm_compute; reflexivity.
Defined.

Lemma pushed_image_blocks_behind_playing_tick_witness :
let s := streaming_state "clip.avi" (mkCap true clip 0) minus_one false true in
let msg := mkMat 2 2 (repeat (x09, x09, x09, xff) 4) in
exists c',
  schedule [0; 0; 0; 0; 0; 0; 1; 1; 1]%nat
           (mkConfig s unowned
              [VideoThread_iter (W := world); processImage msg;
               UpdateChild (W := world)])
  = Some c'
  /\ deadlocked c' = true
  /\ existsb finished (threads c') = false
  /\ (forall i order, schedule (i :: order) c' = None)
  /\ stop_video_ (shared c') = false
  /\ image_ (shared c') = Some msg
  /\ new_image_available_ (shared c') = true
  /\ video_visual_ (shared c') = video_visual_ s
  /\ nth_error (threads c') 2 = Some (UpdateChild (W := world))
  /\ owner c' m_video_ = Some 0%nat
  /\ owner c' m_image_ = Some 1%nat.
Proof.
apply (@pushed_image_blocks_behind_playing_tick world _ _
         (frame 2 2 x01) (mkCap true clip 1));
  vm_compute; reflexivity.
Defined.

Lemma empty_video_path_stops_and_clears_witness :
let s := streaming_state "clip.avi" (mkCap true clip 1) minus_one false true in
exists s1,
  exec (processVideoPath EmptyString) s = Done tt s1
  /\ stop_video_ s1 = true
  /\ image_ s1 = Some (zeros (height_ (video_visual_ s)) (width_ (video_visual_ s)))
  /\ new_image_available_ s1 = true
  /\ forall evs,
       Forall (fun e => keeps_stopped e = true) evs ->
       exists s2, run (W := world) evs s1 = Done tt s2
                  /\ stop_video_ s2 = true
                  /\ exec (VideoThread_iter (W := world)) s2 = Done tt s2.
Proof.
exact (@empty_video_path_stops_and_clears world _).
Defined.

Lemma end_of_stream_loops_or_stops_witness :
let s := streaming_state "clip.avi" (mkCap true clip 3) minus_one false true in
exists s1 s2,
  exec (VideoThread_iter (W := world)) s = Done tt s1
  /\ cap s1 = mkCap true clip 0
  /\ exec (VideoThread_iter (W := world)) (set_video_paused_ false s1) = Done tt s2
  /\ image_ s2 = Some (cvtColor_BGR2BGRA (frame 2 2 x01)).
Proof.
cbv zeta.
destruct (@end_of_stream_loops_or_stops world
            (streaming_state "clip.avi" (mkCap true clip 3) minus_one false true)
            eq_refl eq_refl eq_refl eq_refl eq_refl)
  as [s1 [E1 [Hloop _]]].
destruct (Hloop eq_refl) as [Hcap [_ [_ [_ [_ [_ Hfirst]]]]]].
destruct (Hfirst (frame 2 2 x01) [frame 2 2 x02; frame 2 2 x03] eq_refl eq_refl)
  as [s2 [E2 [Hi _]]].
exists s1, s2. repeat split; assumption.
Defined.

Lemma uninterrupted_push_stops_video_and_is_rendered_witness :
let s := streaming_state "clip.avi" (mkCap true clip 1) minus_one false true in
let msg := mkMat 2 2 (repeat (x09, x09, x09, xff) 4) in
exists s2,
  run (W := world) [EvImage msg; EvTick; EvSeek half; EvTick; EvRender] s
  = Done tt s2
  /\ texture (video_visual_ s2)
     = flat_map bytes_of (repeat (x09, x09, x09, xff) 4).
Proof.
cbv zeta.
destruct (@uninterrupted_push_stops_video_and_is_rendered world
            (streaming_state "clip.avi" (mkCap true clip 1) minus_one false true)
            (mkMat 2 2 (repeat (x09, x09, x09, xff) 4)))
  as [s1 [E1 [_ [_ [_ Hrender]]]]].
destruct (Hrender [EvTick; EvSeek half; EvTick]) as [s2 [E2 [Hv _]]].
{ repeat constructor. }
exists s2. split.
- cbn [run handle]. rewrite E1. exact E2.
- rewrite Hv. vm_compute. reflexivity.
Defined.

Lemma paused_at_end_of_buffer_clears_display_witness :
let s := buffered_state clip 3 minus_one true false in
exists s',
  exec (VideoThread_iter (W := world)) s = Done tt s'
  /\ stop_video_ s' = true
  /\ image_ s' = Some (zeros (height_ (video_visual_ s)) (width_ (video_visual_ s)))
  /\ new_image_available_ s' = true
  /\ video_frames_ s' = [].
Proof.
apply (@paused_at_end_of_buffer_clears_display world); vm_compute;
  first [reflexivity | discriminate].
Defined.


(** ** Further runs *)

Lemma render_twice_is_render_once_witness :
let s := set_new_image_available_ true
           (streaming_state "clip.avi" (mkCap true clip 1) minus_one false true) in
exists s1,
  exec (UpdateChild (W := world)) s = Done tt s1
  /\ new_image_available_ s1 = false
  /\ exec (UpdateChild (W := world)) s1 = Done tt s1.
Proof.
cbv zeta. eexists. split; [vm_compute; reflexivity|].
apply (@render_twice_is_render_once world
         (set_new_image_available_ true
            (streaming_state "clip.avi" (mkCap true clip 1) minus_one false true))).
vm_compute; reflexivity.
Defined.

Lemma only_fault_is_the_cleared_buffer_witness :
let s := buffered_state clip 3 minus_one false false in
exec (VideoThread_iter (W := world)) s = Faulted (vector_out_of_range 0%N 0%nat)
/\ loop_video_ s = false
/\ buffer_all_frames_for_fast_seek_ s = true
/\ stop_video_ s = false
/\ exists s',
     exec (VideoThread_iter (W := world)) (buffered_state clip 3 minus_one false true)
     = Done tt s'.
Proof.
cbv zeta. split; [vm_compute; reflexivity|].
split; [|split; [|split]].
- apply (proj1 (@only_fault_is_the_cleared_buffer world
                  (buffered_state clip 3 minus_one false false))
               (vector_out_of_range 0%N 0%nat)).
  vm_compute; reflexivity.
- reflexivity.
- reflexivity.
- apply (proj2 (@only_fault_is_the_cleared_buffer world
                  (buffered_state clip 3 minus_one false true))).
  left. reflexivity.
Defined.

Lemma loaded_plugin_never_renders_null_witness :
exists s0,
  exec (Load (W := world) (sdf true false)) (constructed false) = Done tt s0
  /\ run (W := world) [EvVideoPath "clip.avi"; EvRender; EvTick; EvRender] s0
     <> Faulted null_pointer.
Proof.
eexists. split; [vm_compute; reflexivity|].
apply (@loaded_plugin_never_renders_null world (sdf true false) false).
vm_compute; reflexivity.
Defined.

Lemma default_image_overrides_default_video_witness :
exists s0,
  exec (Load (W := gallery) (sdf_defaults (Some "clip.avi"%string) (Some "logo.png"%string)))
       (constructed false) = Done tt s0
  /\ stop_video_ s0 = true
  /\ video_path_ s0 = "clip.avi"%string
  /\ new_video_available_ s0 = true
  /\ image_ s0 = Some (cvtColor_BGR2BGRA (imread (World := gallery) "logo.png"))
  /\ new_image_available_ s0 = true
  /\ forall n, run (W := gallery) (repeat EvTick n) s0 = Done tt s0.
Proof.
apply (@default_image_overrides_default_video gallery
         (sdf_defaults (Some "clip.avi"%string) (Some "logo.png"%string)) false);
  vm_compute; reflexivity.
Defined.


Lemma indeterminate_flag_is_harmless_witness :
exists s0,
  exec (Load (W := world) (sdf false false)) (constructed true) = Done tt s0
  /\ new_video_available_ s0 = true
  /\ video_path_ s0 = EmptyString
  /\ run (W := world) (repeat EvTick 3) s0 = Done tt s0.
Proof.
eexists. split; [vm_compute; reflexivity|].
apply (@indeterminate_flag_is_harmless world (sdf false false) true);
  vm_compute; reflexivity.
Defined.

Lemma paused_playback_is_idle_witness :
let s := buffered_state clip 1 minus_one true false in
run (W := world) (repeat EvTick 4) s = Done tt s.
Proof.
apply (@paused_playback_is_idle world (buffered_state clip 1 minus_one true false) 4).
- repeat split; vm_compute; reflexivity.
- reflexivity.
- intros _. vm_compute. reflexivity.
Defined.


Lemma unreadable_image_path_clears_display_witness :
let s := streaming_state "clip.avi" (mkCap true clip 1) minus_one false true in
exec (processImagePath (W := world) "missing.png") s
= exec (processImagePath (W := world) EmptyString) s
/\ exists s',
     exec (processImagePath (W := world) "missing.png") s = Done tt s'
     /\ image_ s' = Some (zeros (height_ (video_visual_ s))
                                (width_ (video_visual_ s)))
     /\ new_image_available_ s' = true
     /\ stop_video_ s' = true.
Proof.
apply (@unreadable_image_path_clears_display world "missing.png"
         (streaming_state "clip.avi" (mkCap true clip 1) minus_one false true)).
vm_compute; reflexivity.
Defined.

Lemma unopenable_video_clears_and_idles_witness :
let s := set_new_video_available_ true
           (streaming_state "nope.avi" closed minus_one false true) in
exists s',
  exec (VideoThread_iter (W := world)) s = Done tt s'
  /\ image_ s' = Some (zeros (height_ (video_visual_ s)) (width_ (video_visual_ s)))
  /\ new_image_available_ s' = true
  /\ isOpened (cap s') = false
  /\ stop_video_ s' = false
  /\ forall n, run (W := world) (repeat EvTick n) s' = Done tt s'.
Proof.
apply (@unopenable_video_clears_and_idles world
         (set_new_video_available_ true
            (streaming_state "nope.avi" closed minus_one false true)));
  vm_compute; reflexivity.
Defined.

Lemma new_video_is_buffered_whole_witness :
let s := set_video_path_ "tiny.avi" (loaded true false false) in
exists s',
  exec (open_new_video (W := world)) s = Done tt s'
  /\ video_frames_ s'
     = map (fun f => resize_bgr (W := world) f (width_ (video_visual_ s))
                                (height_ (video_visual_ s)))
           (filter (fun f => negb (empty f)) [frame 1 1 x07])
  /\ buffer_normalized s'
  /\ (List.length (video_frames_ s') <= List.length [frame 1 1 x07])%nat
  /\ current_buffered_frame_ s' = 0%N
  /\ cap s' = mkCap true [frame 1 1 x07] (List.length [frame 1 1 x07])
  /\ fst (read (cap s')) = None
  /\ image_ s' = Some (zeros (height_ (video_visual_ s)) (width_ (video_visual_ s)))
  /\ new_video_available_ s' = false.
Proof.
apply (@new_video_is_buffered_whole world
         (set_video_path_ "tiny.avi" (loaded true false false)));
  vm_compute; reflexivity.
Defined.

Lemma streaming_shows_frames_in_order_witness :
let s := streaming_state "clip.avi" (mkCap true clip 0) minus_one false true in
exists s',
  run (W := world) (repeat EvTick 2) s = Done tt s'
  /\ pos_frames (cap s') = (pos_frames (cap s) + 2)%nat
  /\ stream (cap s') = stream (cap s)
  /\ stop_video_ s' = false
  /\ ((0 < 2)%nat ->
      image_ s'
      = option_map cvtColor_BGR2BGRA
          (nth_error (stream (cap s)) (pos_frames (cap s) + 2 - 1))
      /\ new_image_available_ s' = true).
Proof.
apply (@streaming_shows_frames_in_order world 2
         (streaming_state "clip.avi" (mkCap true clip 0) minus_one false true)).
- repeat split; vm_compute; reflexivity.
- reflexivity.
- reflexivity.
- cbn. lia.
- intros f Hin. cbn in Hin.
  destruct Hin as [<- | [<- | [<- | []]]]; reflexivity.
Defined.

Lemma buffered_tick_shows_cursor_frame_witness :
let s := buffered_state clip 1 minus_one false false in
exists frame s',
  nth_error (video_frames_ s) 1 = Some frame
  /\ exec (VideoThread_iter (W := world)) s = Done tt s'
  /\ current_buffered_frame_ s' = 2%N
  /\ image_ s'
     = Some (if empty frame
             then zeros (height_ (video_visual_ s)) (width_ (video_visual_ s))
             else cvtColor_BGR2BGRA frame)
  /\ new_image_available_ s' = true
  /\ video_frames_ s' = video_frames_ s
  /\ stop_video_ s' = false.
Proof.
apply (@buffered_tick_shows_cursor_frame world
         (buffered_state clip 1 minus_one false false)).
- repeat split; vm_compute; reflexivity.
- reflexivity.
- reflexivity.
- right. vm_compute. reflexivity.
Defined.

Lemma first_tick_shows_first_frame_witness :
let s := loaded false false false in
exists s1 s2,
  exec (processVideoPath "clip.avi") s = Done tt s1
  /\ exec (VideoThread_iter (W := world)) s1 = Done tt s2
  /\ new_image_available_ s2 = true
  /\ stop_video_ s2 = false
  /\ (buffer_all_frames_for_fast_seek_ s = false ->
      image_ s2 = Some (cvtColor_BGR2BGRA (frame 2 2 x01))
      /\ cap s2 = mkCap true clip 1)
  /\ (buffer_all_frames_for_fast_seek_ s = true ->
      image_ s2
      = Some (let b := resize_bgr (W := world) (frame 2 2 x01)
                                  (width_ (video_visual_ s))
                                  (height_ (video_visual_ s)) in
              if empty b
              then zeros (height_ (video_visual_ s)) (width_ (video_visual_ s))
              else cvtColor_BGR2BGRA b)
      /\ current_buffered_frame_ s2 = 1%N).
Proof.
apply (@first_tick_shows_first_frame world (loaded false false false) "clip.avi"
         (frame 2 2 x01) [frame 2 2 x02; frame 2 2 x03]);
  vm_compute; reflexivity.
Defined.


Lemma streaming_seek_shows_sought_frame_witness :
let s := streaming_state "clip.avi" (mkCap true clip 0) half true true in
exists s',
  exec (VideoThread_iter (W := world)) s = Done tt s'
  /\ image_ s' = Some (cvtColor_BGR2BGRA (frame 2 2 x02))
  /\ new_image_available_ s' = true
  /\ cap s' = mkCap true (stream (cap s))
                    (S (N.to_nat (to_N (mul (frame_count (cap s))
                                            (video_seek_position_ s)))))
  /\ video_seek_position_ s' = minus_one
  /\ video_paused_ s' = video_paused_ s
  /\ stop_video_ s' = false.
Proof.
apply (@streaming_seek_shows_sought_frame world
         (streaming_state "clip.avi" (mkCap true clip 0) half true true)
         (frame 2 2 x02));
  vm_compute; reflexivity.
Defined.

Lemma streaming_seek_past_end_ends_video_witness :
let s := streaming_state "clip.avi" (mkCap true clip 0) one false false in
exists s',
  exec (VideoThread_iter (W := world)) s = Done tt s'
  /\ video_seek_position_ s' = minus_one
  /\ (loop_video_ s = true ->
      cap s' = cap_open (W := world) (video_path_ s) /\ image_ s' = image_ s
      /\ stop_video_ s' = false)
  /\ (loop_video_ s = false ->
      stop_video_ s' = true
      /\ image_ s' = Some (zeros (height_ (video_visual_ s))
                                 (width_ (video_visual_ s)))
      /\ new_image_available_ s' = true).
Proof.
apply (@streaming_seek_past_end_ends_video world
         (streaming_state "clip.avi" (mkCap true clip 0) one false false));
  vm_compute; reflexivity.
Defined.

Lemma sample_world_ok : world_ok (W := world).
Proof.
unfold world_ok. cbn [video_file imread interpolate_bgr interpolate_bgra world].
repeat split.
- intros path frames.
  destruct (path =? "clip.avi")%string;
    [| destruct (path =? "tiny.avi")%string; [| discriminate]];
    intros H; injection H as <-; repeat constructor.
- intros src w h. rewrite repeat_length, Z.mul_comm. reflexivity.
- intros src w h. rewrite repeat_length, Z.mul_comm. reflexivity.
Qed.

Lemma texture_is_always_full_witness :
exists s0 s,
  exec (Load (W := world) (sdf true false)) (constructed false) = Done tt s0
  /\ run (W := world)
         [EvImage (zeros 1 1); EvRender; EvVideoPath "tiny.avi"; EvTick; EvRender]
         s0 = Done tt s
  /\ height_ (video_visual_ s) = or_default (sdf_height (sdf true false)) 240
  /\ width_ (video_visual_ s) = or_default (sdf_width (sdf true false)) 320
  /\ List.length (texture (video_visual_ s))
     = (4 * Z.to_nat (height_ (video_visual_ s) * width_ (video_visual_ s)))%nat
  /\ forall im,
       image_ s = Some im ->
       List.length (data (render_source (W := world) (video_visual_ s) im))
       = Z.to_nat (height_ (video_visual_ s) * width_ (video_visual_ s)).
Proof.
eexists. eexists.
split; [vm_compute; reflexivity|].
split; [vm_compute; reflexivity|].
eapply (@texture_is_always_full world (sdf true false) false
          [EvImage (zeros 1 1); EvRender; EvVideoPath "tiny.avi"; EvTick; EvRender]).
- exact sample_world_ok.
- repeat constructor.
- vm_compute; reflexivity.
- vm_compute; reflexivity.
Defined.

Lemma buffered_seek_reaches_both_ends_witness :
(exists s',
   exec (VideoThread_iter (W := world)) (buffered_state clip 2 zero true false)
   = Done tt s'
   /\ image_ s' = Some (cvtColor_BGR2BGRA (frame 2 2 x01))
   /\ current_buffered_frame_ s' = 1%N
   /\ video_seek_position_ s' = minus_one)
/\ (exists s',
      exec (VideoThread_iter (W := world)) (buffered_state clip 0 one true false)
      = Done tt s'
      /\ image_ s' = Some (cvtColor_BGR2BGRA (frame 2 2 x03))
      /\ current_buffered_frame_ s' = 3%N
      /\ video_seek_position_ s' = minus_one).
Proof.
split.
- apply (proj1 (@buffered_seek_reaches_both_ends world
                  (buffered_state clip 2 zero true false)
                  (frame 2 2 x01) (frame 2 2 x03)
                  eq_refl eq_refl eq_refl le_max_exact_3 eq_refl eq_refl)).
  reflexivity.
- apply (proj2 (@buffered_seek_reaches_both_ends world
                  (buffered_state clip 0 one true false)
                  (frame 2 2 x01) (frame 2 2 x03)
                  eq_refl eq_refl eq_refl le_max_exact_3 eq_refl eq_refl)).
  reflexivity.
Defined.

End Runs.
